(** * Weather-Tracker: a shallow embedding of [main.go]

    The program is a small HTTP gateway.  [loadApiConfig] reads a JSON
    credentials file, [query] builds the upstream URL, performs the GET and
    decodes the reply into a [weatherData], and the handler registered on
    [/weather/] splits the request path, calls [query] and writes either an
    error or the JSON-encoded record.

    The repository's own code is [main.go]; everything it calls from Go's
    standard library ([strings.SplitN], [encoding/json], [unicode/utf8],
    [strconv], [net/http]'s response writer) is embedded here as far as the
    program exercises it, as executable functions over bytes.  The file
    system and the network are an explicit [World]; every effect the program
    performs is recorded in a trace. *)

From Stdlib Require Import ZArith List Bool Lia.
From Stdlib Require Import Strings.Byte Strings.Ascii Strings.String.
From Stdlib Require Import Floats.SpecFloat.
From stdpp Require Import base option list strings gmap.

Import ListNotations.
Local Open Scope Z_scope.
Local Open Scope list_scope.

(** ** Bytes

    A Go [string] and a Go [[]byte] are both sequences of bytes.  Program
    level values are Rocq [string]s; the byte-level library code works on
    [list byte]. *)

Definition b2z (b : byte) : Z := Z.of_N (Byte.to_N b).

(** Go's conversion [byte(x)]: keep the low eight bits. *)
Definition z2b (z : Z) : byte :=
  match Byte.of_N (Z.to_N (z mod 256)) with
  | Some b => b
  | None => x00
  end.

#[global] Instance byte_eq_dec : EqDecision byte := Byte.byte_eq_dec.

Definition bytes_of (s : string) : list byte := list_byte_of_string s.

Definition string_of (l : list byte) : string := string_of_list_byte l.

(** JSON texts are full of double quotes; [q] lets the examples of this file
    write them with apostrophes. *)
Definition q (s : string) : string :=
  string_of (map (fun b => match b with x27 => x22 | _ => b end) (bytes_of s)).

(** ** [unicode/utf8] *)

Module utf8.

Definition RuneError : Z := 0xFFFD.
Definition MaxRune : Z := 0x10FFFF.
Definition RuneSelf : Z := 0x80.
Definition UTFMax : nat := 4.

Definition surrogateMin : Z := 0xD800.
Definition surrogateMax : Z := 0xDFFF.

Definition maskx : Z := 0x3F.
Definition mask2 : Z := 0x1F.
Definition mask3 : Z := 0x0F.
Definition mask4 : Z := 0x07.

Definition tx : Z := 0x80.
Definition t2 : Z := 0xC0.
Definition t3 : Z := 0xE0.
Definition t4 : Z := 0xF0.

Definition locb : Z := 0x80.
Definition hicb : Z := 0xBF.

(** The table [first]: what the first byte of a sequence announces.
    [Seq sz lo hi] is a lead byte of a [sz]-byte sequence whose second byte
    must lie in [lo..hi]. *)
Inductive lead := AS | XX | Seq (sz : nat) (lo hi : Z).

Definition first (p0 : Z) : lead :=
  if p0 <? 0x80 then AS
  else if p0 <? 0xC2 then XX
  else if p0 <? 0xE0 then Seq 2 locb hicb
  else if p0 =? 0xE0 then Seq 3 0xA0 hicb
  else if p0 <? 0xED then Seq 3 locb hicb
  else if p0 =? 0xED then Seq 3 locb 0x9F
  else if p0 <? 0xF0 then Seq 3 locb hicb
  else if p0 =? 0xF0 then Seq 4 0x90 hicb
  else if p0 <? 0xF4 then Seq 4 locb hicb
  else if p0 =? 0xF4 then Seq 4 locb 0x8F
  else XX.

Definition continuation (b : Z) : bool := (locb <=? b) && (b <=? hicb).

(** [DecodeRune p] is the first rune of [p] and its width in bytes;
    [(RuneError, 1)] marks an invalid encoding, [(RuneError, 0)] the empty
    input. *)
Definition DecodeRune (p : list byte) : Z * nat :=
  match p with
  | [] => (RuneError, 0%nat)
  | c0 :: p1 =>
    let p0 := b2z c0 in
    match first p0 with
    | AS => (p0, 1%nat)
    | XX => (RuneError, 1%nat)
    | Seq sz lo hi =>
      if (length p <? sz)%nat then (RuneError, 1%nat) else
      match p1 with
      | [] => (RuneError, 1%nat)
      | c1 :: p2 =>
        let b1 := b2z c1 in
        if (b1 <? lo) || (hi <? b1) then (RuneError, 1%nat)
        else if (sz <=? 2)%nat then
          (Z.lor (Z.shiftl (Z.land p0 mask2) 6) (Z.land b1 maskx), 2%nat)
        else
        match p2 with
        | [] => (RuneError, 1%nat)
        | c2 :: p3 =>
          let b2 := b2z c2 in
          if negb (continuation b2) then (RuneError, 1%nat)
          else if (sz <=? 3)%nat then
            (Z.lor (Z.lor (Z.shiftl (Z.land p0 mask3) 12)
                          (Z.shiftl (Z.land b1 maskx) 6))
                   (Z.land b2 maskx), 3%nat)
          else
          match p3 with
          | [] => (RuneError, 1%nat)
          | c3 :: _ =>
            let b3 := b2z c3 in
            if negb (continuation b3) then (RuneError, 1%nat)
            else
              (Z.lor (Z.lor (Z.lor (Z.shiftl (Z.land p0 mask4) 18)
                                   (Z.shiftl (Z.land b1 maskx) 12))
                            (Z.shiftl (Z.land b2 maskx) 6))
                     (Z.land b3 maskx), 4%nat)
          end
        end
      end
    end
  end.

Definition encode3 (r : Z) : list byte :=
  [z2b (Z.lor t3 (Z.shiftr r 12));
   z2b (Z.lor tx (Z.land (Z.shiftr r 6) maskx));
   z2b (Z.lor tx (Z.land r maskx))].

(** [EncodeRune r]: the UTF-8 encoding of [r]; a surrogate half or a value
    out of range is encoded as [RuneError]. *)
Definition EncodeRune (r : Z) : list byte :=
  if (0 <=? r) && (r <=? 0x7F) then [z2b r]
  else if (0 <=? r) && (r <=? 0x7FF) then
    [z2b (Z.lor t2 (Z.shiftr r 6)); z2b (Z.lor tx (Z.land r maskx))]
  else if (r <? 0) || (MaxRune <? r)
          || ((surrogateMin <=? r) && (r <=? surrogateMax)) then
    encode3 RuneError
  else if r <=? 0xFFFF then encode3 r
  else
    [z2b (Z.lor t4 (Z.shiftr r 18));
     z2b (Z.lor tx (Z.land (Z.shiftr r 12) maskx));
     z2b (Z.lor tx (Z.land (Z.shiftr r 6) maskx));
     z2b (Z.lor tx (Z.land r maskx))].

(** A string is valid UTF-8 when decoding it rune by rune never meets an
    invalid encoding ([utf8.Valid]). *)
Fixpoint Valid_fuel (n : nat) (p : list byte) : bool :=
  match n with
  | O => match p with [] => true | _ => false end
  | S n' =>
    match p with
    | [] => true
    | _ =>
      match DecodeRune p with
      | (r, 1%nat) => if r =? RuneError then false else Valid_fuel n' (drop 1 p)
      | (_, sz) => Valid_fuel n' (drop sz p)
      end
    end
  end.

Definition Valid (p : list byte) : bool := Valid_fuel (length p) p.

End utf8.

(** ** [float64] and [strconv]

    A [float64] is an IEEE 754 binary64 value, as the Standard Library
    specifies it: [prec = 53], [emax = 1024], rounding to nearest even. *)

Definition float64 : Type := spec_float.

Definition float64_zero : float64 := S754_zero false.

Definition IsInf (f : float64) : bool :=
  match f with S754_infinity _ => true | _ => false end.

Definition IsNaN (f : float64) : bool :=
  match f with S754_nan => true | _ => false end.

Module strconv.

Definition prec : Z := 53.
Definition emax : Z := 1024.

Definition is_digit (b : byte) : bool := (0x30 <=? b2z b) && (b2z b <=? 0x39).

(** The digits at the head of a text, their value continued from [acc],
    how many there are, and what follows them. *)
Fixpoint read_digits (s : list byte) (acc : Z) (n : Z) : Z * Z * list byte :=
  match s with
  | c :: s' =>
    if is_digit c then read_digits s' (10 * acc + (b2z c - 0x30)) (n + 1)
    else (acc, n, s)
  | [] => (acc, n, s)
  end.

(** The digits of an exponent.  Once the exponent has reached 10000 further
    digits are read and dropped: the number is then far out of range either
    way. *)
Fixpoint read_exponent (s : list byte) (acc : Z) (n : Z) : Z * Z * list byte :=
  match s with
  | c :: s' =>
    if is_digit c then
      read_exponent s' (if acc <? 10000 then 10 * acc + (b2z c - 0x30) else acc) (n + 1)
    else (acc, n, s)
  | [] => (acc, n, s)
  end.

(** A decimal floating point literal: sign, digits with an optional point,
    optional exponent.  [Some (neg, m, e)] stands for [(-1)^neg * m * 10^e]. *)
Definition readFloat (s : list byte) : option (bool * Z * Z) :=
  let '(neg, s1) :=
    match s with
    | x2b :: t => (false, t)
    | x2d :: t => (true, t)
    | _ => (false, s)
    end in
  let '(mi, ni, s2) := read_digits s1 0 0 in
  let '(m, nf, s3) :=
    match s2 with
    | x2e :: t => read_digits t mi 0
    | _ => (mi, 0, s2)
    end in
  if ni + nf =? 0 then None else
  match s3 with
  | [] => Some (neg, m, - nf)
  | c :: t =>
    match c with
    | x65 | x45 =>
      let '(eneg, s4) :=
        match t with
        | x2b :: u => (false, u)
        | x2d :: u => (true, u)
        | _ => (false, t)
        end in
      let '(e, ne, s5) := read_exponent s4 0 0 in
      if ne =? 0 then None else
      match s5 with
      | [] => Some (neg, m, (if eneg then - e else e) - nf)
      | _ => None
      end
    | _ => None
    end
  end.

(** The binary64 value nearest to [(-1)^neg * m * 10^e], ties to even;
    an infinity when the magnitude is out of range. *)
Definition float64_of_decimal (neg : bool) (m e : Z) : float64 :=
  if m <=? 0 then S754_zero neg
  else if 0 <=? e then
    binary_normalize prec emax (cond_Zopp neg (m * 10 ^ e)) 0 neg
  else
    let '(mz, ez, lz) := SFdiv_core_binary prec emax m 0 (10 ^ (- e)) 0 in
    binary_round_aux prec emax neg mz ez lz.

Inductive NumError := ErrSyntax | ErrRange.

(** [strconv.ParseFloat(s, 64)] on decimal literals, the only ones the JSON
    decoder hands it. *)
Definition ParseFloat (s : list byte) : float64 * option NumError :=
  match readFloat s with
  | None => (float64_zero, Some ErrSyntax)
  | Some (neg, m, e) =>
    let f := float64_of_decimal neg m e in
    if IsInf f then (f, Some ErrRange) else (f, None)
  end.

(** *** Shortest formatting

    [decimal] is the digit buffer of [strconv]: the value is
    [0.d1 d2 ... dn * 10^dp]. *)
Record decimal := { dd : list Z; dp : Z }.

Definition nd (a : decimal) : Z := Z.of_nat (length (dd a)).

Definition digit (a : decimal) (i : Z) : Z := nth (Z.to_nat i) (dd a) 0.

Fixpoint strip_zeros_rev (l : list Z) : list Z :=
  match l with
  | 0 :: l' => strip_zeros_rev l'
  | _ => l
  end.

Definition trim (a : decimal) : decimal :=
  let d := rev (strip_zeros_rev (rev (dd a))) in
  match d with
  | [] => {| dd := []; dp := 0 |}
  | _ => {| dd := d; dp := dp a |}
  end.

Fixpoint uint_digits (u : Decimal.uint) : list Z :=
  match u with
  | Decimal.Nil => []
  | Decimal.D0 u' => 0 :: uint_digits u'
  | Decimal.D1 u' => 1 :: uint_digits u'
  | Decimal.D2 u' => 2 :: uint_digits u'
  | Decimal.D3 u' => 3 :: uint_digits u'
  | Decimal.D4 u' => 4 :: uint_digits u'
  | Decimal.D5 u' => 5 :: uint_digits u'
  | Decimal.D6 u' => 6 :: uint_digits u'
  | Decimal.D7 u' => 7 :: uint_digits u'
  | Decimal.D8 u' => 8 :: uint_digits u'
  | Decimal.D9 u' => 9 :: uint_digits u'
  end.

Definition digits_of (n : Z) : list Z :=
  match n with
  | Zpos p => uint_digits (Pos.to_uint p)
  | _ => []
  end.

(** [d.Assign(mant); d.Shift(e2)]: the exact decimal expansion of
    [mant * 2^e2]. *)
Definition decimal_of (mant e2 : Z) : decimal :=
  if 0 <=? e2 then
    let ds := digits_of (mant * 2 ^ e2) in
    trim {| dd := ds; dp := Z.of_nat (length ds) |}
  else
    let ds := digits_of (mant * 5 ^ (- e2)) in
    trim {| dd := ds; dp := Z.of_nat (length ds) + e2 |}.

Definition shouldRoundUp (a : decimal) (n : Z) : bool :=
  if (n <? 0) || (nd a <=? n) then false
  else if (digit a n =? 5) && (n + 1 =? nd a) then
    (0 <? n) && Z.odd (digit a (n - 1))
  else 5 <=? digit a n.

Definition RoundDown (a : decimal) (n : Z) : decimal :=
  if (n <? 0) || (nd a <=? n) then a
  else trim {| dd := take (Z.to_nat n) (dd a); dp := dp a |}.

Fixpoint strip_nines_rev (l : list Z) : list Z :=
  match l with
  | 9 :: l' => strip_nines_rev l'
  | _ => l
  end.

Definition RoundUp (a : decimal) (n : Z) : decimal :=
  if (n <? 0) || (nd a <=? n) then a
  else
    match strip_nines_rev (rev (take (Z.to_nat n) (dd a))) with
    | [] => {| dd := [1]; dp := dp a + 1 |}
    | c :: l => {| dd := rev ((c + 1) :: l); dp := dp a |}
    end.

Definition Round (a : decimal) (n : Z) : decimal :=
  if (n <? 0) || (nd a <=? n) then a
  else if shouldRoundUp a n then RoundUp a n else RoundDown a n.

Definition mantbits : Z := 52.
Definition bias : Z := -1023.

(** The digit walk of [roundShortest]: [ui] indexes the digits of [upper],
    [upperdelta] tracks how far rounding up stays below [upper]. *)
Fixpoint shortest_walk (fuel : nat) (d lower upper : decimal)
         (inclusive : bool) (ui upperdelta : Z) : decimal :=
  match fuel with
  | O => d
  | S fuel' =>
    let mi := ui - dp upper + dp d in
    if nd d <=? mi then d else
    let li := ui - dp upper + dp lower in
    let l := if (0 <=? li) && (li <? nd lower) then digit lower li else 0 in
    let m := if 0 <=? mi then digit d mi else 0 in
    let u := if ui <? nd upper then digit upper ui else 0 in
    let okdown := negb (l =? m) || (inclusive && (li + 1 =? nd lower)) in
    let upperdelta' :=
      if (upperdelta =? 0) && (m + 1 <? u) then 2
      else if (upperdelta =? 0) && negb (m =? u) then 1
      else if (upperdelta =? 1) && (negb (m =? 9) || negb (u =? 0)) then 2
      else upperdelta in
    let okup :=
      (0 <? upperdelta')
      && (inclusive || (1 <? upperdelta') || (ui + 1 <? nd upper)) in
    if okdown && okup then Round d (mi + 1)
    else if okdown then RoundDown d (mi + 1)
    else if okup then RoundUp d (mi + 1)
    else shortest_walk fuel' d lower upper inclusive (ui + 1) upperdelta'
  end.

(** [roundShortest]: the shortest digits that still identify
    [mant * 2^(exp - mantbits)] among the binary64 values. *)
Definition roundShortest (d : decimal) (mant exp : Z) : decimal :=
  if mant =? 0 then {| dd := []; dp := dp d |} else
  let minexp := bias + 1 in
  if (minexp <? exp) && (100 * (exp - mantbits) <=? 332 * (dp d - nd d))
  then d else
  let upper := decimal_of (mant * 2 + 1) (exp - mantbits - 1) in
  let '(mantlo, explo) :=
    if (2 ^ mantbits <? mant) || (exp =? minexp) then (mant - 1, exp)
    else (mant * 2 - 1, exp - 1) in
  let lower := decimal_of (mantlo * 2 + 1) (explo - mantbits - 1) in
  let inclusive := Z.even mant in
  shortest_walk (length (dd d) + 2) d lower upper inclusive 0 0.

Definition digit_byte (z : Z) : byte := z2b (0x30 + z).

Definition zeros (n : Z) : list byte := repeat x30 (Z.to_nat n).

(** [%e] with every digit, exponent of at least two digits. *)
Definition fmtE (neg : bool) (d : decimal) : list byte :=
  let p := Z.max (nd d - 1) 0 in
  let exp := if nd d =? 0 then 0 else dp d - 1 in
  let aexp := Z.abs exp in
  (if neg then [x2d] else [])
  ++ [digit_byte (if nd d =? 0 then 0 else digit d 0)]
  ++ (if 0 <? p then x2e :: map digit_byte (drop 1 (dd d)) else [])
  ++ [x65; if exp <? 0 then x2d else x2b]
  ++ (if aexp <? 10 then [x30; digit_byte aexp]
      else if aexp <? 100 then [digit_byte (aexp / 10); digit_byte (aexp mod 10)]
      else [digit_byte (aexp / 100); digit_byte ((aexp / 10) mod 10);
            digit_byte (aexp mod 10)]).

(** [%f] with every digit. *)
Definition fmtF (neg : bool) (d : decimal) : list byte :=
  let p := Z.max (nd d - dp d) 0 in
  (if neg then [x2d] else [])
  ++ (if 0 <? dp d then
        let m := Z.min (nd d) (dp d) in
        map digit_byte (take (Z.to_nat m) (dd d)) ++ zeros (dp d - m)
      else [x30])
  ++ (if 0 <? p then
        x2e :: map (fun i : nat =>
                      let j := dp d + Z.of_nat i in
                      digit_byte (if (0 <=? j) && (j <? nd d) then digit d j else 0))
                   (seq 0 (Z.to_nat p))
      else []).

(** [strconv.FormatFloat(f, fmt, -1, 64)] for [fmt] one of ['e'], ['f']. *)
Definition FormatFloat (f : float64) (exponent_form : bool) : list byte :=
  match f with
  | S754_nan => bytes_of "NaN"
  | S754_infinity s => bytes_of (if s then "-Inf" else "+Inf")
  | S754_zero s =>
    let d := {| dd := []; dp := 0 |} in
    if exponent_form then fmtE s d else fmtF s d
  | S754_finite s m e =>
    let mant := Zpos m in
    let d := roundShortest (decimal_of mant e) mant (e + mantbits) in
    if exponent_form then fmtE s d else fmtF s d
  end.

End strconv.

Definition f64 (s : string) : float64 := fst (strconv.ParseFloat (bytes_of s)).

Definition fmt_f (s : string) : string := string_of (strconv.FormatFloat (f64 s) false).

Definition fmt_e (s : string) : string := string_of (strconv.FormatFloat (f64 s) true).

(** ** Errors

    A Go [error] value.  Failures of the operating system and of the network
    come from the [World] with their message; those of [encoding/json] are
    built here.  The wording of [encoding/json]'s diagnostics differs between
    Go releases and is abbreviated; what is kept is the kind of the error and,
    for a type mismatch, the JSON value and the Go type that did not fit. *)

Inductive error :=
| ExternalError (msg : string)
| SyntaxError
| UnmarshalTypeError (Value : string) (Type_ : string)
| UnsupportedValueError (Str : string).

Definition Error (e : error) : string :=
  match e with
  | ExternalError msg => msg
  | SyntaxError => "json: syntax error"
  | UnmarshalTypeError v t =>
    "json: cannot unmarshal " +:+ v +:+ " into Go value of type " +:+ t
  | UnsupportedValueError s => "json: unsupported value: " +:+ s
  end.

(** ** [encoding/json] *)

Module json.

(** A JSON text as the decoder sees it: objects keep the order and the
    duplicates of their members, numbers keep their literal, strings are
    already unquoted. *)
#[warnings="-register-all"]
Inductive value :=
| JNull
| JBool (b : bool)
| JNumber (lit : string)
| JString (s : string)
| JArray (elems : list value)
| JObject (members : list (string * value)).

Inductive presult (A : Type) :=
| POk (a : A) (rest : list byte)
| PErr
| PFuel.
Arguments POk {A} a rest.
Arguments PErr {A}.
Arguments PFuel {A}.

Definition isSpace (c : byte) : bool :=
  Byte.eqb c x20 || Byte.eqb c x09 || Byte.eqb c x0d || Byte.eqb c x0a.

Fixpoint skip_ws (s : list byte) : list byte :=
  match s with
  | c :: t => if isSpace c then skip_ws t else s
  | [] => []
  end.

(** [strip_prefix p s]: what follows [p] at the head of [s]. *)
Fixpoint strip_prefix (p s : list byte) : option (list byte) :=
  match p with
  | [] => Some s
  | a :: p' =>
    match s with
    | b :: s' => if Byte.eqb a b then strip_prefix p' s' else None
    | [] => None
    end
  end.

(** *** String literals *)

Definition hexval (c : byte) : option Z :=
  let z := b2z c in
  if (0x30 <=? z) && (z <=? 0x39) then Some (z - 0x30)
  else if (0x61 <=? z) && (z <=? 0x66) then Some (z - 0x61 + 10)
  else if (0x41 <=? z) && (z <=? 0x46) then Some (z - 0x41 + 10)
  else None.

Definition hex4 (a b c d : byte) : option Z :=
  match hexval a, hexval b, hexval c, hexval d with
  | Some x3, Some x2, Some x1, Some x0 =>
    Some (((x3 * 16 + x2) * 16 + x1) * 16 + x0)
  | _, _, _, _ => None
  end.

(** [getu4]: the rune of a [\uXXXX] escape at the head of [s], or [-1]. *)
Definition getu4 (s : list byte) : Z :=
  match s with
  | b0 :: b1 :: a :: b :: c :: d :: _ =>
    if Byte.eqb b0 x5c && Byte.eqb b1 x75 then default (-1) (hex4 a b c d)
    else -1
  | _ => -1
  end.

Definition surr1 : Z := 0xd800.
Definition surr2 : Z := 0xdc00.
Definition surr3 : Z := 0xe000.
Definition surrSelf : Z := 0x10000.
Definition ReplacementChar : Z := 0xFFFD.

Definition IsSurrogate (r : Z) : bool := (surr1 <=? r) && (r <? surr3).

(** [utf16.DecodeRune] *)
Definition utf16_DecodeRune (r1 r2 : Z) : Z :=
  if (surr1 <=? r1) && (r1 <? surr2) && (surr2 <=? r2) && (r2 <? surr3)
  then Z.lor (Z.shiftl (r1 - surr1) 10) (r2 - surr2) + surrSelf
  else ReplacementChar.

Definition cons_ok (l : list byte) (r : option (list byte * list byte))
  : option (list byte * list byte) :=
  match r with
  | Some (out, rest) => Some (l ++ out, rest)
  | None => None
  end.

(** What may follow a backslash: a byte that stands for another one, the
    [u] of a rune escape, or nothing valid. *)
Inductive escape_kind := EscByte (b : byte) | EscU | EscBad.

Definition escape_kind_of (e : byte) : escape_kind :=
  match e with
  | x22 => EscByte x22
  | x5c => EscByte x5c
  | x2f => EscByte x2f
  | x62 => EscByte x08
  | x66 => EscByte x0c
  | x6e => EscByte x0a
  | x72 => EscByte x0d
  | x74 => EscByte x09
  | x75 => EscU
  | _ => EscBad
  end.

(** The body of a string literal, from just after the opening quote: the
    scanner's check of the literal and [unquote] in one pass.  The result
    is the unquoted text and what follows the closing quote.  Escapes are
    decoded, a lone surrogate escape becomes U+FFFD, and bytes that are not
    valid UTF-8 are coerced to U+FFFD. *)
Fixpoint unquote (s : list byte) : option (list byte * list byte) :=
  match s with
  | [] => None
  | c :: t =>
    if Byte.eqb c x22 then Some ([], t)
    else if Byte.eqb c x5c then
      match t with
      | [] => None
      | e :: t' =>
        match escape_kind_of e with
        | EscByte b => cons_ok [b] (unquote t')
        | EscBad => None
        | EscU =>
          match t' with
          | h1 :: h2 :: h3 :: h4 :: t'' =>
            match hex4 h1 h2 h3 h4 with
            | None => None
            | Some rr =>
              if IsSurrogate rr then
                let dec := utf16_DecodeRune rr (getu4 t'') in
                if negb (dec =? ReplacementChar) then
                  match t'' with
                  | _ :: _ :: _ :: _ :: _ :: _ :: t3 =>
                    cons_ok (utf8.EncodeRune dec) (unquote t3)
                  | _ => None
                  end
                else cons_ok (utf8.EncodeRune ReplacementChar) (unquote t'')
              else cons_ok (utf8.EncodeRune rr) (unquote t'')
            end
          | _ => None
          end
        end
      end
    else if b2z c <? 0x20 then None
    else if b2z c <? utf8.RuneSelf then cons_ok [c] (unquote t)
    else
      let '(rr, size) := utf8.DecodeRune s in
      match size, t with
      | 1%nat, _ => cons_ok (utf8.EncodeRune rr) (unquote t)
      | 2%nat, _ :: t1 => cons_ok (utf8.EncodeRune rr) (unquote t1)
      | 3%nat, _ :: _ :: t2 => cons_ok (utf8.EncodeRune rr) (unquote t2)
      | 4%nat, _ :: _ :: _ :: t3 => cons_ok (utf8.EncodeRune rr) (unquote t3)
      | _, _ => None
      end
  end.

(** *** Number literals *)

Fixpoint digits (s : list byte) : list byte * list byte :=
  match s with
  | c :: t =>
    if strconv.is_digit c then let '(ds, r) := digits t in (c :: ds, r)
    else ([], s)
  | [] => ([], [])
  end.

(** An optional sign at the head of [s], one of the two bytes given. *)
Definition opt_sign (a b : byte) (s : list byte) : list byte * list byte :=
  match s with
  | c :: t => if Byte.eqb c a || Byte.eqb c b then ([c], t) else ([], s)
  | [] => ([], s)
  end.

(** The fraction of a number: nothing, or a point and at least one digit. *)
Definition scan_fraction (s : list byte) : option (list byte * list byte) :=
  match s with
  | c :: u =>
    if Byte.eqb c x2e then
      let '(ds, r) := digits u in
      match ds with
      | [] => None
      | _ => Some (c :: ds, r)
      end
    else Some ([], s)
  | [] => Some ([], s)
  end.

(** The exponent of a number: nothing, or [e] or [E], an optional sign and
    at least one digit. *)
Definition scan_exponent (s : list byte) : option (list byte * list byte) :=
  match s with
  | e :: u =>
    if Byte.eqb e x65 || Byte.eqb e x45 then
      let '(es, u1) := opt_sign x2b x2d u in
      let '(ds, r) := digits u1 in
      match ds with
      | [] => None
      | _ => Some (e :: es ++ ds, r)
      end
    else Some ([], s)
  | [] => Some ([], s)
  end.

(** The scanner's number grammar: an optional minus sign, then a single
    zero or a digit run that does not start with zero, then the fraction,
    then the exponent.  The literal and what follows it. *)
Definition scan_number (s : list byte) : option (list byte * list byte) :=
  let '(sign, s1) := opt_sign x2d x2d s in
  match s1 with
  | [] => None
  | c :: t =>
    if negb (strconv.is_digit c) then None else
    let '(int, s2) := if Byte.eqb c x30 then ([c], t) else digits s1 in
    match scan_fraction s2 with
    | None => None
    | Some (fr, s3) =>
      match scan_exponent s3 with
      | None => None
      | Some (ex, r) => Some (sign ++ int ++ fr ++ ex, r)
      end
    end
  end.

(** *** Values *)

Definition maxNestingDepth : Z := 10000.

(** How a value begins. *)
Inductive start := SObject | SArray | SString | STrue | SFalse | SNull | SOther.

Definition start_of (c : byte) : start :=
  match c with
  | x7b => SObject
  | x5b => SArray
  | x22 => SString
  | x74 => STrue
  | x66 => SFalse
  | x6e => SNull
  | _ => SOther
  end.

(** The literal [name], whose first byte has been read. *)
Definition literal (rest_of_name : string) (v : value) (t : list byte)
  : presult value :=
  match strip_prefix (bytes_of rest_of_name) t with
  | Some r => POk v r
  | None => PErr
  end.

(** Recursive descent over the text.  [depth] counts the enclosing
    containers; [fuel] bounds the recursion and is never the reason for a
    failure when it exceeds twice the length of the text
    ([parse_value_fuel]). *)
Fixpoint parse_value (fuel : nat) (depth : Z) (s : list byte)
  {struct fuel} : presult value :=
  match fuel with
  | O => PFuel
  | S fuel' =>
    match skip_ws s with
    | [] => PErr
    | c :: t =>
      match start_of c with
      | SObject =>
        if maxNestingDepth <? depth + 1 then PErr else
        match strip_prefix [x7d] (skip_ws t) with
        | Some t' => POk (JObject []) t'
        | None =>
          match parse_members fuel' (depth + 1) t with
          | POk kvs r => POk (JObject kvs) r
          | PErr => PErr
          | PFuel => PFuel
          end
        end
      | SArray =>
        if maxNestingDepth <? depth + 1 then PErr else
        match strip_prefix [x5d] (skip_ws t) with
        | Some t' => POk (JArray []) t'
        | None =>
          match parse_elements fuel' (depth + 1) t with
          | POk vs r => POk (JArray vs) r
          | PErr => PErr
          | PFuel => PFuel
          end
        end
      | SString =>
        match unquote t with
        | Some (str, r) => POk (JString (string_of str)) r
        | None => PErr
        end
      | STrue => literal "rue" (JBool true) t
      | SFalse => literal "alse" (JBool false) t
      | SNull => literal "ull" JNull t
      | SOther =>
        match scan_number (c :: t) with
        | Some (lit, r) => POk (JNumber (string_of lit)) r
        | None => PErr
        end
      end
    end
  end
with parse_members (fuel : nat) (depth : Z) (s : list byte)
  {struct fuel} : presult (list (string * value)) :=
  match fuel with
  | O => PFuel
  | S fuel' =>
    match strip_prefix [x22] (skip_ws s) with
    | None => PErr
    | Some t =>
      match unquote t with
      | None => PErr
      | Some (k, r) =>
        match strip_prefix [x3a] (skip_ws r) with
        | None => PErr
        | Some r1 =>
          match parse_value fuel' depth r1 with
          | POk v r2 =>
            match skip_ws r2 with
            | c :: r3 =>
              if Byte.eqb c x2c then
                match parse_members fuel' depth r3 with
                | POk kvs r4 => POk ((string_of k, v) :: kvs) r4
                | PErr => PErr
                | PFuel => PFuel
                end
              else if Byte.eqb c x7d then POk [(string_of k, v)] r3
              else PErr
            | [] => PErr
            end
          | PErr => PErr
          | PFuel => PFuel
          end
        end
      end
    end
  end
with parse_elements (fuel : nat) (depth : Z) (s : list byte)
  {struct fuel} : presult (list value) :=
  match fuel with
  | O => PFuel
  | S fuel' =>
    match parse_value fuel' depth s with
    | POk v r =>
      match skip_ws r with
      | c :: r1 =>
        if Byte.eqb c x2c then
          match parse_elements fuel' depth r1 with
          | POk vs r2 => POk (v :: vs) r2
          | PErr => PErr
          | PFuel => PFuel
          end
        else if Byte.eqb c x5d then POk [v] r1
        else PErr
      | [] => PErr
      end
    | PErr => PErr
    | PFuel => PFuel
    end
  end.

(** A whole text: one value, then only white space.  [None] is a syntax
    error ([checkValid] fails). *)
Definition parse (data : list byte) : option value :=
  match parse_value (S (2 * length data)) 0 data with
  | POk v rest =>
    match skip_ws rest with
    | [] => Some v
    | _ => None
    end
  | _ => None
  end.

Definition Valid (data : string) : bool :=
  match parse (bytes_of data) with Some _ => true | None => false end.

End json.

Import json.

Definition parse_text (s : string) : option value := json.parse (bytes_of (q s)).

(** *** Decoding into Go values

    [Unmarshal] checks the whole text first and then stores the value in
    the target.  A type mismatch does not stop the decoder: it skips the
    offending value, goes on with the rest, and reports the first
    mismatch at the end.  Each target type is an instance of [Decoder]:
    [decode v x] stores [v] in a variable that holds [x] and returns its new
    content with the first mismatch met, if any. *)

Class Decoder (T : Type) := decode : value -> T -> T * option error.

Global Hint Mode Decoder ! : typeclass_instances.

Definition kind (v : value) : string :=
  match v with
  | JNull => "null"
  | JBool _ => "bool"
  | JNumber _ => "number"
  | JString _ => "string"
  | JArray _ => "array"
  | JObject _ => "object"
  end.

Definition first_error (saved new : option error) : option error :=
  match saved with
  | Some _ => saved
  | None => new
  end.

(** [foldName]: the key under which a name is looked up without regard to
    case.  ASCII letters are upper-cased; the two runes outside ASCII whose
    case orbit holds an ASCII letter, U+212A KELVIN SIGN and U+017F LATIN
    SMALL LETTER LONG S, fold to [K] and [S].  Every other rune folds to a
    rune outside ASCII and is left as it is: the field names of this program
    are ASCII, so no such key equals one of them. *)
Fixpoint foldName (s : list byte) : list byte :=
  match s with
  | [] => []
  | xe2 :: x84 :: xaa :: t => x4b :: foldName t
  | xc5 :: xbf :: t => x53 :: foldName t
  | c :: t =>
    (if (0x61 <=? b2z c) && (b2z c <=? 0x7a) then z2b (b2z c - 0x20) else c)
    :: foldName t
  end.

Definition bytes_eqb (a b : list byte) : bool :=
  bool_decide (a = b).

Definition name_matches (field key : string) : bool :=
  bytes_eqb (foldName (bytes_of key)) (foldName (bytes_of field)).

(** The field an object key designates: the one of that very name, else the
    first whose name equals it up to case. *)
Definition lookup_field {F : Type} (fields : list (string * F)) (key : string)
  : option F :=
  match List.find (fun nf => String.eqb (fst nf) key) fields with
  | Some nf => Some (snd nf)
  | None =>
    match List.find (fun nf => name_matches (fst nf) key) fields with
    | Some nf => Some (snd nf)
    | None => None
    end
  end.

Definition store_member {T : Type}
           (fields : list (string * (value -> T -> T * option error)))
           (acc : T * option error) (kv : string * value) : T * option error :=
  match lookup_field fields (fst kv) with
  | None => acc
  | Some store =>
    let '(x, e) := store (snd kv) (fst acc) in
    (x, first_error (snd acc) e)
  end.

(** A struct target: [null] leaves it alone, an object stores each member
    whose key designates a field and skips the others, anything else is a
    mismatch. *)
Definition decode_struct {T : Type} (type_name : string)
           (fields : list (string * (value -> T -> T * option error)))
           (v : value) (x : T) : T * option error :=
  match v with
  | JNull => (x, None)
  | JObject members => fold_left (store_member fields) members (x, None)
  | _ => (x, Some (UnmarshalTypeError (kind v) type_name))
  end.

#[global] Instance decode_string : Decoder string := fun v x =>
  match v with
  | JNull => (x, None)
  | JString s => (s, None)
  | _ => (x, Some (UnmarshalTypeError (kind v) "string"))
  end.

#[global] Instance decode_float64 : Decoder float64 := fun v x =>
  match v with
  | JNull => (x, None)
  | JNumber lit =>
    match strconv.ParseFloat (bytes_of lit) with
    | (f, None) => (f, None)
    | (_, Some _) => (x, Some (UnmarshalTypeError ("number " +:+ lit) "float64"))
    end
  | _ => (x, Some (UnmarshalTypeError (kind v) "float64"))
  end.

(** [json.Unmarshal(data, &x)] *)
Definition Unmarshal {T : Type} `{Decoder T} (data : string) (x : T)
  : T * option error :=
  match json.parse (bytes_of data) with
  | None => (x, Some SyntaxError)
  | Some v => decode v x
  end.

(** *** Encoding *)

Definition hex : list byte := bytes_of "0123456789abcdef".

Definition hexdigit (z : Z) : byte := nth (Z.to_nat z) hex x30.

(** [htmlSafeSet]: the ASCII bytes the encoder copies as they are. *)
Definition htmlSafe (b : byte) : bool :=
  let z := b2z b in
  (0x20 <=? z) && (z <? 0x80)
  && negb ((z =? 0x22) || (z =? 0x26) || (z =? 0x3c) || (z =? 0x3e) || (z =? 0x5c)).

Definition escape_ascii (b : byte) : list byte :=
  if htmlSafe b then [b] else
  match b with
  | x5c | x22 => [x5c; b]
  | x08 => [x5c; x62]
  | x0c => [x5c; x66]
  | x0a => [x5c; x6e]
  | x0d => [x5c; x72]
  | x09 => [x5c; x74]
  | _ =>
    [x5c; x75; x30; x30; hexdigit (Z.shiftr (b2z b) 4); hexdigit (Z.land (b2z b) 0xF)]
  end.

(** A rune of more than one byte: copied, unless it is U+2028 or U+2029. *)
Definition escape_rune (c : Z) (raw : list byte) : list byte :=
  if (c =? 0x2028) || (c =? 0x2029)
  then bytes_of "\u202" ++ [hexdigit (Z.land c 0xF)]
  else raw.

(** The text between the quotes that [appendString] writes for [src], with
    HTML escaping on, as [Encoder] has it by default. *)
Fixpoint escape (src : list byte) : list byte :=
  match src with
  | [] => []
  | b :: t =>
    if b2z b <? utf8.RuneSelf then escape_ascii b ++ escape t
    else
      let '(c, size) := utf8.DecodeRune src in
      match size, t with
      | 2%nat, b1 :: t1 => escape_rune c [b; b1] ++ escape t1
      | 3%nat, b1 :: b2 :: t2 => escape_rune c [b; b1; b2] ++ escape t2
      | 4%nat, b1 :: b2 :: b3 :: t3 => escape_rune c [b; b1; b2; b3] ++ escape t3
      | _, _ => bytes_of "\ufffd" ++ escape t
      end
  end.

Definition appendString (src : string) : list byte :=
  x22 :: escape (bytes_of src) ++ [x22].

Definition f64_1e_6 : float64 := strconv.float64_of_decimal false 1 (-6).

Definition f64_1e21 : float64 := strconv.float64_of_decimal false 1 21.

(** [e-09] becomes [e-9]. *)
Definition clean_exponent (b : list byte) : list byte :=
  match rev b with
  | d :: x30 :: s :: x65 :: r =>
    match s with
    | x2d | x2b => rev (d :: s :: x65 :: r)
    | _ => b
    end
  | _ => b
  end.

Class Encoder (T : Type) := encode : T -> list byte + error.

Global Hint Mode Encoder ! : typeclass_instances.

#[global] Instance encode_string : Encoder string := fun s => inl (appendString s).

(** [floatEncoder]: as the ES6 number-to-string conversion. *)
#[global] Instance encode_float64 : Encoder float64 := fun f =>
  if IsInf f || IsNaN f
  then inr (UnsupportedValueError (string_of (strconv.FormatFloat f true)))
  else
    let abs := SFabs f in
    let exponent_form :=
      negb (SFeqb abs float64_zero) && (SFltb abs f64_1e_6 || SFleb f64_1e21 abs) in
    let b := strconv.FormatFloat f exponent_form in
    inl (if exponent_form then clean_exponent b else b).

(** [json.NewEncoder(w).Encode(v)] produces the encoding of [v] followed by a
    line feed, or nothing at all when [v] cannot be encoded. *)
Definition nl : string := String "010" "".

Definition EncodeLine {T : Type} `{Encoder T} (v : T) : string + error :=
  match encode v with
  | inl b => inl (string_of b +:+ nl)
  | inr e => inr e
  end.

(** ** [strings.SplitN] and [fmt.Sprintf] *)

Module Strings.

(** [strings.Index]: where [sep] first occurs in [s]. *)
Definition Index (s sep : string) : option nat := String.index 0 sep s.

(** The slices [s[:i]] and [s[i:]]. *)
Definition slice_to (s : string) (i : nat) : string := String.substring 0 i s.
Definition slice_from (s : string) (i : nat) : string :=
  String.substring i (String.length s - i) s.

(** The loop of [genSplit]: at most [k] cuts. *)
Fixpoint split_loop (k : nat) (s sep : string) : list string :=
  match k with
  | O => [s]
  | S k' =>
    match Index s sep with
    | None => [s]
    | Some m =>
      slice_to s m :: split_loop k' (slice_from s (m + String.length sep)) sep
    end
  end.

(** [strings.Count] for a separator that is not empty. *)
Fixpoint count_loop (fuel : nat) (s sep : string) : Z :=
  match fuel with
  | O => 0
  | S fuel' =>
    match Index s sep with
    | None => 0
    | Some m => 1 + count_loop fuel' (slice_from s (m + String.length sep)) sep
    end
  end.

Definition Count (s sep : string) : Z := count_loop (String.length s) s sep.

(** [explode]: the split on the empty separator, one UTF-8 sequence per
    piece, the rest of the text in the last one. *)
Fixpoint rune_count (fuel : nat) (p : list byte) : Z :=
  match fuel, p with
  | S fuel', _ :: _ => 1 + rune_count fuel' (drop (snd (utf8.DecodeRune p)) p)
  | _, _ => 0
  end.

Fixpoint explode_loop (k : nat) (p : list byte) : list string :=
  match k with
  | O => [string_of p]
  | S k' =>
    let size := snd (utf8.DecodeRune p) in
    string_of (take size p) :: explode_loop k' (drop size p)
  end.

Definition explode (s : string) (n : Z) : list string :=
  let p := bytes_of s in
  let l := rune_count (length p) p in
  let n := if (n <? 0) || (l <? n) then l else n in
  if 0 <? n then explode_loop (Z.to_nat (n - 1)) p else [].

(** [strings.SplitN(s, sep, n)] *)
Definition SplitN (s sep : string) (n : Z) : list string :=
  if n =? 0 then []
  else if String.eqb sep "" then explode s n
  else
    let n := if n <? 0 then Count s sep + 1 else n in
    let n := if Z.of_nat (String.length s) + 1 <? n
             then Z.of_nat (String.length s) + 1 else n in
    split_loop (Z.to_nat (n - 1)) s sep.

End Strings.

(** [fmt.Sprintf] for string operands: [%s] takes the next operand as it is,
    [%%] is a percent sign.  A verb without an operand and operands without
    a verb are reported in the output, as [fmt] does; other verbs are not
    interpreted. *)
Fixpoint sprintf_extra (args : list string) : string :=
  match args with
  | [] => ""
  | [a] => "string=" +:+ a
  | a :: rest => "string=" +:+ a +:+ ", " +:+ sprintf_extra rest
  end.

Fixpoint sprintf_loop (format : string) (args : list string) : string :=
  match format with
  | String "%" (String "s" t) =>
    match args with
    | a :: args' => a +:+ sprintf_loop t args'
    | [] => "%!s(MISSING)" +:+ sprintf_loop t []
    end
  | String "%" (String "%" t) => String "%" (sprintf_loop t args)
  | String "%" "" => "%!(NOVERB)"
  | String c t => String c (sprintf_loop t args)
  | "" =>
    match args with
    | [] => ""
    | _ => "%!(EXTRA " +:+ sprintf_extra args +:+ ")"
    end
  end.

Definition Sprintf (format : string) (args : list string) : string :=
  sprintf_loop format args.

(** ** The world and the effects of the program

    The file system and the network answer the program's calls; they are a
    parameter of every function that performs I/O.  A [Response] is what
    [http.Get] hands back when it succeeds: the status line has been read,
    the body is still to be read with [io.ReadAll]. *)

Inductive result (A : Type) :=
| Ok (a : A)
| Err (e : error).

Arguments Ok {A} a.

Arguments Err {A} e.

Record Response := {
  StatusCode : Z;
  Body : result string
}.

Record World := {
  ReadFile : string -> result string;
  Get : string -> result Response
}.

(** What the program does to the outside, in order. *)
Inductive event :=
| EvReadFile (name : string)
| EvStdout (text : string)
| EvGet (url : string)
| EvReadBody
| EvCloseBody.

#[global] Instance event_eq_dec : EqDecision event.
Proof. solve_decision. Defined.

(** A computation with effects: it extends the trace of events. *)
Definition IO (A : Type) : Type := list event -> A * list event.

Definition ret {A : Type} (a : A) : IO A := fun t => (a, t).

Definition bind {A B : Type} (m : IO A) (k : A -> IO B) : IO B :=
  fun t => let '(a, t') := m t in k a t'.

Definition emit (ev : event) : IO unit := fun t => (tt, t ++ [ev]).

Notation "x <- m ;; k" := (bind m (fun x => k))
  (at level 100, m at next level, right associativity).

Notation "m ;; k" := (bind m (fun _ => k))
  (at level 100, right associativity).

Definition run {A : Type} (m : IO A) : A * list event := m [].

Definition os_ReadFile (W : World) (name : string) : IO (result string) :=
  emit (EvReadFile name) ;; ret (ReadFile W name).

Definition http_Get (W : World) (url : string) : IO (result Response) :=
  emit (EvGet url) ;; ret (Get W url).

Definition io_ReadAll (resp : Response) : IO (result string) :=
  emit EvReadBody ;; ret (Body resp).

Definition Body_Close : IO unit := emit EvCloseBody.

(** [fmt.Println]: the operands separated by spaces, then a line feed. *)
Fixpoint join_spaces (l : list string) : string :=
  match l with
  | [] => ""
  | [a] => a
  | a :: rest => a +:+ " " +:+ join_spaces rest
  end.

Definition Println (operands : list string) : IO unit :=
  emit (EvStdout (join_spaces operands +:+ nl)).

(** ** The data of the program *)

Record apiConfigData := { OpenWeatherMapApiKey : string }.

(** The anonymous struct of the field [Main]. *)
Record mainData := { Kelvin : float64 }.

Record weatherData := { Name : string; Main : mainData }.

(** The zero values [apiConfigData{}] and [weatherData{}]. *)
Definition apiConfigData_zero : apiConfigData := {| OpenWeatherMapApiKey := "" |}.

Definition mainData_zero : mainData := {| Kelvin := float64_zero |}.

Definition weatherData_zero : weatherData := {| Name := ""; Main := mainData_zero |}.

(** The struct tags: which JSON member goes to which field. *)
Definition on_field {T F : Type} `{Decoder F} (get : T -> F) (set : F -> T -> T)
  : value -> T -> T * option error :=
  fun v x => let '(y, e) := decode v (get x) in (set y x, e).

Definition mainData_type : string := q "struct { Kelvin float64 'json:\'temp\'' }".

#[global] Instance decode_apiConfigData : Decoder apiConfigData :=
  decode_struct "main.apiConfigData"
    [("OpenWeatherMapApiKey",
      on_field OpenWeatherMapApiKey (fun k _ => {| OpenWeatherMapApiKey := k |}))].

#[global] Instance decode_mainData : Decoder mainData :=
  decode_struct mainData_type
    [("temp", on_field Kelvin (fun k _ => {| Kelvin := k |}))].

#[global] Instance decode_weatherData : Decoder weatherData :=
  decode_struct "main.weatherData"
    [("name", on_field Name (fun n d => {| Name := n; Main := Main d |}));
     ("main", on_field Main (fun m d => {| Name := Name d; Main := m |}))].

(** The fixed parts of the encoding of a record. *)
Definition name_key : list byte := bytes_of (q "{'name':").

Definition main_key : list byte := bytes_of (q ",'main':").

Definition temp_key : list byte := bytes_of (q "{'temp':").

#[global] Instance encode_mainData : Encoder mainData := fun m =>
  match encode (Kelvin m) with
  | inl t => inl (temp_key ++ t ++ [x7d])
  | inr e => inr e
  end.

#[global] Instance encode_weatherData : Encoder weatherData := fun d =>
  match encode (Name d), encode (Main d) with
  | inl n, inl m => inl (name_key ++ n ++ main_key ++ m ++ [x7d])
  | inr e, _ => inr e
  | _, inr e => inr e
  end.

Definition temp (s : string) : mainData := {| Kelvin := f64 s |}.

(** ** [net/http]: the response writer

    What a handler has told the server so far: the header map, the status
    once it has been sent, the body written.  The first [Write] sends the
    status 200 if none was sent before; a second [WriteHeader] is ignored. *)

Record ResponseWriter := {
  header : gmap string (list string);
  status : option Z;
  body : string
}.

Definition newResponse : ResponseWriter :=
  {| header := ∅; status := None; body := "" |}.

Definition Header_Set (k v : string) (w : ResponseWriter) : ResponseWriter :=
  {| header := <[k := [v]]> (header w); status := status w; body := body w |}.

Definition Header_Del (k : string) (w : ResponseWriter) : ResponseWriter :=
  {| header := delete k (header w); status := status w; body := body w |}.

Definition WriteHeader (code : Z) (w : ResponseWriter) : ResponseWriter :=
  match status w with
  | Some _ => w
  | None => {| header := header w; status := Some code; body := body w |}
  end.

Definition Write (data : string) (w : ResponseWriter) : ResponseWriter :=
  let w := WriteHeader 200 w in
  {| header := header w; status := status w; body := body w +:+ data |}.

Definition StatusBadRequest : Z := 400.

Definition StatusInternalServerError : Z := 500.

(** [http.Error]: a plain text reply with the given status, the message
    followed by a line feed. *)
Definition http_Error (w : ResponseWriter) (msg : string) (code : Z) : ResponseWriter :=
  let w := Header_Del "Content-Length" w in
  let w := Header_Set "Content-Type" "text/plain; charset=utf-8" w in
  let w := Header_Set "X-Content-Type-Options" "nosniff" w in
  let w := WriteHeader code w in
  Write (msg +:+ nl) w.

(** [json.NewEncoder(w).Encode(v)]: one [Write] of the encoded line, or no
    write and an error. *)
Definition Encode {T : Type} `{Encoder T} (w : ResponseWriter) (v : T)
  : ResponseWriter * option error :=
  match EncodeLine v with
  | inl line => (Write line w, None)
  | inr e => (w, Some e)
  end.

Record Request := { Path : string }.

(** ** The program: [main.go] *)

(** [loadApiConfig]: lines 32-59. *)
Definition loadApiConfig (W : World) (filename : string)
  : IO (apiConfigData * option error) :=
  r <- os_ReadFile W filename ;;
  match r with
  | Err err => ret (apiConfigData_zero, Some err)
  | Ok bytes =>
    let c := apiConfigData_zero in
    let '(c, err) := Unmarshal bytes c in
    match err with
    | Some err => ret (apiConfigData_zero, Some err)
    | None => ret (c, None)
    end
  end.

(** [hello]: lines 61-63. *)
Definition hello (w : ResponseWriter) (r : Request) : IO ResponseWriter :=
  ret (Write ("Hello from go!" +:+ nl) w).

Definition url_format : string :=
  "https://api.openweathermap.org/data/2.5/weather?q=%s&appid=%s&units=metric".

(** [query]: lines 65-100.  The deferred [resp.Body.Close()] runs on every
    return that follows the successful [http.Get]. *)
Definition query (W : World) (city : string) : IO (weatherData * option error) :=
  cfg <- loadApiConfig W ".apiConfig" ;;
  let '(apiConfig, err) := cfg in
  match err with
  | Some err => ret (weatherData_zero, Some err)
  | None =>
    let url := Sprintf url_format [city; OpenWeatherMapApiKey apiConfig] in
    Println ["Requesting URL:"; url] ;;
    r <- http_Get W url ;;
    match r with
    | Err err => ret (weatherData_zero, Some err)
    | Ok resp =>
      b <- io_ReadAll resp ;;
      match b with
      | Err err => Body_Close ;; ret (weatherData_zero, Some err)
      | Ok body =>
        Println [body] ;;
        let d := weatherData_zero in
        let '(d, err) := Unmarshal body d in
        match err with
        | Some err => Body_Close ;; ret (weatherData_zero, Some err)
        | None => Body_Close ;; ret (d, None)
        end
      end
    end
  end.

(** Lines 124-131: what the handler does once it has the city. *)
Definition serveCity (W : World) (w : ResponseWriter) (city : string)
  : IO ResponseWriter :=
  res <- query W city ;;
  let '(data, err) := res in
  match err with
  | Some err => ret (http_Error w (Error err) StatusInternalServerError)
  | None =>
    let w := Header_Set "Content-Type" "application/json; charset=utf8" w in
    ret (fst (Encode w data))
  end.

(** The function literal that [main] registers on [/weather/]:
    lines 116-132.  [parts[2]] is in range once the guard has passed. *)
Definition weatherHandler (W : World) (w : ResponseWriter) (r : Request)
  : IO ResponseWriter :=
  let parts := Strings.SplitN (Path r) "/" 3 in
  if (length parts <? 3)%nat then
    ret (http_Error w "City not specified" StatusBadRequest)
  else
    match parts !! 2%nat with
    | None => ret w
    | Some city => serveCity W w city
    end.

(** What the server does with a handler: a fresh response writer, and the
    status 200 if the handler never sent one. *)
Definition serve (h : ResponseWriter -> Request -> IO ResponseWriter) (path : string)
  : ResponseWriter * list event :=
  run (h newResponse {| Path := path |}).

Definition final_status (w : ResponseWriter) : Z := default 200 (status w).

(** [main]: lines 102-135.  The patterns that [main] registers on the
    default mux, with their handlers.  A pattern that ends with a slash
    stands for every path that starts with it, another pattern for its own
    path only; the mux answers a path without handler by itself, and
    redirects [/weather] to [/weather/]. *)
Definition Handler : Type := ResponseWriter -> Request -> IO ResponseWriter.

Definition main (W : World) : list (string * Handler) :=
  [("/hello", hello); ("/weather/", weatherHandler W)].

Fixpoint ends_with_slash (pattern : string) : bool :=
  match pattern with
  | "" => false
  | String c "" => Ascii.eqb c "/"
  | String _ rest => ends_with_slash rest
  end.

Definition pattern_matches (pattern path : string) : bool :=
  if ends_with_slash pattern then String.prefix pattern path
  else String.eqb pattern path.

(** The handler of the first pattern that matches. *)
Definition route (routes : list (string * Handler)) (path : string) : option Handler :=
  option_map snd (List.find (fun ph => pattern_matches (fst ph) path) routes).

(** ** [path]: [Clean] *)

Module path.

(** [Clean] writes into a buffer of which [w] bytes count.  Going back over
    the last element: the loop that lowers [w] down to a slash, or to
    [dotdot]. *)
Fixpoint backtrack (out : list byte) (dotdot w : nat) : nat :=
  match w with
  | O => O
  | S w' =>
    if (dotdot <? w)%nat && negb (bool_decide (out !! w = Some x2f))
    then backtrack out dotdot w'
    else w
  end.

(** The bytes of an element, up to the next slash, and what follows. *)
Fixpoint copy_element (s : list byte) : list byte * list byte :=
  match s with
  | [] => ([], [])
  | c :: t =>
    if bool_decide (c = x2f) then ([], s)
    else let '(el, rest) := copy_element t in (c :: el, rest)
  end.

Definition at_end (s : list byte) : bool :=
  match s with
  | [] => true
  | c :: _ => bool_decide (c = x2f)
  end.

(** The loop of [Clean]: [s] is what is left to read, [out] what is written;
    every turn reads a byte at least. *)
Fixpoint clean_loop (fuel : nat) (rooted : bool) (s out : list byte) (dotdot : nat)
  : list byte :=
  match fuel with
  | O => out
  | S fuel =>
    match s with
    | [] => out
    | c :: s1 =>
      if bool_decide (c = x2f) then clean_loop fuel rooted s1 out dotdot
      else if bool_decide (c = x2e) && at_end s1 then
        clean_loop fuel rooted s1 out dotdot
      else if bool_decide (c = x2e) && bool_decide (head s1 = Some x2e)
              && at_end (tail s1) then
        let s2 := tail s1 in
        if (dotdot <? length out)%nat then
          let w := backtrack out dotdot (length out - 1) in
          clean_loop fuel rooted s2 (take w out) dotdot
        else if negb rooted then
          let out := if (0 <? length out)%nat then out ++ [x2f] else out in
          let out := out ++ [x2e; x2e] in
          clean_loop fuel rooted s2 out (length out)
        else clean_loop fuel rooted s2 out dotdot
      else
        let out :=
          if (rooted && negb (length out =? 1)%nat)
             || (negb rooted && negb (length out =? 0)%nat)
          then out ++ [x2f] else out in
        let '(el, rest) := copy_element s in
        clean_loop fuel rooted rest (out ++ el) dotdot
    end
  end.

Definition Clean (p : string) : string :=
  match bytes_of p with
  | [] => "."
  | c :: t =>
    let rooted := bool_decide (c = x2f) in
    let out :=
      if rooted then clean_loop (length t) true t [x2f] 1
      else clean_loop (S (length t)) false (c :: t) [] 0 in
    match out with
    | [] => "."
    | _ => string_of out
    end
  end.

End path.

(** ** [net/http]: the paths the mux answers *)

(** [cleanPath]: the canonical form of a request path, the closing slash
    kept. *)
Definition cleanPath (p : string) : string :=
  match p with
  | "" => "/"
  | String c _ =>
    let p := if Ascii.eqb c "/" then p else "/" +:+ p in
    let np := path.Clean p in
    if ends_with_slash p && negb (String.eqb np "/") then
      if (String.length p =? String.length np + 1)%nat && String.prefix np p
      then p else np +:+ "/"
    else np
  end.

(** What the mux does with a request: it hands it to a handler, or answers
    it by itself with a redirection or with 404. *)
Inductive answer :=
| Dispatch (h : Handler)
| MovedPermanently (location : string)
| NotFound.

Definition registered (routes : list (string * Handler)) (pattern : string) : bool :=
  existsb (fun ph => String.eqb (fst ph) pattern) routes.

(** A path [/tree] without handler goes to [/tree/] when that is a
    pattern. *)
Definition shouldRedirect (routes : list (string * Handler)) (p : string) : bool :=
  negb (registered routes p) && registered routes (p +:+ "/")
  && negb (ends_with_slash p).

(** [ServeMux.Handler], for a request whose path is sent as it is, without
    percent escapes: the path is cleaned first, and a request whose path is
    not clean is redirected to the clean one. *)
Definition ServeMux_Handler (routes : list (string * Handler)) (p : string) : answer :=
  let cp := cleanPath p in
  if shouldRedirect routes cp then MovedPermanently (cp +:+ "/")
  else if negb (String.eqb cp p) then MovedPermanently cp
  else
    match route routes p with
    | Some h => Dispatch h
    | None => NotFound
    end.

(** *** Worlds for the examples *)

Definition no_such_file (name : string) : error :=
  ExternalError ("open " +:+ name +:+ ": no such file or directory").

(** A world with a credentials file holding [config] and an upstream that
    answers every request with [code] and [reply]. *)
Definition world (config : string) (code : Z) (reply : string) : World :=
  {| ReadFile := fun name =>
       if String.eqb name ".apiConfig" then Ok config else Err (no_such_file name);
     Get := fun _ => Ok {| StatusCode := code; Body := Ok reply |} |}.

Definition config_ok : string := q "{'OpenWeatherMapApiKey':'k3y'}".

(** ** The vocabulary of the statements

    What the properties below talk about: views of a run, the JSON values
    a target accepts, and the worlds, files and records of the examples. *)

(** *** Views of a run *)

(** The URLs of the outbound requests of a trace. *)
Definition requests (t : list event) : list string :=
  omap (fun ev => match ev with EvGet url => Some url | _ => None end) t.

(** The line that [query] prints before the request goes out. *)
Definition requesting (url : string) : event :=
  EvStdout ("Requesting URL: " +:+ url +:+ nl).

(** What [loadApiConfig] returns, by the answer of the file system. *)
Definition loadApiConfig_result (W : World) (filename : string)
  : apiConfigData * option error :=
  match ReadFile W filename with
  | Err err => (apiConfigData_zero, Some err)
  | Ok bytes =>
    match Unmarshal bytes apiConfigData_zero with
    | (c, None) => (c, None)
    | (_, Some err) => (apiConfigData_zero, Some err)
    end
  end.

(** The URL written with concatenation, to compare [Sprintf] with. *)
Definition request_url (city key : string) : string :=
  "https://api.openweathermap.org/data/2.5/weather?q=" +:+ city
  +:+ "&appid=" +:+ key +:+ "&units=metric".

(** What [query] returns once the body of the reply has been read. *)
Definition decode_reply (body : string) : weatherData * option error :=
  match Unmarshal body weatherData_zero with
  | (d, None) => (d, None)
  | (_, Some err) => (weatherData_zero, Some err)
  end.

(** The same world with the status code of every reply changed by [f]. *)
Definition with_status (f : Z -> Z) (W : World) : World :=
  {| ReadFile := ReadFile W;
     Get := fun url =>
       match Get W url with
       | Ok resp => Ok {| StatusCode := f (StatusCode resp); Body := Body resp |}
       | Err e => Err e
       end |}.

Definition finite (f : float64) : Prop := IsInf f = false /\ IsNaN f = false.

(** *** The JSON values a target accepts *)

Definition accepts_string (v : value) : bool :=
  match v with
  | JNull | JString _ => true
  | _ => false
  end.

(** A number is accepted when [float64] can hold it. *)
Definition accepts_float64 (v : value) : bool :=
  match v with
  | JNull => true
  | JNumber lit =>
    match snd (strconv.ParseFloat (bytes_of lit)) with
    | None => true
    | Some _ => false
    end
  | _ => false
  end.

(** A struct accepts [null], and an object each of whose members is fine
    with [ok]; [ok] looks at the name of the member and at its value. *)
Definition members_ok (ok : string -> value -> bool) (v : value) : bool :=
  match v with
  | JNull => true
  | JObject members => forallb (fun kv => ok (fst kv) (snd kv)) members
  | _ => false
  end.

Definition accepts_mainData : value -> bool :=
  members_ok (fun k v => if name_matches "temp" k then accepts_float64 v else true).

Definition accepts_weatherData : value -> bool :=
  members_ok (fun k v =>
                if name_matches "name" k then accepts_string v
                else if name_matches "main" k then accepts_mainData v
                else true).

Definition accepts_apiConfigData : value -> bool :=
  members_ok (fun k v =>
                if name_matches "OpenWeatherMapApiKey" k then accepts_string v
                else true).

(** The member of an object that a field name designates, if there is one. *)
Definition member (field : string) (v : value) : option value :=
  match v with
  | JObject members =>
    option_map snd (List.find (fun kv => name_matches field (fst kv)) members)
  | _ => None
  end.

(** A payload with a name and a nested temperature. *)
Definition has_name_and_temp (body : string) : bool :=
  match json.parse (bytes_of body) with
  | Some v =>
    match member "name" v, member "main" v with
    | Some _, Some m => bool_decide (is_Some (member "temp" m))
    | _, _ => false
    end
  | None => false
  end.

(** No member of the object is taken for [field]. *)
Definition no_member (field : string) (members : list (string * value)) : Prop :=
  forall k v, In (k, v) members -> name_matches field k = false.

(** Every member of the object that is taken for [field] holds [null]; so it
    is when there is no such member. *)
Definition only_null (field : string) (members : list (string * value)) : Prop :=
  forall k v, In (k, v) members -> name_matches field k = true -> v = JNull.

(** A value for [main] that brings no temperature: [null], or an object
    whose members named [temp], if any, hold [null]; [{}] is one. *)
Definition without_temp (v : value) : Prop :=
  match v with
  | JNull => True
  | JObject members => only_null "temp" members
  | _ => False
  end.

(** No member named [main] of the object brings a temperature. *)
Definition no_temperature (members : list (string * value)) : Prop :=
  forall k v, In (k, v) members -> name_matches "main" k = true -> without_temp v.

Definition key_field : string := "OpenWeatherMapApiKey".

(** The text the encoder writes for a float64 is read back as a number
    that is equal to it. *)
Definition reads_back (k : float64) : Prop :=
  exists num,
    encode k = inl num
    /\ (forall rest, scan_number (num ++ x7d :: rest) = Some (num, x7d :: rest))
    /\ strconv.ParseFloat num = (k, None).

(** *** The descent of the parser *)

Definition enough_fuel (fuel : nat) (s : list byte) (extra : nat) : Prop :=
  (2 * length s + extra < fuel)%nat.

(** What every call of the descent guarantees: with enough fuel it does not
    run out, and what it leaves is shorter than what it was given. *)
Definition parser_ok {A : Type} (extra : nat)
           (p : nat -> Z -> list byte -> presult A) (fuel : nat) : Prop :=
  forall depth s,
    (enough_fuel fuel s extra -> p fuel depth s <> PFuel)
    /\ (forall a r, p fuel depth s = POk a r -> (length r < length s)%nat).

(** What [parse_members] does with the value of a member once it has it. *)
Definition after_member (f : nat) (depth : Z) (k : string) (res : presult value)
  : presult (list (string * value)) :=
  match res with
  | POk v r2 =>
    match skip_ws r2 with
    | c :: r3 =>
      if Byte.eqb c x2c then
        match parse_members f depth r3 with
        | POk kvs r4 => POk ((k, v) :: kvs) r4
        | PErr => PErr
        | PFuel => PFuel
        end
      else if Byte.eqb c x7d then POk [(k, v)] r3
      else PErr
    | [] => PErr
    end
  | PErr => PErr
  | PFuel => PFuel
  end.

(** *** Texts and traces *)

(** [strings.Join]: the elements with the separator between them. *)
Fixpoint Join (elems : list string) (sep : string) : string :=
  match elems with
  | [] => ""
  | [a] => a
  | a :: rest => a +:+ sep +:+ Join rest sep
  end.

(** How often an event occurs in a trace. *)
Definition occurrences (ev : event) (t : list event) : nat :=
  length (List.filter (fun e => bool_decide (e = ev)) t).

(** A string value holds valid UTF-8; the member values of an object do. *)
Definition valid_string (v : value) : Prop :=
  match v with
  | JString s => utf8.Valid (bytes_of s) = true
  | _ => True
  end.

Definition valid_members (v : value) : Prop :=
  match v with
  | JObject ms => Forall (fun kv => valid_string (snd kv)) ms
  | _ => True
  end.

(** A byte that is no control byte and none of [<], [>], [&]. *)
Definition html_safe_byte (b : byte) : bool :=
  (0x20 <=? b2z b)
  && negb ((b2z b =? 0x26) || (b2z b =? 0x3c) || (b2z b =? 0x3e)).

(** An ASCII byte. *)
Definition low_byte (b : byte) : bool := b2z b <? 0x80.

(** What may follow a run of digits: nothing, or a byte that is no digit. *)
Definition no_digit_ahead (s : list byte) : Prop :=
  match s with
  | [] => True
  | c :: _ => strconv.is_digit c = false
  end.

(** A Unicode scalar value: a code point that is no surrogate half. *)
Definition scalar (r : Z) : Prop :=
  0 <= r <= utf8.MaxRune /\ ~ (utf8.surrogateMin <= r <= utf8.surrogateMax).

(** The encoding of a sequence of runes. *)
Definition encode_runes (rs : list Z) : list byte := concat (map utf8.EncodeRune rs).

(** The members of a reply that the [weatherData] shape looks at. *)
Definition weather_member (kv : string * value) : bool :=
  name_matches "name" (fst kv) || name_matches "main" (fst kv).

(** What follows is nothing, or starts with white space. *)
Definition ws_ahead (X : list byte) : Prop :=
  match X with
  | [] => True
  | c :: _ => isSpace c = true
  end.

(** A parser reads the same whatever text [X] follows its input. *)
Definition extends {A : Type} (X : list byte)
           (p : nat -> Z -> list byte -> presult A) (fuel : nat) : Prop :=
  forall depth s a r, p fuel depth s = POk a r -> p fuel depth (s ++ X) = POk a (r ++ X).

(** More fuel does not change what a parser has found. *)
Definition monotone {A : Type}
           (p : nat -> Z -> list byte -> presult A) (fuel : nat) : Prop :=
  forall fuel' depth s a r,
    (fuel <= fuel')%nat -> p fuel depth s = POk a r -> p fuel' depth s = POk a r.

(** *** Worlds, files and records of the examples *)

Definition world_without_config : World :=
  {| ReadFile := fun name => Err (no_such_file name);
     Get := fun _ => Ok {| StatusCode := 200; Body := Ok "{}" |} |}.

Definition body_name_only : string := q "{'name':'London'}".

Definition body_main_empty : string := q "{'name':'London','main':{}}".

Definition body_main_null : string := q "{'name':'London','main':null}".

Definition body_other_main : string := q "{'name':'London','main':{'humidity':40}}".

Definition body_service_unavailable : string := q "'Service Unavailable'".

Definition body_not_found : string := q "{'cod':'404','message':'city not found'}".

Definition config_case_variant : string :=
  q "{'OpenWeatherMapApiKey':'k3y','OPENWEATHERMAPAPIKEY':'other'}".

Definition config_case_variant_number : string :=
  q "{'OpenWeatherMapApiKey':'k3y','openweathermapapikey':7}".

Definition config_with_extras : string :=
  q "{'comment':['rotate monthly'],'openWeatherMapApiKey':null,'OpenWeatherMapApiKey':'k3y','OpenWeatherMapApiUrl':7}".

(** A name that is not UTF-8, and the name the encoder makes of it. *)
Definition record_invalid_name : weatherData :=
  {| Name := string_of [x4c; xff]; Main := temp "21.5" |}.

Definition record_coerced_name : weatherData :=
  {| Name := string_of [x4c; xef; xbf; xbd]; Main := temp "21.5" |}.

Definition record_nan : weatherData :=
  {| Name := "London"; Main := {| Kelvin := S754_nan |} |}.

Definition record_Zurich : weatherData :=
  {| Name := string_of [x5a; xc3; xbc; x72; x69; x63; x68]; Main := temp "21.5" |}.

(** * Properties *)

(** ** The library functions on examples *)

Example utf8_decode_euro :
  utf8.DecodeRune [xe2; x82; xac; x41] = (0x20AC, 3%nat).
Proof. reflexivity. Qed.

Example utf8_encode_euro : utf8.EncodeRune 0x20AC = [xe2; x82; xac].
Proof. reflexivity. Qed.

Example utf8_decode_overlong : utf8.DecodeRune [xc0; x80] = (utf8.RuneError, 1%nat).
Proof. reflexivity. Qed.

Example utf8_decode_surrogate :
  utf8.DecodeRune [xed; xa0; x80] = (utf8.RuneError, 1%nat).
Proof. reflexivity. Qed.

Example utf8_valid_examples :
  utf8.Valid (bytes_of "London") = true
  /\ utf8.Valid [xe2; x82; xac] = true
  /\ utf8.Valid [xff] = false
  /\ utf8.Valid [xe2; x82] = false.
Proof. repeat split; reflexivity. Qed.

Example ParseFloat_tenth :
  strconv.ParseFloat (bytes_of "0.1") = (S754_finite false 7205759403792794 (-56), None).
Proof. vm_compute. reflexivity. Qed.

Example ParseFloat_examples :
  f64 "21.5" = S754_finite false 6051711999279104 (-48)
  /\ f64 "-0" = S754_zero true
  /\ f64 "1e-400" = S754_zero false
  /\ f64 "5e-324" = S754_finite false 1 (-1074)
  /\ f64 "1.7976931348623157e308" = S754_finite false 9007199254740991 971
  /\ strconv.ParseFloat (bytes_of "1e999") = (S754_infinity false, Some strconv.ErrRange)
  /\ strconv.ParseFloat (bytes_of "-1.7976931348623159e308")
     = (S754_infinity true, Some strconv.ErrRange)
  /\ f64 "9007199254740993" = S754_finite false 4503599627370496 1
  /\ f64 "2.2250738585072014e-308" = S754_finite false 4503599627370496 (-1074).
Proof. vm_compute. repeat split. Qed.

Example FormatFloat_f_examples :
  fmt_f "0.1" = "0.1" /\ fmt_f "21.50" = "21.5" /\ fmt_f "100" = "100"
  /\ fmt_f "0.30000000000000004" = "0.30000000000000004"
  /\ fmt_f "0.3333333333333333333333" = "0.3333333333333333"
  /\ fmt_f "0.6666666666666666666666" = "0.6666666666666666"
  /\ fmt_f "9007199254740993" = "9007199254740992"
  /\ fmt_f "1e20" = "100000000000000000000"
  /\ fmt_f "0.000001" = "0.000001"
  /\ fmt_f "-273.15" = "-273.15"
  /\ fmt_f "0" = "0" /\ fmt_f "-0.0" = "-0"
  /\ fmt_f "123456789012345678" = "123456789012345680".
Proof. vm_compute. repeat split. Qed.

Example FormatFloat_e_examples :
  fmt_e "1e21" = "1e+21" /\ fmt_e "1e23" = "1e+23"
  /\ fmt_e "0.0000001" = "1e-07"
  /\ fmt_e "5e-324" = "5e-324" /\ fmt_e "1e-323" = "1e-323"
  /\ fmt_e "1.7976931348623157e308" = "1.7976931348623157e+308"
  /\ fmt_e "2.2250738585072014e-308" = "2.2250738585072014e-308"
  /\ fmt_e "123456789e15" = "1.23456789e+23".
Proof. vm_compute. repeat split. Qed.

Example parse_examples :
  parse_text "{'name':'London','main':{'temp':21.5}}"
  = Some (JObject [("name", JString "London");
                   ("main", JObject [("temp", JNumber "21.5")])])
  /\ parse_text " { } " = Some (JObject [])
  /\ parse_text "[1, -0.5e+3 ,true,false,null,[],'A\n\/']"
     = Some (JArray [JNumber "1"; JNumber "-0.5e+3"; JBool true; JBool false;
                     JNull; JArray []; JString (string_of [x41; x0a; x2f])])
  /\ json.parse (x22 :: [xf0; x9f; x98; x80] ++ bytes_of (q " \ud83d x'"))
     = Some (JString (string_of [xf0; x9f; x98; x80; x20; xef; xbf; xbd; x20; x78]))
  /\ parse_text "'\ud83d\ude00\u00e9\u20ac'"
     = Some (JString (string_of [xf0; x9f; x98; x80; xc3; xa9; xe2; x82; xac]))
  /\ parse_text "{'a':1,'a':2}" = Some (JObject [("a", JNumber "1"); ("a", JNumber "2")])
  /\ parse_text "nul" = None /\ parse_text "" = None /\ parse_text "{'a':1,}" = None
  /\ parse_text "[1,]" = None /\ parse_text "01" = None /\ parse_text "1." = None
  /\ parse_text "{} x" = None /\ parse_text "'\x'" = None /\ parse_text "{a:1}" = None
  /\ parse_text "-" = None /\ parse_text "1e" = None /\ parse_text "'abc" = None
  /\ parse_text "12" = Some (JNumber "12").
Proof. vm_compute. repeat split. Qed.

Example parse_coerces_invalid_utf8 :
  json.parse ([x22; xff; x41; x22]) = Some (JString (string_of [xef; xbf; xbd; x41])).
Proof. vm_compute. reflexivity. Qed.

Example escape_examples :
  string_of (appendString (q "a'b\c</tag>&")) = q "'a\'b\\c\u003c/tag\u003e\u0026'"
  /\ string_of (appendString (string_of [x41; x09; x01; x7f; xff; xe2; x80; xa8; xc3; xa9]))
     = q "'A\t\u0001" +:+ string_of [x7f] +:+ "\ufffd\u2028" +:+ string_of [xc3; xa9; x22].
Proof. vm_compute. repeat split. Qed.

Example encode_float64_examples :
  encode (f64 "21.5") = inl (bytes_of "21.5")
  /\ encode (f64 "0.0000001") = inl (bytes_of "1e-7")
  /\ encode (f64 "0.000001") = inl (bytes_of "0.000001")
  /\ encode (f64 "1e21") = inl (bytes_of "1e+21")
  /\ encode (f64 "999999999999999900000") = inl (bytes_of "999999999999999900000")
  /\ encode (f64 "-0") = inl (bytes_of "-0")
  /\ encode S754_nan = inr (UnsupportedValueError "NaN")
  /\ encode (S754_infinity false) = inr (UnsupportedValueError "+Inf").
Proof. vm_compute. repeat split. Qed.

Example SplitN_examples :
  Strings.SplitN "/weather/London" "/" 3 = [""; "weather"; "London"]
  /\ Strings.SplitN "/weather/a/b/c" "/" 3 = [""; "weather"; "a/b/c"]
  /\ Strings.SplitN "/weather/" "/" 3 = [""; "weather"; ""]
  /\ Strings.SplitN "/weather" "/" 3 = [""; "weather"]
  /\ Strings.SplitN "weather" "/" 3 = ["weather"]
  /\ Strings.SplitN "" "/" 3 = [""]
  /\ Strings.SplitN "a,b,c" "," (-1) = ["a"; "b"; "c"]
  /\ Strings.SplitN "a,b,c" "," 0 = []
  /\ Strings.SplitN "abc" "" 2 = ["a"; "bc"]
  /\ Strings.SplitN "a--b--c" "--" 2 = ["a"; "b--c"].
Proof. vm_compute. repeat split. Qed.

Example Unmarshal_weatherData_examples :
  Unmarshal (q "{'name':'London','main':{'temp':21.5,'humidity':40},'cod':200}") weatherData_zero
  = ({| Name := "London"; Main := temp "21.5" |}, None)
  /\ Unmarshal (q "{'NAME':'Oslo','Main':{'TEMP':-3}}") weatherData_zero
     = ({| Name := "Oslo"; Main := temp "-3" |}, None)
  /\ Unmarshal (q "{'cod':'404','message':'city not found'}") weatherData_zero
     = (weatherData_zero, None)
  /\ Unmarshal "null" weatherData_zero = (weatherData_zero, None)
  /\ Unmarshal (q "{'name':'A','name':null,'name':'B'}") weatherData_zero
     = ({| Name := "B"; Main := mainData_zero |}, None)
  /\ Unmarshal (q "{'name':7,'main':{'temp':1}}") weatherData_zero
     = ({| Name := ""; Main := temp "1" |}, Some (UnmarshalTypeError "number" "string"))
  /\ Unmarshal (q "{'main':{'temp':1e999},'name':'X'}") weatherData_zero
     = ({| Name := "X"; Main := mainData_zero |},
        Some (UnmarshalTypeError "number 1e999" "float64"))
  /\ Unmarshal "[]" weatherData_zero
     = (weatherData_zero, Some (UnmarshalTypeError "array" "main.weatherData"))
  /\ Unmarshal (q "{'name':'London'") weatherData_zero = (weatherData_zero, Some SyntaxError)
  /\ Unmarshal "<html>" weatherData_zero = (weatherData_zero, Some SyntaxError).
Proof. vm_compute. repeat split. Qed.

Example EncodeLine_weatherData_examples :
  EncodeLine {| Name := "London"; Main := temp "21.5" |}
  = inl (q "{'name':'London','main':{'temp':21.5}}" +:+ nl)
  /\ EncodeLine weatherData_zero = inl (q "{'name':'','main':{'temp':0}}" +:+ nl)
  /\ EncodeLine {| Name := "X"; Main := {| Kelvin := S754_nan |} |}
     = inr (UnsupportedValueError "NaN").
Proof. vm_compute. repeat split. Qed.

Example query_London :
  run (query (world config_ok 200
                (q "{'coord':{'lon':-0.12},'main':{'temp':11.25,'pressure':1012},'name':'London','cod':200}"))
             "London")
  = (({| Name := "London"; Main := temp "11.25" |}, None),
     [EvReadFile ".apiConfig";
      EvStdout ("Requesting URL: https://api.openweathermap.org/data/2.5/weather?q=London&appid=k3y&units=metric" +:+ nl);
      EvGet "https://api.openweathermap.org/data/2.5/weather?q=London&appid=k3y&units=metric";
      EvReadBody;
      EvStdout (q "{'coord':{'lon':-0.12},'main':{'temp':11.25,'pressure':1012},'name':'London','cod':200}" +:+ nl);
      EvCloseBody]).
Proof. vm_compute. reflexivity. Qed.

Example serve_London :
  let '(w, t) := serve (weatherHandler (world config_ok 200 (q "{'main':{'temp':11.25},'name':'London'}")))
                       "/weather/London" in
  final_status w = 200
  /\ header w !! "Content-Type" = Some ["application/json; charset=utf8"]
  /\ body w = q "{'name':'London','main':{'temp':11.25}}" +:+ nl.
Proof. vm_compute. repeat split. Qed.

Example serve_hello :
  serve hello "/hello"
  = ({| header := ∅; status := Some 200; body := "Hello from go!" +:+ nl |}, []).
Proof. vm_compute. reflexivity. Qed.

(** ** Strings and bytes *)

Lemma string_of_bytes_of (s : string) : string_of (bytes_of s) = s.
Proof. apply string_of_list_byte_of_string. Qed.

Lemma bytes_of_string_of (l : list byte) : bytes_of (string_of l) = l.
Proof. apply list_byte_of_string_of_list_byte. Qed.

Lemma substring_whole (s : string) : String.substring 0 (String.length s) s = s.
Proof. induction s as [|c s IH]; simpl; [reflexivity | now rewrite IH]. Qed.

Lemma slice_from_0 (s : string) : Strings.slice_from s 0 = s.
Proof.
  unfold Strings.slice_from. rewrite Nat.sub_0_r. apply substring_whole.
Qed.

Lemma slice_from_cons (c : ascii) (s : string) (i : nat) :
  Strings.slice_from (String c s) (S i) = Strings.slice_from s i.
Proof. reflexivity. Qed.

Lemma Index_slash_head (s : string) : Strings.Index (String "/" s) "/" = Some 0%nat.
Proof.
  unfold Strings.Index. cbn [String.index String.prefix].
  destruct (ascii_dec "/" "/"); [destruct s; reflexivity | congruence].
Qed.

Lemma Index_slash_skip (c : ascii) (s : string) :
  c <> "/"%char ->
  Strings.Index (String c s) "/" = option_map S (Strings.Index s "/").
Proof.
  intros Hc. unfold Strings.Index. cbn [String.index String.prefix].
  destruct (ascii_dec "/" c) as [Heq|_]; [congruence|].
  destruct (String.index 0 "/" s); reflexivity.
Qed.

(** The path of every request that reaches the handler starts with
    [/weather/]; such a path always splits into three parts, the last being
    everything after the second slash. *)
Lemma SplitN_weather (rest : string) :
  Strings.SplitN ("/weather/" +:+ rest) "/" 3 = [""; "weather"; rest].
Proof.
  unfold Strings.SplitN.
  change (3 =? 0) with false. change (String.eqb "/" "") with false.
  change (3 <? 0) with false. cbv iota.
  assert (Hlen : (Z.of_nat (String.length ("/weather/" +:+ rest)) + 1 <? 3) = false).
  { apply Z.ltb_ge. simpl String.length. lia. }
  rewrite Hlen. change (Z.to_nat (3 - 1)) with 2%nat.
  cbn [Strings.split_loop].
  change ("/weather/" +:+ rest) with (String "/" ("weather/" +:+ rest)).
  rewrite Index_slash_head.
  change (0 + String.length "/")%nat with 1%nat.
  rewrite slice_from_cons, slice_from_0.
  change ("weather/" +:+ rest)
    with (String "w" (String "e" (String "a" (String "t" (String "h"
           (String "e" (String "r" (String "/" rest)))))))).
  rewrite !Index_slash_skip by discriminate.
  rewrite Index_slash_head. cbn [option_map].
  change (7 + String.length "/")%nat with 8%nat.
  rewrite !slice_from_cons, slice_from_0. reflexivity.
Qed.

(** ** Running the program *)

Lemma loadApiConfig_eq (W : World) (filename : string) (t : list event) :
  loadApiConfig W filename t
  = (loadApiConfig_result W filename, t ++ [EvReadFile filename]).
Proof.
  unfold loadApiConfig, loadApiConfig_result, os_ReadFile, bind, ret, emit.
  destruct (ReadFile W filename) as [bytes|err]; [|reflexivity].
  destruct (Unmarshal bytes apiConfigData_zero) as [c [err|]]; reflexivity.
Qed.

Lemma loadApiConfig_error_zero (W : World) (filename : string)
      (c : apiConfigData) (e : error) :
  loadApiConfig_result W filename = (c, Some e) -> c = apiConfigData_zero.
Proof.
  unfold loadApiConfig_result.
  destruct (ReadFile W filename) as [bytes|err]; [|congruence].
  destruct (Unmarshal bytes apiConfigData_zero) as [c' [err|]]; congruence.
Qed.

Lemma Sprintf_url (city key : string) :
  Sprintf url_format [city; key] = request_url city key.
Proof.
  unfold Sprintf, url_format, request_url.
  cbn [sprintf_loop String.append]. reflexivity.
Qed.

(** [query], path by path: its result and the events it adds. *)
Lemma query_eq (W : World) (city : string) (t : list event) :
  query W city t =
  match loadApiConfig_result W ".apiConfig" with
  | (_, Some err) => ((weatherData_zero, Some err), t ++ [EvReadFile ".apiConfig"])
  | (cfg, None) =>
    let url := request_url city (OpenWeatherMapApiKey cfg) in
    let t1 := t ++ [EvReadFile ".apiConfig"; requesting url; EvGet url] in
    match Get W url with
    | Err err => ((weatherData_zero, Some err), t1)
    | Ok resp =>
      match Body resp with
      | Err err => ((weatherData_zero, Some err), t1 ++ [EvReadBody; EvCloseBody])
      | Ok body =>
        (decode_reply body, t1 ++ [EvReadBody; EvStdout (body +:+ nl); EvCloseBody])
      end
    end
  end.
Proof.
  unfold query, bind at 1. rewrite loadApiConfig_eq.
  destruct (loadApiConfig_result W ".apiConfig") as [cfg [err|]]; [reflexivity|].
  rewrite Sprintf_url.
  unfold bind, ret, Println, http_Get, io_ReadAll, Body_Close, emit, requesting,
    decode_reply.
  cbn [join_spaces].
  destruct (Get W _) as [resp|err]; cbn.
  - destruct (Body resp) as [body|err]; cbn.
    + destruct (Unmarshal body weatherData_zero) as [d [err|]]; cbn;
        rewrite <- !app_assoc; reflexivity.
    + rewrite <- !app_assoc. reflexivity.
  - rewrite <- !app_assoc. reflexivity.
Qed.

(** ** C9: a configuration that cannot be loaded stops [query] at once *)

(** C9.  For every city, when loading the configuration file fails with an
    error, [query] returns that very error together with the zero-valued
    [weatherData]; the only thing it has done is to read the file, so that no
    outbound request was made. *)
Theorem query_config_failure (W : World) (city : string)
        (c : apiConfigData) (e : error) :
  fst (run (loadApiConfig W ".apiConfig")) = (c, Some e) ->
  run (query W city) = ((weatherData_zero, Some e), [EvReadFile ".apiConfig"])
  /\ requests (snd (run (query W city))) = [].
Proof.
  unfold run. rewrite loadApiConfig_eq, query_eq. cbn [fst].
  intros ->. split; reflexivity.
Qed.

Lemma query_config_failure_witness :
  run (query world_without_config "London")
  = ((weatherData_zero, Some (no_such_file ".apiConfig")), [EvReadFile ".apiConfig"])
  /\ requests (snd (run (query world_without_config "London"))) = [].
Proof.
  apply (query_config_failure world_without_config "London" apiConfigData_zero).
  reflexivity.
Defined.

(** ** C7: [loadApiConfig] on a missing or malformed file *)

(** C7.  For every file name, when the file cannot be read, or when it can
    but its content is not valid JSON, [loadApiConfig] returns an error and
    the zero-valued [apiConfigData]. *)
Theorem loadApiConfig_failure (W : World) (filename : string) :
  (exists e, ReadFile W filename = Err e)
  \/ (exists data, ReadFile W filename = Ok data /\ json.Valid data = false) ->
  exists e, fst (run (loadApiConfig W filename)) = (apiConfigData_zero, Some e).
Proof.
  unfold run. rewrite loadApiConfig_eq. cbn [fst]. unfold loadApiConfig_result.
  intros [[e He] | [data [Hd Hv]]].
  - rewrite He. eauto.
  - rewrite Hd. unfold Unmarshal. unfold json.Valid in Hv.
    destruct (json.parse (bytes_of data)); [discriminate|]. eauto.
Qed.

Lemma loadApiConfig_failure_witness :
  exists e, fst (run (loadApiConfig world_without_config ".apiConfig"))
            = (apiConfigData_zero, Some e).
Proof.
  apply (loadApiConfig_failure world_without_config ".apiConfig").
  left. exists (no_such_file ".apiConfig"). reflexivity.
Defined.

Example loadApiConfig_truncated_file :
  fst (run (loadApiConfig (world (q "{'OpenWeatherMapApiKey':'k3y'") 200 "") ".apiConfig"))
  = (apiConfigData_zero, Some SyntaxError).
Proof. vm_compute. reflexivity. Qed.

(** ** C6: the URL of the outbound request *)

(** C6.  For every city and every configuration that was loaded without
    error, [query] makes exactly one outbound request, and its URL is the
    upstream endpoint followed by [q=], the city as it was given, [&appid=],
    the key of the configuration, and [&units=metric]: the city is copied
    byte for byte, neither checked nor escaped. *)
Theorem query_url (W : World) (city : string) (cfg : apiConfigData) :
  fst (run (loadApiConfig W ".apiConfig")) = (cfg, None) ->
  requests (snd (run (query W city)))
  = ["https://api.openweathermap.org/data/2.5/weather?q=" +:+ city
     +:+ "&appid=" +:+ OpenWeatherMapApiKey cfg +:+ "&units=metric"].
Proof.
  unfold run. rewrite loadApiConfig_eq, query_eq. cbn [fst].
  intros ->. fold (request_url city (OpenWeatherMapApiKey cfg)).
  cbv zeta.
  destruct (Get W _) as [resp|err]; [destruct (Body resp) as [body|err]|];
    reflexivity.
Qed.

Lemma query_url_witness :
  requests (snd (run (query (world config_ok 200 "{}") "St. John's/NL&units=imperial#")))
  = ["https://api.openweathermap.org/data/2.5/weather?q="
     +:+ "St. John's/NL&units=imperial#"
     +:+ "&appid=" +:+ "k3y" +:+ "&units=metric"].
Proof.
  apply (query_url (world config_ok 200 "{}") "St. John's/NL&units=imperial#"
                   {| OpenWeatherMapApiKey := "k3y" |}).
  vm_compute. reflexivity.
Defined.

(** ** Numbers read from a text are finite

    [ParseFloat] reports an overflow, and rounding a magnitude never yields
    a NaN; so a number that was decoded without error is a finite binary64
    value, which the encoder accepts. *)

Lemma shr_record_of_loc_m (m : Z) (l : location) :
  shr_m (shr_record_of_loc m l) = m.
Proof. destruct l as [|[]]; reflexivity. Qed.

Lemma shr_1_nonneg (mrs : shr_record) : 0 <= shr_m mrs -> 0 <= shr_m (shr_1 mrs).
Proof.
  destruct mrs as [m r s]. cbn [shr_m]. intros Hm.
  destruct m as [|[p|p|]|p]; cbn; lia.
Qed.

Lemma iter_shr_1_nonneg (p : positive) (mrs : shr_record) :
  0 <= shr_m mrs -> 0 <= shr_m (SpecFloat.iter_pos shr_1 p mrs).
Proof.
  revert mrs. induction p as [p IH|p IH|]; intros mrs Hm; cbn [SpecFloat.iter_pos].
  - apply IH, IH, shr_1_nonneg, Hm.
  - apply IH, IH, Hm.
  - apply shr_1_nonneg, Hm.
Qed.

Lemma shr_nonneg (mrs : shr_record) (e n : Z) :
  0 <= shr_m mrs -> 0 <= shr_m (fst (shr mrs e n)).
Proof.
  intros Hm. destruct n as [|p|p]; cbn [shr fst]; try exact Hm.
  apply iter_shr_1_nonneg, Hm.
Qed.

Lemma shr_fexp_nonneg (p e : Z) (m : Z) (ex : Z) (l : location) :
  0 <= m -> 0 <= shr_m (fst (shr_fexp p e m ex l)).
Proof.
  intros Hm. unfold shr_fexp. apply shr_nonneg.
  now rewrite shr_record_of_loc_m.
Qed.

Lemma round_nearest_even_nonneg (m : Z) (l : location) :
  0 <= m -> 0 <= round_nearest_even m l.
Proof.
  intros Hm. destruct l as [|[]]; cbn [round_nearest_even]; try lia.
  destruct (Z.even m); lia.
Qed.

Lemma binary_round_aux_not_nan (p e : Z) (sx : bool) (mx ex : Z) (lx : location) :
  0 <= mx -> binary_round_aux p e sx mx ex lx <> S754_nan.
Proof.
  intros Hm. unfold binary_round_aux.
  pose proof (shr_fexp_nonneg p e mx ex lx Hm) as H1.
  destruct (shr_fexp p e mx ex lx) as [mrs' e']. cbn [fst] in H1.
  pose proof (shr_fexp_nonneg p e _ e' loc_Exact
                (round_nearest_even_nonneg _ (loc_of_shr_record mrs') H1)) as H2.
  destruct (shr_fexp p e (round_nearest_even (shr_m mrs') (loc_of_shr_record mrs'))
                     e' loc_Exact) as [mrs'' e''].
  cbn [fst] in H2.
  destruct (shr_m mrs'') as [|m|m]; [discriminate | | lia].
  destruct (e'' <=? e - p); discriminate.
Qed.

Lemma float64_of_decimal_not_nan (neg : bool) (m e : Z) :
  strconv.float64_of_decimal neg m e <> S754_nan.
Proof.
  unfold strconv.float64_of_decimal.
  destruct (m <=? 0) eqn:Hm; [discriminate|].
  apply Z.leb_gt in Hm.
  destruct (0 <=? e) eqn:He.
  - unfold binary_normalize.
    destruct (cond_Zopp neg (m * 10 ^ e)) as [|n|n]; [discriminate| |];
      unfold binary_round;
      destruct (shl_align _ _ _) as [mz ez];
      apply binary_round_aux_not_nan; lia.
  - apply Z.leb_gt in He.
    unfold SFdiv_core_binary.
    set (m' := match _ with Z0 => m | Zpos _ => _ | Zneg _ => 0 end).
    assert (Hm' : 0 <= m').
    { subst m'. destruct (_ - _ - _) as [|s|s]; try lia.
      apply Z.shiftl_nonneg. lia. }
    assert (Hd : 0 < 10 ^ (- e)) by (apply Z.pow_pos_nonneg; lia).
    destruct (Z.div_eucl m' (10 ^ (- e))) as [qq r] eqn:Hdiv.
    apply binary_round_aux_not_nan.
    assert (Hq : qq = m' / 10 ^ (- e)).
    { unfold Z.div. now rewrite Hdiv. }
    rewrite Hq. apply Z.div_pos; lia.
Qed.

Lemma ParseFloat_finite (s : list byte) (f : float64) :
  strconv.ParseFloat s = (f, None) -> finite f.
Proof.
  unfold strconv.ParseFloat.
  destruct (strconv.readFloat s) as [[[neg m] e]|]; [|discriminate].
  destruct (IsInf (strconv.float64_of_decimal neg m e)) eqn:Hinf; [discriminate|].
  intros [= <-]. split; [exact Hinf|].
  pose proof (float64_of_decimal_not_nan neg m e) as Hn.
  destruct (strconv.float64_of_decimal neg m e); try reflexivity. congruence.
Qed.

Lemma finite_zero : finite float64_zero.
Proof. split; reflexivity. Qed.

(** A finite number is encoded without error. *)
Lemma encode_float64_finite (f : float64) :
  finite f -> exists b, encode f = inl b.
Proof.
  intros [Hi Hn]. unfold encode, encode_float64. rewrite Hi, Hn. cbn [orb].
  eauto.
Qed.

(** ** Which JSON values a target accepts

    For each target type, the values [decode] stores without complaint. *)

Lemma name_matches_refl (n : string) : name_matches n n = true.
Proof. unfold name_matches, bytes_eqb. now apply bool_decide_eq_true. Qed.

Lemma lookup_field_1 {F : Type} (n : string) (f : F) (k : string) :
  lookup_field [(n, f)] k = if name_matches n k then Some f else None.
Proof.
  unfold lookup_field. cbn [List.find fst snd].
  destruct (String.eqb n k) eqn:E.
  - apply String.eqb_eq in E. subst k. now rewrite name_matches_refl.
  - destruct (name_matches n k); reflexivity.
Qed.

Lemma lookup_field_2 {F : Type} (n1 n2 : string) (f1 f2 : F) (k : string) :
  name_matches n1 n2 = false ->
  lookup_field [(n1, f1); (n2, f2)] k
  = if name_matches n1 k then Some f1
    else if name_matches n2 k then Some f2 else None.
Proof.
  intros Hne. unfold lookup_field. cbn [List.find fst snd].
  destruct (String.eqb n1 k) eqn:E1.
  { apply String.eqb_eq in E1. subst k. now rewrite name_matches_refl. }
  destruct (String.eqb n2 k) eqn:E2.
  { apply String.eqb_eq in E2. subst k. now rewrite Hne, name_matches_refl. }
  destruct (name_matches n1 k); [reflexivity|].
  destruct (name_matches n2 k); reflexivity.
Qed.

Section StructDecoding.

Context {T : Type}.
Variable fields : list (string * (value -> T -> T * option error)).

Lemma store_member_error (x : T) (e : error) (kv : string * value) :
  snd (store_member fields (x, Some e) kv) = Some e.
Proof.
  unfold store_member. destruct (lookup_field fields (fst kv)) as [f|];
    [|reflexivity].
  cbn [fst snd]. destruct (f (snd kv) x). reflexivity.
Qed.

(** Once a mismatch is recorded it stays: the first one is reported. *)
Lemma fold_store_error (ms : list (string * value)) (x : T) (e : error) :
  snd (fold_left (store_member fields) ms (x, Some e)) = Some e.
Proof.
  revert x. induction ms as [|kv ms IH]; intros x; [reflexivity|].
  cbn [fold_left].
  pose proof (store_member_error x e kv) as H.
  destruct (store_member fields (x, Some e) kv) as [x' e']. cbn [snd] in H.
  subst e'. apply IH.
Qed.

(** What is true of the target before, and kept by every field that a
    member designates, is true after. *)
Lemma fold_store_inv (P : T -> Prop) (ms : list (string * value))
      (acc : T * option error) :
  (forall k v f x, In (k, v) ms -> lookup_field fields k = Some f ->
                   P x -> P (fst (f v x))) ->
  P (fst acc) -> P (fst (fold_left (store_member fields) ms acc)).
Proof.
  revert acc. induction ms as [|[k v] ms IH]; intros acc Hf Hacc; [exact Hacc|].
  cbn [fold_left]. apply IH.
  - intros k' v' f x Hin. apply Hf. now right.
  - unfold store_member. cbn [fst snd].
    destruct (lookup_field fields k) as [f|] eqn:Hl; [|exact Hacc].
    specialize (Hf k v f (fst acc) (or_introl eq_refl) Hl Hacc).
    destruct (f v (fst acc)). exact Hf.
Qed.

Variable ok : string -> value -> bool.

Hypothesis ok_spec : forall k v x,
    match lookup_field fields k with
    | Some f => snd (f v x) = None <-> ok k v = true
    | None => ok k v = true
    end.

Lemma fold_store_ok (ms : list (string * value)) (acc : T * option error) :
  snd (fold_left (store_member fields) ms acc) = None
  <-> snd acc = None /\ forallb (fun kv => ok (fst kv) (snd kv)) ms = true.
Proof.
  revert acc. induction ms as [|[k v] ms IH]; intros [x e].
  - cbn. tauto.
  - cbn [fold_left forallb fst snd]. rewrite IH, andb_true_iff.
    unfold store_member. cbn [fst snd].
    pose proof (ok_spec k v x) as Hk.
    destruct (lookup_field fields k) as [f|].
    + destruct (f v x) as [x' e'] eqn:Hf. cbn [snd] in *.
      destruct e as [e|]; cbn [first_error].
      * split; intros [H _]; discriminate.
      * rewrite <- Hk. tauto.
    + cbn [snd]. tauto.
Qed.

Lemma decode_struct_ok (type_name : string) (v : value) (x : T) :
  snd (decode_struct type_name fields v x) = None <-> members_ok ok v = true.
Proof.
  destruct v; cbn [decode_struct members_ok snd]; try (split; discriminate).
  - tauto.
  - rewrite fold_store_ok. cbn [snd]. tauto.
Qed.

End StructDecoding.

Lemma decode_string_ok (v : value) (x : string) :
  snd (decode v x) = None <-> accepts_string v = true.
Proof. destruct v; cbn; split; congruence. Qed.

Lemma decode_float64_ok (v : value) (x : float64) :
  snd (decode v x) = None <-> accepts_float64 v = true.
Proof.
  destruct v; cbn; try (split; congruence).
  destruct (strconv.ParseFloat (bytes_of lit)) as [f [e|]]; cbn; split; congruence.
Qed.

Lemma on_field_ok {T F : Type} `{Decoder F} (get : T -> F) (set : F -> T -> T)
      (accepts : value -> bool) :
  (forall v (y : F), snd (decode v y) = None <-> accepts v = true) ->
  forall v x, snd (on_field get set v x) = None <-> accepts v = true.
Proof.
  intros Hd v x. unfold on_field. specialize (Hd v (get x)).
  destruct (decode v (get x)). exact Hd.
Qed.

Lemma decode_mainData_ok (v : value) (x : mainData) :
  snd (decode v x) = None <-> accepts_mainData v = true.
Proof.
  apply decode_struct_ok. intros k v' x'. rewrite lookup_field_1.
  destruct (name_matches "temp" k); [|reflexivity].
  apply on_field_ok, decode_float64_ok.
Qed.

Lemma decode_weatherData_ok (v : value) (x : weatherData) :
  snd (decode v x) = None <-> accepts_weatherData v = true.
Proof.
  apply decode_struct_ok. intros k v' x'.
  rewrite lookup_field_2 by reflexivity.
  destruct (name_matches "name" k).
  - apply on_field_ok, decode_string_ok.
  - destruct (name_matches "main" k); [|reflexivity].
    apply on_field_ok, decode_mainData_ok.
Qed.

Lemma decode_apiConfigData_ok (v : value) (x : apiConfigData) :
  snd (decode v x) = None <-> accepts_apiConfigData v = true.
Proof.
  apply decode_struct_ok. intros k v' x'. rewrite lookup_field_1.
  destruct (name_matches "OpenWeatherMapApiKey" k); [|reflexivity].
  apply on_field_ok, decode_string_ok.
Qed.

(** ** Every record that [query] returns can be encoded *)

Lemma decode_float64_finite (v : value) (x : float64) :
  finite x -> finite (fst (decode v x)).
Proof.
  intros Hx. destruct v; cbn; try exact Hx.
  destruct (strconv.ParseFloat (bytes_of lit)) as [f [e|]] eqn:Hp; cbn;
    [exact Hx|]. eapply ParseFloat_finite, Hp.
Qed.

Lemma decode_mainData_finite (v : value) (m : mainData) :
  finite (Kelvin m) -> finite (Kelvin (fst (decode v m))).
Proof.
  intros Hm. destruct v; cbn; try exact Hm.
  apply (fold_store_inv _ (fun m => finite (Kelvin m))); [|exact Hm].
  intros k v f x _. rewrite lookup_field_1.
  destruct (name_matches "temp" k); [|discriminate].
  intros [= <-] Hx. unfold on_field.
  pose proof (decode_float64_finite v (Kelvin x) Hx) as Hf.
  destruct (decode v (Kelvin x)). exact Hf.
Qed.

Lemma decode_weatherData_finite (v : value) (d : weatherData) :
  finite (Kelvin (Main d)) -> finite (Kelvin (Main (fst (decode v d)))).
Proof.
  intros Hd. destruct v; cbn; try exact Hd.
  apply (fold_store_inv _ (fun d => finite (Kelvin (Main d)))); [|exact Hd].
  intros k v f x _. rewrite lookup_field_2 by reflexivity.
  destruct (name_matches "name" k).
  - intros [= <-] Hx. unfold on_field. destruct (decode v (Name x)). exact Hx.
  - destruct (name_matches "main" k); [|discriminate].
    intros [= <-] Hx. unfold on_field.
    pose proof (decode_mainData_finite v (Main x) Hx) as Hf.
    destruct (decode v (Main x)). exact Hf.
Qed.

Lemma Unmarshal_weatherData_finite (data : string) (d : weatherData) :
  finite (Kelvin (Main (fst (Unmarshal data weatherData_zero)))).
Proof.
  unfold Unmarshal. destruct (json.parse (bytes_of data)) as [v|].
  - apply decode_weatherData_finite, finite_zero.
  - apply finite_zero.
Qed.

Lemma EncodeLine_finite (d : weatherData) :
  finite (Kelvin (Main d)) -> exists line, EncodeLine d = inl line.
Proof.
  intros Hf. destruct (encode_float64_finite _ Hf) as [b Hb].
  unfold EncodeLine.
  change (encode d) with (encode_weatherData d). unfold encode_weatherData.
  change (encode (Main d)) with (encode_mainData (Main d)).
  unfold encode_mainData. rewrite Hb.
  cbn. eauto.
Qed.

(** Whatever the world, a record that [query] returns holds a finite
    temperature. *)
Lemma query_finite (W : World) (city : string) (t : list event) :
  finite (Kelvin (Main (fst (fst (query W city t))))).
Proof.
  rewrite query_eq.
  destruct (loadApiConfig_result W ".apiConfig") as [cfg [err|]];
    [apply finite_zero|].
  cbv zeta. destruct (Get W _) as [resp|err]; [|apply finite_zero].
  destruct (Body resp) as [body|err]; [|apply finite_zero].
  cbn [fst]. unfold decode_reply.
  pose proof (Unmarshal_weatherData_finite body weatherData_zero) as Hf.
  destruct (Unmarshal body weatherData_zero) as [d [err|]]; cbn [fst] in *;
    [apply finite_zero | exact Hf].
Qed.

(** On an error, [query] returns the zero-valued record, never the record
    the decoder was filling. *)
Lemma query_error_zero (W : World) (city : string) (t : list event) (e : error) :
  snd (fst (query W city t)) = Some e -> fst (fst (query W city t)) = weatherData_zero.
Proof.
  rewrite query_eq.
  destruct (loadApiConfig_result W ".apiConfig") as [cfg [err|]]; [reflexivity|].
  cbv zeta. destruct (Get W _) as [resp|err]; [|reflexivity].
  destruct (Body resp) as [body|err]; [|reflexivity].
  cbn [fst snd]. unfold decode_reply.
  destruct (Unmarshal body weatherData_zero) as [d [err|]]; cbn; congruence.
Qed.

(** ** C10 and C1: the city is whatever follows [/weather/] *)

(** On a path that starts with [/weather/] the guard is passed and the third
    part goes to [query]. *)
Lemma weatherHandler_rest (W : World) (w : ResponseWriter) (rest : string) :
  weatherHandler W w {| Path := "/weather/" +:+ rest |} = serveCity W w rest.
Proof.
  unfold weatherHandler. cbn [Path]. rewrite SplitN_weather. reflexivity.
Qed.

(** What the handler does with a city, in terms of [query]: the effects are
    those of [query] on that city, and the reply is made of what [query]
    returns. *)
Lemma serveCity_run (W : World) (w : ResponseWriter) (city : string) :
  run (serveCity W w city)
  = (match fst (run (query W city)) with
     | (_, Some e) => http_Error w (Error e) StatusInternalServerError
     | (d, None) =>
       fst (Encode (Header_Set "Content-Type" "application/json; charset=utf8" w) d)
     end,
     snd (run (query W city))).
Proof.
  unfold run, serveCity, bind.
  destruct (query W city []) as [[d [e|]] t]; reflexivity.
Qed.

Lemma query_requests (W : World) (city : string) (cfg : apiConfigData) :
  fst (run (loadApiConfig W ".apiConfig")) = (cfg, None) ->
  requests (snd (run (query W city))) = [request_url city (OpenWeatherMapApiKey cfg)].
Proof.
  unfold run. rewrite loadApiConfig_eq, query_eq. cbn [fst].
  intros ->. cbv zeta.
  destruct (Get W _) as [resp|err]; [destruct (Body resp) as [body|err]|];
    reflexivity.
Qed.

(** C10.  For every request path [/weather/<rest>], whatever [<rest>] is and
    in particular when it contains slashes, the path splits into exactly
    three parts, the third being the whole of [<rest>], and the city that
    the handler passes to [query] is the whole of [<rest>]: the effects of
    the handler are those of [query] on [<rest>], its reply is made of what
    [query] returns for [<rest>], and once the configuration is loaded the
    one request that goes out asks for [q=<rest>], slashes included. *)
Theorem weatherHandler_city_is_rest (W : World) (w : ResponseWriter) (rest : string) :
  Strings.SplitN ("/weather/" +:+ rest) "/" 3 = [""; "weather"; rest]
  /\ weatherHandler W w {| Path := "/weather/" +:+ rest |} = serveCity W w rest
  /\ snd (run (weatherHandler W w {| Path := "/weather/" +:+ rest |}))
     = snd (run (query W rest))
  /\ fst (run (weatherHandler W w {| Path := "/weather/" +:+ rest |}))
     = match fst (run (query W rest)) with
       | (_, Some e) => http_Error w (Error e) StatusInternalServerError
       | (d, None) =>
         fst (Encode (Header_Set "Content-Type" "application/json; charset=utf8" w) d)
       end
  /\ (forall cfg,
        fst (run (loadApiConfig W ".apiConfig")) = (cfg, None) ->
        requests (snd (run (weatherHandler W w {| Path := "/weather/" +:+ rest |})))
        = ["https://api.openweathermap.org/data/2.5/weather?q=" +:+ rest
           +:+ "&appid=" +:+ OpenWeatherMapApiKey cfg +:+ "&units=metric"]).
Proof.
  split; [apply SplitN_weather|]. split; [apply weatherHandler_rest|].
  rewrite weatherHandler_rest, serveCity_run. cbn [fst snd].
  split; [reflexivity|]. split; [reflexivity|].
  intros cfg Hcfg. apply (query_requests W rest cfg Hcfg).
Qed.

Lemma weatherHandler_city_is_rest_witness :
  Strings.SplitN ("/weather/" +:+ "a/b/c") "/" 3 = [""; "weather"; "a/b/c"]
  /\ snd (run (weatherHandler (world config_ok 200 body_name_only) newResponse
                              {| Path := "/weather/" +:+ "a/b/c" |}))
     = snd (run (query (world config_ok 200 body_name_only) "a/b/c"))
  /\ fst (run (weatherHandler (world config_ok 200 body_name_only) newResponse
                              {| Path := "/weather/" +:+ "a/b/c" |}))
     = match fst (run (query (world config_ok 200 body_name_only) "a/b/c")) with
       | (_, Some e) => http_Error newResponse (Error e) StatusInternalServerError
       | (d, None) =>
         fst (Encode (Header_Set "Content-Type" "application/json; charset=utf8"
                                 newResponse) d)
       end
  /\ requests (snd (run (weatherHandler (world config_ok 200 body_name_only) newResponse
                                        {| Path := "/weather/" +:+ "a/b/c" |})))
     = ["https://api.openweathermap.org/data/2.5/weather?q=" +:+ "a/b/c"
        +:+ "&appid=" +:+ "k3y" +:+ "&units=metric"].
Proof.
  destruct (weatherHandler_city_is_rest (world config_ok 200 body_name_only)
                                        newResponse "a/b/c")
    as (H1 & _ & H3 & H4 & H5).
  split; [exact H1|]. split; [exact H3|]. split; [exact H4|].
  apply (H5 {| OpenWeatherMapApiKey := "k3y" |}). vm_compute. reflexivity.
Defined.

Example serve_nested_path :
  requests (snd (serve (weatherHandler (world config_ok 200 "{}")) "/weather/a/b/c"))
  = ["https://api.openweathermap.org/data/2.5/weather?q=a/b/c&appid=k3y&units=metric"].
Proof. vm_compute. reflexivity. Qed.

Lemma serveCity_status (W : World) (city : string) :
  final_status (fst (run (serveCity W newResponse city))) = 200
  \/ final_status (fst (run (serveCity W newResponse city))) = 500.
Proof.
  unfold run, serveCity, bind.
  destruct (query W city []) as [[d [e|]] t]; cbn.
  - right. reflexivity.
  - left. unfold Encode. destruct (EncodeLine d); reflexivity.
Qed.

(** C1 fails on the code.  The path [/weather/] splits into the three parts
    [""], ["weather"], [""]; the guard [len(parts) < 3] does not fire, and
    the handler calls [query] with the empty city: the configuration file is
    read, the status is never 400, and once the configuration is loaded a
    request goes out. *)
Theorem weatherHandler_bare_path (W : World) :
  Strings.SplitN "/weather/" "/" 3 = [""; "weather"; ""]
  /\ snd (serve (weatherHandler W) "/weather/") = snd (run (query W ""))
  /\ head (snd (serve (weatherHandler W) "/weather/")) = Some (EvReadFile ".apiConfig")
  /\ final_status (fst (serve (weatherHandler W) "/weather/")) <> StatusBadRequest.
Proof.
  pose proof (SplitN_weather "") as Hs.
  pose proof (weatherHandler_rest W newResponse "") as Hh.
  change ("/weather/" +:+ "") with "/weather/" in Hs, Hh.
  split; [exact Hs|]. unfold serve. rewrite Hh.
  split; [|split].
  - unfold run, serveCity, bind.
    destruct (query W "" []) as [[d [e|]] t]; reflexivity.
  - unfold run, serveCity, bind. rewrite query_eq.
    destruct (loadApiConfig_result W ".apiConfig") as [cfg [err|]];
      [reflexivity|].
    cbv zeta. destruct (Get W _) as [resp|err]; [|reflexivity].
    destruct (Body resp) as [body|err]; [|reflexivity].
    destruct (decode_reply body) as [d [e|]]; reflexivity.
  - destruct (serveCity_status W "") as [H|H]; rewrite H; discriminate.
Qed.

(** The same on a concrete world: the upstream is asked for the empty city
    and its complaint is relayed as an empty record with status 200. *)
Example serve_bare_path :
  serve (weatherHandler
           (world config_ok 400 (q "{'cod':'400','message':'Nothing to geocode'}")))
        "/weather/"
  = ({| header := {[ "Content-Type" := ["application/json; charset=utf8"] ]};
        status := Some 200;
        body := q "{'name':'','main':{'temp':0}}" +:+ nl |},
     [EvReadFile ".apiConfig";
      requesting "https://api.openweathermap.org/data/2.5/weather?q=&appid=k3y&units=metric";
      EvGet "https://api.openweathermap.org/data/2.5/weather?q=&appid=k3y&units=metric";
      EvReadBody;
      EvStdout (q "{'cod':'400','message':'Nothing to geocode'}" +:+ nl);
      EvCloseBody]).
Proof. vm_compute. reflexivity. Qed.

(** The guard does fire when the path has fewer than two slashes; the
    server never routes such a path to this handler. *)
Example serve_no_second_slash :
  serve (weatherHandler world_without_config) "/weather"
  = ({| header := {[ "Content-Type" := ["text/plain; charset=utf-8"];
                     "X-Content-Type-Options" := ["nosniff"] ]};
        status := Some 400;
        body := "City not specified" +:+ nl |}, []).
Proof. vm_compute. reflexivity. Qed.

Lemma prefix_append (p s : string) :
  String.prefix p s = true -> exists rest, s = p +:+ rest.
Proof.
  revert s. induction p as [|a p IH]; intros s.
  - intros _. exists s. reflexivity.
  - destruct s as [|b s]; cbn [String.prefix]; [discriminate|].
    destruct (ascii_dec a b) as [->|_]; [|discriminate].
    intros H. destruct (IH s H) as [rest ->]. exists rest. reflexivity.
Qed.

(** Under the mux the guard of the handler is dead code: every path that is
    routed to the handler starts with [/weather/], has three parts, and is
    answered with what [query] says, never with 400. *)
Lemma routed_never_400 (W : World) (path : string) :
  pattern_matches "/weather/" path = true ->
  exists rest,
    path = "/weather/" +:+ rest
    /\ weatherHandler W newResponse {| Path := path |} = serveCity W newResponse rest
    /\ final_status (fst (serve (weatherHandler W) path)) <> StatusBadRequest.
Proof.
  intros H. change (pattern_matches "/weather/" path)
    with (String.prefix "/weather/" path) in H.
  destruct (prefix_append _ _ H) as [rest ->]. exists rest.
  pose proof (weatherHandler_rest W newResponse rest) as Hh.
  split; [reflexivity|]. split; [exact Hh|].
  unfold serve. rewrite Hh. unfold StatusBadRequest.
  destruct (serveCity_status W rest) as [Hs|Hs]; rewrite Hs; discriminate.
Qed.

Example route_examples :
  (exists h, route (main world_without_config) "/weather/" = Some h
             /\ h newResponse {| Path := "/weather/" |}
                = weatherHandler world_without_config newResponse {| Path := "/weather/" |})
  /\ route (main world_without_config) "/weather" = None
  /\ route (main world_without_config) "/hello/x" = None.
Proof.
  split; [eexists; split; reflexivity|]. split; reflexivity.
Qed.

(** ** C5: what the handler answers once it has a city *)

Lemma append_nl_nonempty (s : string) : s +:+ nl <> "".
Proof. destruct s; discriminate. Qed.

(** C5.  For every request whose path has a third segment, the handler
    performs exactly the effects of [query] on that segment.  When [query]
    returns an error the reply has status 500 and a plain text body made of
    the error's message and a line feed, hence not empty and free of JSON
    fragments.  When [query] succeeds the [Content-Type] header is the JSON
    one and the body is the JSON encoding of the record, sent with status
    200. *)
Theorem weatherHandler_with_city (W : World) (path city : string) :
  Strings.SplitN path "/" 3 !! 2%nat = Some city ->
  let w := fst (serve (weatherHandler W) path) in
  snd (serve (weatherHandler W) path) = snd (run (query W city))
  /\ match fst (run (query W city)) with
     | (_, Some e) =>
       final_status w = StatusInternalServerError
       /\ body w = Error e +:+ nl
       /\ body w <> ""
       /\ header w !! "Content-Type" = Some ["text/plain; charset=utf-8"]
     | (d, None) =>
       header w !! "Content-Type" = Some ["application/json; charset=utf8"]
       /\ EncodeLine d = inl (body w)
       /\ final_status w = 200
     end.
Proof.
  intros Hcity. unfold serve, weatherHandler. cbn [Path].
  assert (Hlen : (length (Strings.SplitN path "/" 3) <? 3)%nat = false).
  { apply Nat.ltb_ge. apply lookup_lt_Some in Hcity. lia. }
  rewrite Hlen, Hcity. unfold run, serveCity, bind.
  pose proof (query_finite W city []) as Hfin.
  destruct (query W city []) as [[d [e|]] t]; cbn [fst snd] in *.
  - split; [reflexivity|]. repeat split.
    apply append_nl_nonempty.
  - split; [reflexivity|].
    destruct (EncodeLine_finite d Hfin) as [line Hline].
    unfold ret, Encode. cbn [fst snd]. rewrite Hline. cbn [fst].
    repeat split.
Qed.

Lemma weatherHandler_with_city_witness :
  snd (serve (weatherHandler world_without_config) "/weather/London")
  = snd (run (query world_without_config "London"))
  /\ match fst (run (query world_without_config "London")) with
     | (_, Some e) =>
       final_status (fst (serve (weatherHandler world_without_config) "/weather/London"))
       = StatusInternalServerError
       /\ body (fst (serve (weatherHandler world_without_config) "/weather/London"))
          = Error e +:+ nl
       /\ body (fst (serve (weatherHandler world_without_config) "/weather/London")) <> ""
       /\ header (fst (serve (weatherHandler world_without_config) "/weather/London"))
            !! "Content-Type" = Some ["text/plain; charset=utf-8"]
     | (d, None) =>
       header (fst (serve (weatherHandler world_without_config) "/weather/London"))
         !! "Content-Type" = Some ["application/json; charset=utf8"]
       /\ EncodeLine d
          = inl (body (fst (serve (weatherHandler world_without_config) "/weather/London")))
       /\ final_status (fst (serve (weatherHandler world_without_config) "/weather/London"))
          = 200
     end.
Proof.
  apply (weatherHandler_with_city world_without_config "/weather/London" "London").
  vm_compute. reflexivity.
Defined.

Example serve_without_config :
  fst (serve (weatherHandler world_without_config) "/weather/London")
  = {| header := {[ "Content-Type" := ["text/plain; charset=utf-8"];
                    "X-Content-Type-Options" := ["nosniff"] ]};
       status := Some 500;
       body := "open .apiConfig: no such file or directory" +:+ nl |}.
Proof. vm_compute. reflexivity. Qed.

Example serve_upstream_down :
  let W := {| ReadFile := fun _ => Ok config_ok;
              Get := fun _ => Err (ExternalError "dial tcp: connection refused") |} in
  fst (serve (weatherHandler W) "/weather/London")
  = {| header := {[ "Content-Type" := ["text/plain; charset=utf-8"];
                    "X-Content-Type-Options" := ["nosniff"] ]};
       status := Some 500;
       body := "dial tcp: connection refused" +:+ nl |}.
Proof. vm_compute. reflexivity. Qed.

(** ** C2: which replies [query] turns into a record *)

Lemma Unmarshal_weatherData_ok (body : string) :
  snd (Unmarshal body weatherData_zero) = None
  <-> exists v, json.parse (bytes_of body) = Some v /\ accepts_weatherData v = true.
Proof.
  unfold Unmarshal. destruct (json.parse (bytes_of body)) as [v|].
  - rewrite decode_weatherData_ok. split; [eauto|]. now intros [v' [[= <-] H]].
  - cbn. split; [discriminate|]. now intros [v [H _]].
Qed.

(** A field for which the object has no member keeps what it held. *)
Lemma decode_weatherData_untouched (ms : list (string * value)) (d : weatherData) :
  (no_member "name" ms -> Name (fst (decode (JObject ms) d)) = Name d)
  /\ (no_member "main" ms -> Main (fst (decode (JObject ms) d)) = Main d).
Proof.
  split; intros Hno; cbn.
  - apply (fold_store_inv _ (fun x => Name x = Name d)); [|reflexivity].
    intros k v f x Hin. rewrite lookup_field_2 by reflexivity.
    rewrite (Hno k v Hin).
    destruct (name_matches "main" k); [|discriminate].
    intros [= <-] Hx. unfold on_field. destruct (decode v (Main x)). exact Hx.
  - apply (fold_store_inv _ (fun x => Main x = Main d)); [|reflexivity].
    intros k v f x Hin. rewrite lookup_field_2 by reflexivity.
    rewrite (Hno k v Hin).
    destruct (name_matches "name" k); [|discriminate].
    intros [= <-] Hx. unfold on_field. destruct (decode v (Name x)). exact Hx.
Qed.

(** The result of [query] when the configuration is loaded and the upstream
    delivers a body. *)
Lemma query_reply (W : World) (city : string) (cfg : apiConfigData)
      (resp : Response) (body : string) :
  fst (run (loadApiConfig W ".apiConfig")) = (cfg, None) ->
  Get W (request_url city (OpenWeatherMapApiKey cfg)) = Ok resp ->
  Body resp = Ok body ->
  run (query W city)
  = (decode_reply body,
     [EvReadFile ".apiConfig";
      requesting (request_url city (OpenWeatherMapApiKey cfg));
      EvGet (request_url city (OpenWeatherMapApiKey cfg));
      EvReadBody; EvStdout (body +:+ nl); EvCloseBody]).
Proof.
  unfold run. rewrite loadApiConfig_eq, query_eq. cbn [fst].
  intros -> Hget Hbody. cbv zeta. rewrite Hget, Hbody. reflexivity.
Qed.

(** What the decoder makes of a body: no error exactly on the bodies that the
    [weatherData] shape accepts, the zero value next to an error, and the
    zero value in every field that the body has no member for. *)
Lemma decode_reply_cases (body : string) :
  (snd (decode_reply body) = None
   <-> exists v, json.parse (bytes_of body) = Some v /\ accepts_weatherData v = true)
  /\ (forall e, snd (decode_reply body) = Some e -> fst (decode_reply body) = weatherData_zero)
  /\ (forall ms, snd (decode_reply body) = None ->
        json.parse (bytes_of body) = Some (JObject ms) ->
        (no_member "name" ms -> Name (fst (decode_reply body)) = "")
        /\ (no_member "main" ms -> Main (fst (decode_reply body)) = mainData_zero)).
Proof.
  unfold decode_reply.
  pose proof (Unmarshal_weatherData_ok body) as Hok.
  destruct (Unmarshal body weatherData_zero) as [d [e|]] eqn:Hu; cbn [fst snd] in *.
  - split; [exact Hok|]. split; [reflexivity|]. discriminate.
  - split; [exact Hok|]. split; [discriminate|].
    intros ms _ Hparse. unfold Unmarshal in Hu. rewrite Hparse in Hu.
    pose proof (decode_weatherData_untouched ms weatherData_zero) as [Hn Hm].
    rewrite Hu in Hn, Hm. exact (conj Hn Hm).
Qed.

(** A field whose members all hold [null] keeps what it held, and so does
    the temperature when no member named [main] brings one. *)
Lemma decode_mainData_without_temp (v : value) (x : mainData) :
  without_temp v -> fst (decode v x) = x.
Proof.
  destruct v as [| | | | |ms]; cbn [without_temp]; try contradiction;
    intros Hv; [reflexivity|].
  change (decode (JObject ms) x)
    with (fold_left (store_member
                       [("temp", on_field Kelvin (fun k _ => {| Kelvin := k |}))])
                    ms (x, None)).
  apply (fold_store_inv _ (fun y => y = x)); [|reflexivity].
  intros k v f y Hin. rewrite lookup_field_1.
  destruct (name_matches "temp" k) eqn:Hk; [|discriminate].
  intros [= <-] ->. rewrite (Hv k v Hin Hk). destruct x. reflexivity.
Qed.

Lemma decode_weatherData_only_null (ms : list (string * value)) (d : weatherData) :
  (only_null "name" ms -> Name (fst (decode (JObject ms) d)) = Name d)
  /\ (no_temperature ms -> Main (fst (decode (JObject ms) d)) = Main d).
Proof.
  split; intros Hno; cbn.
  - apply (fold_store_inv _ (fun x => Name x = Name d)); [|reflexivity].
    intros k v f x Hin. rewrite lookup_field_2 by reflexivity.
    destruct (name_matches "name" k) eqn:Hk.
    + intros [= <-] Hx. rewrite (Hno k v Hin Hk). exact Hx.
    + destruct (name_matches "main" k); [|discriminate].
      intros [= <-] Hx. unfold on_field. destruct (decode v (Main x)). exact Hx.
  - apply (fold_store_inv _ (fun x => Main x = Main d)); [|reflexivity].
    intros k v f x Hin. rewrite lookup_field_2 by reflexivity.
    destruct (name_matches "name" k) eqn:Hk.
    + intros [= <-] Hx. unfold on_field. destruct (decode v (Name x)). exact Hx.
    + destruct (name_matches "main" k) eqn:Hm; [|discriminate].
      intros [= <-] Hx. unfold on_field.
      pose proof (decode_mainData_without_temp v (Main x) (Hno k v Hin Hm)) as Hd.
      destruct (decode v (Main x)) as [y e]. cbn [fst] in *. now subst y.
Qed.

Lemma no_member_only_null (field : string) (ms : list (string * value)) :
  no_member field ms -> only_null field ms.
Proof. intros Hno k v Hin Hk. rewrite (Hno k v Hin) in Hk. discriminate. Qed.

Lemma no_member_no_temperature (ms : list (string * value)) :
  no_member "main" ms -> no_temperature ms.
Proof. intros Hno k v Hin Hk. rewrite (Hno k v Hin) in Hk. discriminate. Qed.

(** The fields of the record that comes out of a body which is an object:
    a field that nothing but [null] is stored in holds the zero value,
    with or without an error. *)
Lemma decode_reply_zero_fields (body : string) (ms : list (string * value)) :
  json.parse (bytes_of body) = Some (JObject ms) ->
  (only_null "name" ms -> Name (fst (decode_reply body)) = "")
  /\ (no_temperature ms -> Main (fst (decode_reply body)) = mainData_zero).
Proof.
  intros Hparse. unfold decode_reply, Unmarshal. rewrite Hparse.
  pose proof (decode_weatherData_only_null ms weatherData_zero) as [Hn Hm].
  destruct (decode (JObject ms) weatherData_zero) as [d [e|]]; cbn [fst] in *.
  - split; reflexivity.
  - exact (conj Hn Hm).
Qed.

Lemma decode_reply_null (body : string) :
  json.parse (bytes_of body) = Some JNull ->
  decode_reply body = (weatherData_zero, None).
Proof. intros Hparse. unfold decode_reply, Unmarshal. now rewrite Hparse. Qed.

(** C2 fails as stated: a body with a name and no temperature is turned into
    a record, without error, whose temperature is the zero value. *)
Lemma query_partial_record :
  has_name_and_temp body_name_only = false
  /\ fst (run (query (world config_ok 200 body_name_only) "London"))
     = ({| Name := "London"; Main := mainData_zero |}, None).
Proof. vm_compute. split; reflexivity. Qed.

(** C2, amended.  When the configuration is loaded and the upstream delivers
    a body, [query] returns a record without error exactly when the body is
    well-formed JSON that the [weatherData] shape accepts: [null], or an
    object in which every member named [name], letter case aside, holds a
    string or [null], and every member named [main] holds [null] or an
    object whose members named [temp] hold [null] or a number that fits
    [float64].  For any other body [query] returns an error, and the record
    that comes with an error is the zero value.  Neither [name] nor
    [main.temp] has to be there.  The name of the record is the empty string
    when the object has no member named [name], or none but [null] ones.
    The temperature is zero when the object has no member named [main], and
    also when each such member holds [null] or an object, [{}] included,
    that has no member named [temp], or none but [null] ones.  A body that
    is [null] yields the zero-valued record without error. *)
Theorem query_record_iff (W : World) (city : string) (cfg : apiConfigData)
        (resp : Response) (body : string) :
  fst (run (loadApiConfig W ".apiConfig")) = (cfg, None) ->
  Get W (request_url city (OpenWeatherMapApiKey cfg)) = Ok resp ->
  Body resp = Ok body ->
  let res := fst (run (query W city)) in
  (snd res = None
   <-> exists v, json.parse (bytes_of body) = Some v /\ accepts_weatherData v = true)
  /\ (forall e, snd res = Some e -> fst res = weatherData_zero)
  /\ (forall ms, json.parse (bytes_of body) = Some (JObject ms) ->
        (no_member "name" ms -> Name (fst res) = "")
        /\ (only_null "name" ms -> Name (fst res) = "")
        /\ (no_member "main" ms -> Main (fst res) = mainData_zero)
        /\ (no_temperature ms -> Main (fst res) = mainData_zero))
  /\ (json.parse (bytes_of body) = Some JNull -> res = (weatherData_zero, None)).
Proof.
  intros Hcfg Hget Hbody. rewrite (query_reply W city cfg resp body Hcfg Hget Hbody).
  cbn [fst].
  pose proof (decode_reply_cases body) as [Hiff [Hzero _]].
  split; [exact Hiff|]. split; [exact Hzero|]. split.
  - intros ms Hparse.
    destruct (decode_reply_zero_fields body ms Hparse) as [Hn Hm].
    split; [intros H; apply Hn, no_member_only_null, H|].
    split; [exact Hn|].
    split; [intros H; apply Hm, no_member_no_temperature, H|exact Hm].
  - apply decode_reply_null.
Qed.

Lemma query_record_iff_witness :
  (snd (fst (run (query (world config_ok 200 body_main_empty) "London"))) = None
   <-> exists v, json.parse (bytes_of body_main_empty) = Some v
                 /\ accepts_weatherData v = true)
  /\ (forall e,
        snd (fst (run (query (world config_ok 200 body_main_empty) "London"))) = Some e ->
        fst (fst (run (query (world config_ok 200 body_main_empty) "London")))
        = weatherData_zero)
  /\ (forall ms,
        json.parse (bytes_of body_main_empty) = Some (JObject ms) ->
        (no_member "name" ms ->
         Name (fst (fst (run (query (world config_ok 200 body_main_empty) "London")))) = "")
        /\ (only_null "name" ms ->
            Name (fst (fst (run (query (world config_ok 200 body_main_empty) "London"))))
            = "")
        /\ (no_member "main" ms ->
            Main (fst (fst (run (query (world config_ok 200 body_main_empty) "London"))))
            = mainData_zero)
        /\ (no_temperature ms ->
            Main (fst (fst (run (query (world config_ok 200 body_main_empty) "London"))))
            = mainData_zero))
  /\ (json.parse (bytes_of body_main_empty) = Some JNull ->
      fst (run (query (world config_ok 200 body_main_empty) "London"))
      = (weatherData_zero, None)).
Proof.
  apply (query_record_iff (world config_ok 200 body_main_empty) "London"
                          {| OpenWeatherMapApiKey := "k3y" |}
                          {| StatusCode := 200; Body := Ok body_main_empty |}
                          body_main_empty);
    vm_compute; reflexivity.
Defined.

(** The bodies in which [main] is there and brings no temperature, and the
    body that is [null]: a record without error, the temperature zero. *)
Example query_main_empty :
  no_temperature [("name", JString "London"); ("main", JObject [])]
  /\ json.parse (bytes_of body_main_empty)
     = Some (JObject [("name", JString "London"); ("main", JObject [])])
  /\ fst (run (query (world config_ok 200 body_main_empty) "London"))
     = ({| Name := "London"; Main := mainData_zero |}, None).
Proof.
  split; [|vm_compute; split; reflexivity].
  intros k v [[= <- <-]|[[= <- <-]|[]]]; [discriminate|].
  intros _ k v [].
Qed.

Example query_main_null :
  fst (run (query (world config_ok 200 body_main_null) "London"))
  = ({| Name := "London"; Main := mainData_zero |}, None).
Proof. vm_compute. reflexivity. Qed.

Example query_other_main :
  fst (run (query (world config_ok 200 body_other_main) "London"))
  = ({| Name := "London"; Main := mainData_zero |}, None).
Proof. vm_compute. reflexivity. Qed.

Example query_null_body :
  fst (run (query (world config_ok 200 "null") "London")) = (weatherData_zero, None).
Proof. vm_compute. reflexivity. Qed.

(** ** C3: the status code of the upstream reply is never looked at *)

Lemma query_with_status (f : Z -> Z) (W : World) (city : string) (t : list event) :
  query (with_status f W) city t = query W city t.
Proof.
  rewrite !query_eq.
  change (loadApiConfig_result (with_status f W) ".apiConfig")
    with (loadApiConfig_result W ".apiConfig").
  destruct (loadApiConfig_result W ".apiConfig") as [cfg [err|]]; [reflexivity|].
  cbv zeta. cbn [Get with_status].
  destruct (Get W _) as [resp|err]; reflexivity.
Qed.

(** C3 fails as stated: a body can be valid JSON and still be refused.  Here
    the reply to a 503 is a JSON string; [query] returns an error. *)
Lemma query_valid_json_refused :
  json.Valid body_service_unavailable = true
  /\ fst (run (query (world config_ok 503 body_service_unavailable) "London"))
     = (weatherData_zero, Some (UnmarshalTypeError "string" "main.weatherData")).
Proof. vm_compute. split; reflexivity. Qed.

(** C3, amended.  [query] never looks at the status code of the reply:
    changing the status codes of the world changes neither its result nor
    its effects.  When the configuration is loaded and the upstream delivers
    a body, whatever the status code: a body that is valid JSON and that the
    [weatherData] shape accepts yields a record without error, and a body
    that is a JSON object with no member named [name] or [main] yields the
    zero-valued record without error.  Valid JSON of another shape is an
    error. *)
Theorem query_status_blind (W : World) (city : string) (cfg : apiConfigData)
        (resp : Response) (body : string) :
  fst (run (loadApiConfig W ".apiConfig")) = (cfg, None) ->
  Get W (request_url city (OpenWeatherMapApiKey cfg)) = Ok resp ->
  Body resp = Ok body ->
  (forall f, run (query (with_status f W) city) = run (query W city))
  /\ (forall v, json.parse (bytes_of body) = Some v ->
        (accepts_weatherData v = true <-> snd (fst (run (query W city))) = None))
  /\ (forall ms, json.parse (bytes_of body) = Some (JObject ms) ->
        no_member "name" ms -> no_member "main" ms ->
        fst (run (query W city)) = (weatherData_zero, None)).
Proof.
  intros Hcfg Hget Hbody.
  split; [intros f; apply query_with_status|].
  rewrite (query_reply W city cfg resp body Hcfg Hget Hbody). cbn [fst].
  pose proof (decode_reply_cases body) as [Hiff [_ Hzero]].
  split.
  - intros v Hv. rewrite Hiff. split; [eauto|].
    intros [v' [Hv' Hacc]]. congruence.
  - intros ms Hparse Hname Hmain.
    assert (Hacc : accepts_weatherData (JObject ms) = true).
    { cbn. apply forallb_forall. intros [k v] Hin. cbn [fst snd].
      now rewrite (Hname k v Hin), (Hmain k v Hin). }
    assert (Hnone : snd (decode_reply body) = None).
    { apply Hiff. eauto. }
    destruct (Hzero ms Hnone Hparse) as [Hn Hm].
    specialize (Hn Hname). specialize (Hm Hmain).
    destruct (decode_reply body) as [[n m] e]. cbn in *. now subst.
Qed.

Lemma query_status_blind_witness :
  (forall f, run (query (with_status f (world config_ok 404 body_not_found)) "Atlantis")
             = run (query (world config_ok 404 body_not_found) "Atlantis"))
  /\ (forall v, json.parse (bytes_of body_not_found) = Some v ->
        (accepts_weatherData v = true
         <-> snd (fst (run (query (world config_ok 404 body_not_found) "Atlantis"))) = None))
  /\ (forall ms, json.parse (bytes_of body_not_found) = Some (JObject ms) ->
        no_member "name" ms -> no_member "main" ms ->
        fst (run (query (world config_ok 404 body_not_found) "Atlantis"))
        = (weatherData_zero, None)).
Proof.
  apply (query_status_blind (world config_ok 404 body_not_found) "Atlantis"
                            {| OpenWeatherMapApiKey := "k3y" |}
                            {| StatusCode := 404; Body := Ok body_not_found |}
                            body_not_found);
    vm_compute; reflexivity.
Defined.

Example query_not_found :
  fst (run (query (world config_ok 404 body_not_found) "Atlantis"))
  = (weatherData_zero, None).
Proof. vm_compute. reflexivity. Qed.

(** ** C4: the key that [loadApiConfig] returns *)

(** C4 fails as stated: a member whose name differs from the key only by
    letter case is not ignored.  The first file below is valid JSON and
    holds the recognized key with the string [k3y], yet the key returned is
    the value of the other member; the second makes [loadApiConfig] fail. *)
Lemma loadApiConfig_case_variant :
  json.parse (bytes_of config_case_variant)
  = Some (JObject [("OpenWeatherMapApiKey", JString "k3y");
                   ("OPENWEATHERMAPAPIKEY", JString "other")])
  /\ fst (run (loadApiConfig (world config_case_variant 200 "") ".apiConfig"))
     = ({| OpenWeatherMapApiKey := "other" |}, None)
  /\ fst (run (loadApiConfig (world config_case_variant_number 200 "") ".apiConfig"))
     = (apiConfigData_zero, Some (UnmarshalTypeError "number" "string")).
Proof. vm_compute. repeat split. Qed.

Lemma fold_store_config_ok (ms : list (string * value)) (acc : apiConfigData * option error) :
  snd acc = None ->
  (forall k v, In (k, v) ms -> name_matches key_field k = true -> accepts_string v = true) ->
  snd (fold_left
         (store_member
            [(key_field,
              on_field OpenWeatherMapApiKey (fun k _ => {| OpenWeatherMapApiKey := k |}))])
         ms acc) = None.
Proof.
  intros Hacc Hms.
  apply (fold_store_ok _ (fun k v => if name_matches key_field k
                                     then accepts_string v else true)).
  - intros k v x. rewrite lookup_field_1.
    destruct (name_matches key_field k); [|reflexivity].
    apply on_field_ok, decode_string_ok.
  - split; [exact Hacc|]. apply forallb_forall. intros [k v] Hin. cbn [fst snd].
    destruct (name_matches key_field k) eqn:Hk; [|reflexivity].
    exact (Hms k v Hin Hk).
Qed.

(** C4, amended.  For every configuration file that is valid JSON and whose
    top-level value is an object with a member named [OpenWeatherMapApiKey],
    letter case aside, holding a string [s], where the members so named
    before it hold strings or [null] and those after it hold [null],
    [loadApiConfig] returns without error a configuration whose key is [s]
    exactly.  Members with any other name are ignored, whatever they
    hold. *)
Theorem loadApiConfig_key (W : World) (filename data : string)
        (before after : list (string * value)) (k s : string) :
  ReadFile W filename = Ok data ->
  json.parse (bytes_of data) = Some (JObject (before ++ (k, JString s) :: after)) ->
  name_matches key_field k = true ->
  (forall k' v, In (k', v) before -> name_matches key_field k' = true ->
                accepts_string v = true) ->
  (forall k' v, In (k', v) after -> name_matches key_field k' = true -> v = JNull) ->
  fst (run (loadApiConfig W filename)) = ({| OpenWeatherMapApiKey := s |}, None).
Proof.
  intros Hread Hparse Hk Hbefore Hafter.
  unfold run. rewrite loadApiConfig_eq. cbn [fst].
  unfold loadApiConfig_result. rewrite Hread.
  unfold Unmarshal. rewrite Hparse.
  change (decode (JObject (before ++ (k, JString s) :: after)) apiConfigData_zero)
    with (fold_left
            (store_member
               [(key_field,
                 on_field OpenWeatherMapApiKey
                          (fun k _ => {| OpenWeatherMapApiKey := k |}))])
            (before ++ (k, JString s) :: after) (apiConfigData_zero, None)).
  rewrite fold_left_app. cbn [fold_left].
  pose proof (fold_store_config_ok before (apiConfigData_zero, None) eq_refl Hbefore)
    as Hb.
  destruct (fold_left _ before (apiConfigData_zero, None)) as [x1 e1].
  cbn [snd] in Hb. subst e1.
  unfold store_member at 2. cbn [fst snd]. rewrite lookup_field_1, Hk.
  cbn [on_field decode decode_string first_error].
  assert (Hafter' : forall k' v, In (k', v) after -> name_matches key_field k' = true ->
                                 accepts_string v = true).
  { intros k' v Hin Hm. now rewrite (Hafter k' v Hin Hm). }
  pose proof (fold_store_config_ok after ({| OpenWeatherMapApiKey := s |}, None)
                                   eq_refl Hafter') as Ha.
  pose proof (fold_store_inv
                [(key_field,
                  on_field OpenWeatherMapApiKey
                           (fun k _ => {| OpenWeatherMapApiKey := k |}))]
                (fun x => x = {| OpenWeatherMapApiKey := s |})
                after ({| OpenWeatherMapApiKey := s |}, None)) as Hi.
  destruct (fold_left _ after _) as [x2 e2]. cbn [fst snd] in *. subst e2.
  rewrite Hi; [reflexivity| |reflexivity].
  intros k' v f x Hin. rewrite lookup_field_1.
  destruct (name_matches key_field k') eqn:Hk'; [|discriminate].
  intros [= <-] ->. rewrite (Hafter k' v Hin Hk'). reflexivity.
Qed.

Lemma loadApiConfig_key_witness :
  fst (run (loadApiConfig (world config_with_extras 200 "") ".apiConfig"))
  = ({| OpenWeatherMapApiKey := "k3y" |}, None).
Proof.
  apply (loadApiConfig_key (world config_with_extras 200 "") ".apiConfig"
           config_with_extras
           [("comment", JArray [JString "rotate monthly"]);
            ("openWeatherMapApiKey", JNull)]
           [("OpenWeatherMapApiUrl", JNumber "7")]
           "OpenWeatherMapApiKey" "k3y").
  - reflexivity.
  - vm_compute. reflexivity.
  - vm_compute. reflexivity.
  - intros k' v [[= <- <-]|[[= <- <-]|[]]]; vm_compute; congruence.
  - intros k' v [[= <- <-]|[]]. vm_compute. discriminate.
Defined.

(** ** The parser always has enough fuel

    Each step of the descent consumes input, so the fuel [parse] starts
    with is never exhausted: a [None] is a syntax error of the text. *)

Lemma skip_ws_length (s : list byte) : (length (skip_ws s) <= length s)%nat.
Proof.
  induction s as [|c t IH]; cbn [skip_ws]; [lia|].
  destruct (isSpace c); cbn [length]; lia.
Qed.

Lemma skip_ws_cons_length (s : list byte) (c : byte) (t : list byte) :
  skip_ws s = c :: t -> (length t < length s)%nat.
Proof.
  intros H. pose proof (skip_ws_length s) as Hl. rewrite H in Hl.
  cbn [length] in Hl. lia.
Qed.

Lemma strip_prefix_app (p s r : list byte) :
  strip_prefix p s = Some r -> s = p ++ r.
Proof.
  revert s. induction p as [|a p IH]; intros s; cbn [strip_prefix].
  - now intros [= ->].
  - destruct s as [|b s]; [discriminate|].
    destruct (Byte.eqb a b) eqn:E; [|discriminate].
    apply Byte.byte_dec_bl in E. subst b. intros H. cbn. f_equal. now apply IH.
Qed.

Lemma strip_prefix_length (p s r : list byte) :
  strip_prefix p s = Some r -> (length r + length p = length s)%nat.
Proof.
  intros H. apply strip_prefix_app in H. subst s. rewrite length_app. lia.
Qed.

Lemma cons_ok_Some (l : list byte) (o : option (list byte * list byte))
      (out rest : list byte) :
  cons_ok l o = Some (out, rest) ->
  exists out', o = Some (out', rest) /\ out = l ++ out'.
Proof.
  destruct o as [[out' rest']|]; cbn; [|discriminate].
  intros [= <- <-]. eauto.
Qed.

Lemma unquote_length (s out rest : list byte) :
  unquote s = Some (out, rest) -> (length rest < length s)%nat.
Proof.
  remember (length s) as n eqn:Hn. revert s out rest Hn.
  induction n as [n IH] using lt_wf_ind. intros s out rest -> H.
  assert (IH' : forall t out' rest', (length t < length s)%nat ->
                  unquote t = Some (out', rest') -> (length rest' < length t)%nat).
  { intros t out' rest' Hlt Ht. eapply (IH (length t)); eauto. }
  clear IH. destruct s as [|c t]; [discriminate|]. cbn [unquote] in H.
  destruct (Byte.eqb c x22).
  { injection H as _ <-. cbn [length]. lia. }
  destruct (Byte.eqb c x5c).
  { destruct t as [|e t']; [discriminate|].
    destruct (escape_kind_of e).
    - apply cons_ok_Some in H. destruct H as [? [H _]].
      apply IH' in H; cbn [length] in *; lia.
    - destruct t' as [|h1 [|h2 [|h3 [|h4 t'']]]]; try discriminate.
      destruct (hex4 h1 h2 h3 h4) as [rr|]; [|discriminate].
      destruct (IsSurrogate rr).
      + destruct (negb _).
        * destruct t'' as [|a1 [|a2 [|a3 [|a4 [|a5 [|a6 t3]]]]]]; try discriminate.
          apply cons_ok_Some in H. destruct H as [? [H _]].
          apply IH' in H; cbn [length] in *; lia.
        * apply cons_ok_Some in H. destruct H as [? [H _]].
          apply IH' in H; cbn [length] in *; lia.
      + apply cons_ok_Some in H. destruct H as [? [H _]].
        apply IH' in H; cbn [length] in *; lia.
    - discriminate. }
  destruct (b2z c <? 32); [discriminate|].
  destruct (b2z c <? utf8.RuneSelf).
  { apply cons_ok_Some in H. destruct H as [? [H _]].
    apply IH' in H; cbn [length] in *; lia. }
  destruct (utf8.DecodeRune (c :: t)) as [rr size].
  destruct size as [|[|[|[|[|size]]]]]; try discriminate.
  - apply cons_ok_Some in H. destruct H as [? [H _]].
    apply IH' in H; cbn [length] in *; lia.
  - destruct t as [|b1 t1]; [discriminate|].
    apply cons_ok_Some in H. destruct H as [? [H _]].
    apply IH' in H; cbn [length] in *; lia.
  - destruct t as [|b1 [|b2 t2]]; try discriminate.
    apply cons_ok_Some in H. destruct H as [? [H _]].
    apply IH' in H; cbn [length] in *; lia.
  - destruct t as [|b1 [|b2 [|b3 t3]]]; try discriminate.
    apply cons_ok_Some in H. destruct H as [? [H _]].
    apply IH' in H; cbn [length] in *; lia.
Qed.

Lemma digits_app (s ds r : list byte) : digits s = (ds, r) -> s = ds ++ r.
Proof.
  revert ds r. induction s as [|c t IH]; intros ds r; cbn [digits].
  - now intros [= <- <-].
  - destruct (strconv.is_digit c).
    + destruct (digits t) as [ds' r'] eqn:Hd. intros [= <- <-].
      cbn. f_equal. now apply IH.
    + now intros [= <- <-].
Qed.

Lemma opt_sign_app (a b : byte) (s sg r : list byte) :
  opt_sign a b s = (sg, r) -> s = sg ++ r.
Proof.
  unfold opt_sign. destruct s as [|c t]; [now intros [= <- <-]|].
  destruct (_ || _); now intros [= <- <-].
Qed.

Lemma scan_fraction_app (s fr r : list byte) :
  scan_fraction s = Some (fr, r) -> s = fr ++ r.
Proof.
  unfold scan_fraction. destruct s as [|c u]; [now intros [= <- <-]|].
  destruct (Byte.eqb c x2e); [|now intros [= <- <-]].
  destruct (digits u) as [ds r'] eqn:Hd. apply digits_app in Hd.
  destruct ds; [discriminate|]. intros [= <- <-]. now subst u.
Qed.

Lemma scan_exponent_app (s ex r : list byte) :
  scan_exponent s = Some (ex, r) -> s = ex ++ r.
Proof.
  unfold scan_exponent. destruct s as [|e u]; [now intros [= <- <-]|].
  destruct (_ || _); [|now intros [= <- <-]].
  destruct (opt_sign x2b x2d u) as [es u1] eqn:Hs. apply opt_sign_app in Hs.
  destruct (digits u1) as [ds r'] eqn:Hd. apply digits_app in Hd.
  destruct ds; [discriminate|]. intros [= <- <-]. subst u u1.
  cbn. now rewrite <- app_assoc.
Qed.

(** The literal that [scan_number] returns is a prefix of the text, and it
    is not empty. *)
Lemma scan_number_app (s lit r : list byte) :
  scan_number s = Some (lit, r) -> s = lit ++ r /\ lit <> [].
Proof.
  unfold scan_number.
  destruct (opt_sign x2d x2d s) as [sign s1] eqn:Hs. apply opt_sign_app in Hs.
  destruct s1 as [|c t]; [discriminate|].
  destruct (negb (strconv.is_digit c)) eqn:Hc; [discriminate|].
  apply negb_false_iff in Hc.
  assert (Hint : forall int s2,
             (if Byte.eqb c x30 then ([c], t) else digits (c :: t)) = (int, s2) ->
             c :: t = int ++ s2 /\ int <> []).
  { intros int s2. destruct (Byte.eqb c x30).
    - intros [= <- <-]. split; [reflexivity | discriminate].
    - intros Hd. split; [now apply digits_app|].
      cbn [digits] in Hd. rewrite Hc in Hd.
      destruct (digits t). injection Hd as <- _. discriminate. }
  destruct (if Byte.eqb c x30 then _ else _) as [int s2].
  destruct (Hint int s2 eq_refl) as [Hi Hne].
  destruct (scan_fraction s2) as [[fr s3]|] eqn:Hf; [|discriminate].
  apply scan_fraction_app in Hf.
  destruct (scan_exponent s3) as [[ex r']|] eqn:He; [|discriminate].
  apply scan_exponent_app in He. intros [= <- <-].
  subst s. rewrite Hi. subst s2 s3. split.
  - now rewrite <- !app_assoc.
  - destruct sign; destruct int; cbn; congruence.
Qed.

Lemma scan_number_length (s lit r : list byte) :
  scan_number s = Some (lit, r) -> (length r < length s)%nat.
Proof.
  intros H. apply scan_number_app in H. destruct H as [-> Hne].
  rewrite length_app. destruct lit; [congruence|]. cbn [length]. lia.
Qed.

Lemma literal_length (name : string) (v v' : value) (t r : list byte) :
  literal name v t = POk v' r -> (length r <= length t)%nat.
Proof.
  unfold literal. destruct (strip_prefix _ t) as [r'|] eqn:Hp; [|discriminate].
  intros [= _ <-]. apply strip_prefix_length in Hp. lia.
Qed.

Lemma literal_not_fuel (name : string) (v : value) (t : list byte) :
  literal name v t <> PFuel.
Proof. unfold literal. destruct (strip_prefix _ t); discriminate. Qed.

Lemma parse_value_step (fuel : nat) :
  parser_ok 0 parse_members fuel -> parser_ok 1 parse_elements fuel ->
  parser_ok 0 parse_value (S fuel).
Proof.
  intros Hm He depth s. unfold enough_fuel. cbn [parse_value].
  destruct (skip_ws s) as [|c t] eqn:Hs.
  { split; [discriminate|]. intros a r [=]. }
  apply skip_ws_cons_length in Hs.
  destruct (start_of c).
  - destruct (maxNestingDepth <? depth + 1).
    { split; [discriminate|]. intros a r [=]. }
    destruct (strip_prefix [x7d] (skip_ws t)) as [t'|] eqn:Hp.
    { apply strip_prefix_length in Hp. pose proof (skip_ws_length t).
      split; [discriminate|]. intros a r [= _ <-]. cbn [length] in Hp. lia. }
    destruct (Hm (depth + 1) t) as [Hf Hl]. unfold enough_fuel in Hf.
    destruct (parse_members fuel (depth + 1) t) as [kvs r'| |].
    + split; [discriminate|]. intros a r [= _ <-]. specialize (Hl kvs r' eq_refl). lia.
    + split; [discriminate|]. intros a r [=].
    + split; [|intros a r [=]]. intros Hfuel _. apply Hf; [lia|reflexivity].
  - destruct (maxNestingDepth <? depth + 1).
    { split; [discriminate|]. intros a r [=]. }
    destruct (strip_prefix [x5d] (skip_ws t)) as [t'|] eqn:Hp.
    { apply strip_prefix_length in Hp. pose proof (skip_ws_length t).
      split; [discriminate|]. intros a r [= _ <-]. cbn [length] in Hp. lia. }
    destruct (He (depth + 1) t) as [Hf Hl]. unfold enough_fuel in Hf.
    destruct (parse_elements fuel (depth + 1) t) as [vs r'| |].
    + split; [discriminate|]. intros a r [= _ <-]. specialize (Hl vs r' eq_refl). lia.
    + split; [discriminate|]. intros a r [=].
    + split; [|intros a r [=]]. intros Hfuel _. apply Hf; [lia|reflexivity].
  - destruct (unquote t) as [[str r']|] eqn:Hu.
    + apply unquote_length in Hu. split; [discriminate|]. intros a r [= _ <-]. lia.
    + split; [discriminate|]. intros a r [=].
  - split; [intros _; apply literal_not_fuel|].
    intros a r H. apply literal_length in H. lia.
  - split; [intros _; apply literal_not_fuel|].
    intros a r H. apply literal_length in H. lia.
  - split; [intros _; apply literal_not_fuel|].
    intros a r H. apply literal_length in H. lia.
  - destruct (scan_number (c :: t)) as [[lit r']|] eqn:Hn.
    + apply scan_number_length in Hn. cbn [length] in Hn.
      split; [discriminate|]. intros a r [= _ <-]. lia.
    + split; [discriminate|]. intros a r [=].
Qed.

Lemma parse_members_step (fuel : nat) :
  parser_ok 0 parse_value fuel -> parser_ok 0 parse_members fuel ->
  parser_ok 0 parse_members (S fuel).
Proof.
  intros Hv Hm depth s. unfold enough_fuel. cbn [parse_members].
  pose proof (skip_ws_length s) as Hws.
  destruct (strip_prefix [x22] (skip_ws s)) as [t|] eqn:Hq.
  2:{ split; [discriminate|]. intros a r [=]. }
  apply strip_prefix_length in Hq. cbn [length] in Hq.
  destruct (unquote t) as [[k r0]|] eqn:Hu.
  2:{ split; [discriminate|]. intros a r [=]. }
  apply unquote_length in Hu.
  pose proof (skip_ws_length r0) as Hws0.
  destruct (strip_prefix [x3a] (skip_ws r0)) as [r1|] eqn:Hc.
  2:{ split; [discriminate|]. intros a r [=]. }
  apply strip_prefix_length in Hc. cbn [length] in Hc.
  destruct (Hv depth r1) as [Hf Hl]. unfold enough_fuel in Hf.
  destruct (parse_value fuel depth r1) as [v r2| |].
  - specialize (Hl v r2 eq_refl).
    destruct (skip_ws r2) as [|c r3] eqn:Hs2.
    { split; [discriminate|]. intros a r [=]. }
    apply skip_ws_cons_length in Hs2.
    destruct (Byte.eqb c x2c).
    + destruct (Hm depth r3) as [Hf' Hl']. unfold enough_fuel in Hf'.
      destruct (parse_members fuel depth r3) as [kvs r4| |].
      * split; [discriminate|]. intros a r [= _ <-].
        specialize (Hl' kvs r4 eq_refl). lia.
      * split; [discriminate|]. intros a r [=].
      * split; [|intros a r [=]]. intros Hfuel _. apply Hf'; [lia|reflexivity].
    + destruct (Byte.eqb c x7d).
      * split; [discriminate|]. intros a r [= _ <-]. lia.
      * split; [discriminate|]. intros a r [=].
  - split; [discriminate|]. intros a r [=].
  - split; [|intros a r [=]]. intros Hfuel _. apply Hf; [lia|reflexivity].
Qed.

Lemma parse_elements_step (fuel : nat) :
  parser_ok 0 parse_value fuel -> parser_ok 1 parse_elements fuel ->
  parser_ok 1 parse_elements (S fuel).
Proof.
  intros Hv He depth s. unfold enough_fuel. cbn [parse_elements].
  destruct (Hv depth s) as [Hf Hl]. unfold enough_fuel in Hf.
  destruct (parse_value fuel depth s) as [v r0| |].
  - specialize (Hl v r0 eq_refl).
    destruct (skip_ws r0) as [|c r1] eqn:Hs.
    { split; [discriminate|]. intros a r [=]. }
    apply skip_ws_cons_length in Hs.
    destruct (Byte.eqb c x2c).
    + destruct (He depth r1) as [Hf' Hl']. unfold enough_fuel in Hf'.
      destruct (parse_elements fuel depth r1) as [vs r2| |].
      * split; [discriminate|]. intros a r [= _ <-].
        specialize (Hl' vs r2 eq_refl). lia.
      * split; [discriminate|]. intros a r [=].
      * split; [|intros a r [=]]. intros Hfuel _. apply Hf'; [lia|reflexivity].
    + destruct (Byte.eqb c x5d).
      * split; [discriminate|]. intros a r [= _ <-]. lia.
      * split; [discriminate|]. intros a r [=].
  - split; [discriminate|]. intros a r [=].
  - split; [|intros a r [=]]. intros Hfuel _. apply Hf; [lia|reflexivity].
Qed.

Lemma parser_ok_all (fuel : nat) :
  parser_ok 0 parse_value fuel
  /\ parser_ok 0 parse_members fuel
  /\ parser_ok 1 parse_elements fuel.
Proof.
  induction fuel as [|fuel [Hv [Hm He]]].
  - repeat split; unfold enough_fuel; try lia; cbn; intros a r [=].
  - split; [|split].
    + now apply parse_value_step.
    + now apply parse_members_step.
    + now apply parse_elements_step.
Qed.

(** [parse] never fails for want of fuel. *)
Theorem parse_value_fuel (data : list byte) :
  parse_value (S (2 * length data)) 0 data <> PFuel.
Proof.
  destruct (parser_ok_all (S (2 * length data))) as [Hv _].
  apply Hv. unfold enough_fuel. lia.
Qed.

(** ** C8: encoding a record and decoding it again *)

(** *** Bits and bytes of UTF-8 *)

Lemma z2b_b2z (b : byte) : z2b (b2z b) = b.
Proof. destruct b; reflexivity. Qed.

Lemma b2z_range (b : byte) : 0 <= b2z b < 256.
Proof.
  unfold b2z. pose proof (Byte.to_N_bounded b). lia.
Qed.

Lemma land_shiftl_small (hi lo n : Z) :
  0 <= n -> 0 <= lo < 2 ^ n -> Z.land (hi * 2 ^ n) lo = 0.
Proof.
  intros Hn Hlo. apply Z.bits_inj'. intros m Hm.
  rewrite Z.land_spec, Z.bits_0.
  destruct (Z.lt_ge_cases m n) as [Hlt|Hge].
  - rewrite <- Z.shiftl_mul_pow2 by lia. rewrite Z.shiftl_spec_low by lia. reflexivity.
  - destruct (Z.eq_dec lo 0) as [->|Hne].
    + rewrite Z.bits_0. apply andb_false_r.
    + rewrite (Z.bits_above_log2 lo m); [apply andb_false_r | lia |].
      assert (Z.log2 lo < n) by (apply Z.log2_lt_pow2; lia). lia.
Qed.

Lemma lor_disjoint (a lo n : Z) :
  0 <= n -> 0 <= lo < 2 ^ n -> a mod 2 ^ n = 0 -> Z.lor a lo = a + lo.
Proof.
  intros Hn Hlo Ha.
  assert (Hp : 0 < 2 ^ n) by (apply Z.pow_pos_nonneg; lia).
  assert (Ha' : a = (a / 2 ^ n) * 2 ^ n).
  { pose proof (Z.div_mod a (2 ^ n)). lia. }
  pose proof (Z.add_lor_land a lo) as H.
  rewrite Ha' in H at 2. rewrite land_shiftl_small in H by lia. lia.
Qed.

Lemma land_mask (v n lo : Z) :
  0 <= n -> lo mod 2 ^ n = 0 -> lo <= v < lo + 2 ^ n ->
  Z.land v (Z.ones n) = v - lo.
Proof.
  intros Hn Hlo Hv. rewrite Z.land_ones by lia.
  assert (Hp : 0 < 2 ^ n) by (apply Z.pow_pos_nonneg; lia).
  pose proof (Z.div_mod lo (2 ^ n)) as Hd.
  symmetry. apply (Z.mod_unique_pos v (2 ^ n) (lo / 2 ^ n) (v - lo)); lia.
Qed.

Lemma land_maskx (v : Z) : 0x80 <= v <= 0xBF -> Z.land v utf8.maskx = v - 0x80.
Proof. intros H. apply (land_mask v 6 0x80); [lia | reflexivity | cbn; lia]. Qed.

Lemma land_mask2 (v : Z) : 0xC0 <= v <= 0xDF -> Z.land v utf8.mask2 = v - 0xC0.
Proof. intros H. apply (land_mask v 5 0xC0); [lia | reflexivity | cbn; lia]. Qed.

Lemma land_mask3 (v : Z) : 0xE0 <= v <= 0xEF -> Z.land v utf8.mask3 = v - 0xE0.
Proof. intros H. apply (land_mask v 4 0xE0); [lia | reflexivity | cbn; lia]. Qed.

Lemma land_mask4 (v : Z) : 0xF0 <= v <= 0xF7 -> Z.land v utf8.mask4 = v - 0xF0.
Proof. intros H. apply (land_mask v 3 0xF0); [lia | reflexivity | cbn; lia]. Qed.

(** The rune of a sequence, as a sum. *)
Lemma rune2 (x0 x1 : Z) :
  0 <= x0 < 32 -> 0 <= x1 < 64 ->
  Z.lor (Z.shiftl x0 6) x1 = x0 * 64 + x1.
Proof.
  intros H0 H1. rewrite Z.shiftl_mul_pow2 by lia. change (2 ^ 6) with 64.
  apply (lor_disjoint _ _ 6); [lia | cbn; lia | apply Z.mod_mul; lia].
Qed.

Lemma rune3 (x0 x1 x2 : Z) :
  0 <= x0 < 16 -> 0 <= x1 < 64 -> 0 <= x2 < 64 ->
  Z.lor (Z.lor (Z.shiftl x0 12) (Z.shiftl x1 6)) x2 = x0 * 4096 + x1 * 64 + x2.
Proof.
  intros H0 H1 H2. rewrite !Z.shiftl_mul_pow2 by lia.
  change (2 ^ 6) with 64. change (2 ^ 12) with 4096.
  rewrite (lor_disjoint (x0 * 4096) (x1 * 64) 12);
    [| lia | cbn; lia | change (2 ^ 12) with 4096; apply Z.mod_mul; lia].
  apply (lor_disjoint _ _ 6); [lia | cbn; lia |].
  change (2 ^ 6) with 64.
  replace (x0 * 4096 + x1 * 64) with ((x0 * 64 + x1) * 64) by ring.
  apply Z.mod_mul; lia.
Qed.

Lemma rune4 (x0 x1 x2 x3 : Z) :
  0 <= x0 < 8 -> 0 <= x1 < 64 -> 0 <= x2 < 64 -> 0 <= x3 < 64 ->
  Z.lor (Z.lor (Z.lor (Z.shiftl x0 18) (Z.shiftl x1 12)) (Z.shiftl x2 6)) x3
  = x0 * 262144 + x1 * 4096 + x2 * 64 + x3.
Proof.
  intros H0 H1 H2 H3. rewrite !Z.shiftl_mul_pow2 by lia.
  change (2 ^ 6) with 64. change (2 ^ 12) with 4096. change (2 ^ 18) with 262144.
  rewrite (lor_disjoint (x0 * 262144) (x1 * 4096) 18);
    [| lia | cbn; lia | change (2 ^ 18) with 262144; apply Z.mod_mul; lia].
  rewrite (lor_disjoint (x0 * 262144 + x1 * 4096) (x2 * 64) 12);
    [| lia | cbn; lia |].
  2:{ change (2 ^ 12) with 4096.
      replace (x0 * 262144 + x1 * 4096) with ((x0 * 64 + x1) * 4096) by ring.
      apply Z.mod_mul; lia. }
  apply (lor_disjoint _ _ 6); [lia | cbn; lia |].
  change (2 ^ 6) with 64.
  replace (x0 * 262144 + x1 * 4096 + x2 * 64)
    with ((x0 * 4096 + x1 * 64 + x2) * 64) by ring.
  apply Z.mod_mul; lia.
Qed.

Lemma EncodeRune2 (x0 x1 : Z) :
  2 <= x0 < 32 -> 0 <= x1 < 64 ->
  utf8.EncodeRune (x0 * 64 + x1) = [z2b (0xC0 + x0); z2b (0x80 + x1)].
Proof.
  intros H0 H1. unfold utf8.EncodeRune.
  set (r := x0 * 64 + x1).
  assert (Hr : 0x80 <= r <= 0x7FF) by (subst r; lia).
  replace ((0 <=? r) && (r <=? 0x7F)) with false by (symmetry; apply andb_false_iff; right; apply Z.leb_gt; lia).
  replace ((0 <=? r) && (r <=? 0x7FF)) with true by (symmetry; apply andb_true_iff; split; apply Z.leb_le; lia).
  rewrite Z.shiftr_div_pow2 by lia. change (2 ^ 6) with 64.
  change utf8.maskx with (Z.ones 6). rewrite Z.land_ones by lia. change (2 ^ 6) with 64.
  assert (Hq : r / 64 = x0) by (subst r; Z.div_mod_to_equations; lia).
  assert (Hm : r mod 64 = x1) by (subst r; Z.div_mod_to_equations; lia).
  rewrite Hq, Hm.
  rewrite (lor_disjoint utf8.t2 x0 5) by (cbn; try reflexivity; lia).
  rewrite (lor_disjoint utf8.tx x1 6) by (cbn; try reflexivity; lia).
  reflexivity.
Qed.

Lemma EncodeRune3 (x0 x1 x2 : Z) :
  0 <= x0 < 16 -> 0 <= x1 < 64 -> 0 <= x2 < 64 ->
  0x800 <= x0 * 4096 + x1 * 64 + x2 ->
  ~ (0xD800 <= x0 * 4096 + x1 * 64 + x2 <= 0xDFFF) ->
  utf8.EncodeRune (x0 * 4096 + x1 * 64 + x2)
  = [z2b (0xE0 + x0); z2b (0x80 + x1); z2b (0x80 + x2)].
Proof.
  intros H0 H1 H2 Hlo Hsur. unfold utf8.EncodeRune.
  set (r := x0 * 4096 + x1 * 64 + x2) in *.
  assert (Hr : r <= 0xFFFF) by (subst r; lia).
  replace ((0 <=? r) && (r <=? 0x7F)) with false by (symmetry; apply andb_false_iff; right; apply Z.leb_gt; lia).
  replace ((0 <=? r) && (r <=? 0x7FF)) with false by (symmetry; apply andb_false_iff; right; apply Z.leb_gt; lia).
  replace ((r <? 0) || (utf8.MaxRune <? r) || ((utf8.surrogateMin <=? r) && (r <=? utf8.surrogateMax)))
    with false.
  2:{ symmetry. unfold utf8.MaxRune, utf8.surrogateMin, utf8.surrogateMax.
      apply orb_false_iff; split; [apply orb_false_iff; split; apply Z.ltb_ge; lia|].
      apply andb_false_iff.
      destruct (Z.le_gt_cases 0xD800 r); [right; apply Z.leb_gt; lia | left; apply Z.leb_gt; lia]. }
  replace (r <=? 0xFFFF) with true by (symmetry; apply Z.leb_le; lia).
  unfold utf8.encode3.
  rewrite !Z.shiftr_div_pow2 by lia. change (2 ^ 6) with 64. change (2 ^ 12) with 4096.
  change utf8.maskx with (Z.ones 6). rewrite !Z.land_ones by lia. change (2 ^ 6) with 64.
  assert (Hq : r / 4096 = x0) by (subst r; Z.div_mod_to_equations; lia).
  assert (Hm1 : (r / 64) mod 64 = x1) by (subst r; Z.div_mod_to_equations; lia).
  assert (Hm2 : r mod 64 = x2) by (subst r; Z.div_mod_to_equations; lia).
  rewrite Hq, Hm1, Hm2.
  rewrite (lor_disjoint utf8.t3 x0 4) by (cbn; try reflexivity; lia).
  rewrite (lor_disjoint utf8.tx x1 6) by (cbn; try reflexivity; lia).
  rewrite (lor_disjoint utf8.tx x2 6) by (cbn; try reflexivity; lia).
  reflexivity.
Qed.

Lemma EncodeRune4 (x0 x1 x2 x3 : Z) :
  0 <= x0 < 8 -> 0 <= x1 < 64 -> 0 <= x2 < 64 -> 0 <= x3 < 64 ->
  0x10000 <= x0 * 262144 + x1 * 4096 + x2 * 64 + x3 <= 0x10FFFF ->
  utf8.EncodeRune (x0 * 262144 + x1 * 4096 + x2 * 64 + x3)
  = [z2b (0xF0 + x0); z2b (0x80 + x1); z2b (0x80 + x2); z2b (0x80 + x3)].
Proof.
  intros H0 H1 H2 H3 Hr. unfold utf8.EncodeRune.
  set (r := x0 * 262144 + x1 * 4096 + x2 * 64 + x3) in *.
  replace ((0 <=? r) && (r <=? 0x7F)) with false by (symmetry; apply andb_false_iff; right; apply Z.leb_gt; lia).
  replace ((0 <=? r) && (r <=? 0x7FF)) with false by (symmetry; apply andb_false_iff; right; apply Z.leb_gt; lia).
  replace ((r <? 0) || (utf8.MaxRune <? r) || ((utf8.surrogateMin <=? r) && (r <=? utf8.surrogateMax)))
    with false.
  2:{ symmetry. unfold utf8.MaxRune, utf8.surrogateMin, utf8.surrogateMax.
      apply orb_false_iff; split; [apply orb_false_iff; split; apply Z.ltb_ge; lia|].
      apply andb_false_iff. right; apply Z.leb_gt; lia. }
  replace (r <=? 0xFFFF) with false by (symmetry; apply Z.leb_gt; lia).
  rewrite !Z.shiftr_div_pow2 by lia.
  change (2 ^ 6) with 64. change (2 ^ 12) with 4096. change (2 ^ 18) with 262144.
  change utf8.maskx with (Z.ones 6). rewrite !Z.land_ones by lia. change (2 ^ 6) with 64.
  assert (Hq : r / 262144 = x0) by (subst r; Z.div_mod_to_equations; lia).
  assert (Hm1 : (r / 4096) mod 64 = x1) by (subst r; Z.div_mod_to_equations; lia).
  assert (Hm2 : (r / 64) mod 64 = x2) by (subst r; Z.div_mod_to_equations; lia).
  assert (Hm3 : r mod 64 = x3) by (subst r; Z.div_mod_to_equations; lia).
  rewrite Hq, Hm1, Hm2, Hm3.
  rewrite (lor_disjoint utf8.t4 x0 3) by (cbn; try reflexivity; lia).
  rewrite !(lor_disjoint utf8.tx _ 6) by (cbn; try reflexivity; lia).
  reflexivity.
Qed.

Lemma first_AS (p0 : Z) : utf8.first p0 = utf8.AS -> p0 < 0x80.
Proof.
  unfold utf8.first.
  repeat match goal with
         | |- context [if ?c then _ else _] => destruct c eqn:?
         end; try discriminate.
  intros _. lia.
Qed.

Lemma first_Seq (p0 : Z) (sz : nat) (lo hi : Z) :
  utf8.first p0 = utf8.Seq sz lo hi ->
  (sz = 2%nat /\ lo = 0x80 /\ hi = 0xBF /\ 0xC2 <= p0 <= 0xDF)
  \/ (sz = 3%nat /\ 0xE0 <= p0 <= 0xEF /\ 0x80 <= lo /\ hi <= 0xBF
      /\ (p0 = 0xE0 -> lo = 0xA0) /\ (p0 = 0xED -> hi = 0x9F))
  \/ (sz = 4%nat /\ 0xF0 <= p0 <= 0xF4 /\ 0x80 <= lo /\ hi <= 0xBF
      /\ (p0 = 0xF0 -> lo = 0x90) /\ (p0 = 0xF4 -> hi = 0x8F)).
Proof.
  unfold utf8.first, utf8.locb, utf8.hicb.
  repeat match goal with
         | |- context [if ?c then _ else _] => destruct c eqn:?
         end; try discriminate; intros [= <- <- <-];
    [left | right; left | right; left | right; left | right; left
     | right; right | right; right | right; right];
    repeat split; lia.
Qed.

(** A sequence of more than one byte that [DecodeRune] accepts is the
    encoding of the rune it returns, and the bytes after it play no part. *)
Lemma DecodeRune_multibyte (b : byte) (t : list byte) (c : Z) (sz : nat) :
  0x80 <= b2z b ->
  utf8.DecodeRune (b :: t) = (c, sz) ->
  (sz = 1%nat /\ c = utf8.RuneError)
  \/ (sz = 2%nat /\ exists b1 t1, t = b1 :: t1
        /\ utf8.EncodeRune c = [b; b1]
        /\ forall X, utf8.DecodeRune (b :: b1 :: X) = (c, 2%nat))
  \/ (sz = 3%nat /\ exists b1 b2 t2, t = b1 :: b2 :: t2
        /\ utf8.EncodeRune c = [b; b1; b2]
        /\ forall X, utf8.DecodeRune (b :: b1 :: b2 :: X) = (c, 3%nat))
  \/ (sz = 4%nat /\ exists b1 b2 b3 t3, t = b1 :: b2 :: b3 :: t3
        /\ utf8.EncodeRune c = [b; b1; b2; b3]
        /\ forall X, utf8.DecodeRune (b :: b1 :: b2 :: b3 :: X) = (c, 4%nat)).
Proof.
  intros Hb H. pose proof (b2z_range b) as Hrb.
  unfold utf8.DecodeRune in H. cbv zeta in H.
  destruct (utf8.first (b2z b)) as [| |n lo hi] eqn:Hf.
  { apply first_AS in Hf. lia. }
  { injection H as <- <-. left. split; reflexivity. }
  destruct ((length (b :: t) <? n)%nat) eqn:Hlen.
  { injection H as <- <-. left. split; reflexivity. }
  destruct t as [|b1 t1].
  { injection H as <- <-. left. split; reflexivity. }
  pose proof (b2z_range b1) as Hr1.
  destruct ((b2z b1 <? lo) || (hi <? b2z b1)) eqn:Hacc.
  { injection H as <- <-. left. split; reflexivity. }
  apply orb_false_iff in Hacc. destruct Hacc as [Hlo Hhi].
  apply Z.ltb_ge in Hlo, Hhi.
  apply first_Seq in Hf as Hseq.
  destruct Hseq as [(-> & -> & -> & Hp) | [(-> & Hp & Hl & Hh & HE0 & HED)
                                          | (-> & Hp & Hl & Hh & HF0 & HF4)]].
  - (* two bytes *)
    cbn [Nat.leb] in H. injection H as <- <-. right; left. split; [reflexivity|].
    exists b1, t1. split; [reflexivity|].
    rewrite land_mask2, land_maskx by lia.
    rewrite rune2 by lia. split.
    + rewrite EncodeRune2 by lia.
      replace (0xC0 + (b2z b - 0xC0)) with (b2z b) by lia.
      replace (0x80 + (b2z b1 - 0x80)) with (b2z b1) by lia.
      now rewrite !z2b_b2z.
    + intros X. unfold utf8.DecodeRune. cbv zeta. rewrite Hf.
      cbn [length Nat.ltb Nat.leb].
      replace ((b2z b1 <? 128) || (191 <? b2z b1)) with false
        by (symmetry; apply orb_false_iff; split; apply Z.ltb_ge; lia).
      rewrite land_mask2, land_maskx by lia. rewrite rune2 by lia. reflexivity.
  - (* three bytes *)
    cbn [Nat.leb] in H.
    destruct t1 as [|b2 t2].
    { injection H as <- <-. left. split; reflexivity. }
    pose proof (b2z_range b2) as Hr2.
    destruct (negb (utf8.continuation (b2z b2))) eqn:Hc2.
    { injection H as <- <-. left. split; reflexivity. }
    apply negb_false_iff in Hc2. unfold utf8.continuation in Hc2.
    apply andb_true_iff in Hc2. destruct Hc2 as [Hc2a Hc2b].
    apply Z.leb_le in Hc2a, Hc2b. unfold utf8.locb, utf8.hicb in *.
    injection H as <- <-. right; right; left. split; [reflexivity|].
    exists b1, b2, t2. split; [reflexivity|].
    rewrite land_mask3, !land_maskx by lia.
    rewrite rune3 by lia. split.
    + rewrite EncodeRune3 by lia.
      replace (0xE0 + (b2z b - 0xE0)) with (b2z b) by lia.
      replace (0x80 + (b2z b1 - 0x80)) with (b2z b1) by lia.
      replace (0x80 + (b2z b2 - 0x80)) with (b2z b2) by lia.
      now rewrite !z2b_b2z.
    + intros X. unfold utf8.DecodeRune. cbv zeta. rewrite Hf.
      cbn [length Nat.ltb Nat.leb].
      replace ((b2z b1 <? lo) || (hi <? b2z b1)) with false
        by (symmetry; apply orb_false_iff; split; apply Z.ltb_ge; lia).
      replace (negb (utf8.continuation (b2z b2))) with false.
      2:{ symmetry. apply negb_false_iff. unfold utf8.continuation, utf8.locb, utf8.hicb.
          apply andb_true_iff; split; apply Z.leb_le; lia. }
      rewrite land_mask3, !land_maskx by lia. rewrite rune3 by lia. reflexivity.
  - (* four bytes *)
    cbn [Nat.leb] in H.
    destruct t1 as [|b2 t2].
    { injection H as <- <-. left. split; reflexivity. }
    pose proof (b2z_range b2) as Hr2.
    destruct (negb (utf8.continuation (b2z b2))) eqn:Hc2.
    { injection H as <- <-. left. split; reflexivity. }
    apply negb_false_iff in Hc2. unfold utf8.continuation in Hc2.
    apply andb_true_iff in Hc2. destruct Hc2 as [Hc2a Hc2b].
    apply Z.leb_le in Hc2a, Hc2b.
    destruct t2 as [|b3 t3].
    { injection H as <- <-. left. split; reflexivity. }
    pose proof (b2z_range b3) as Hr3.
    destruct (negb (utf8.continuation (b2z b3))) eqn:Hc3.
    { injection H as <- <-. left. split; reflexivity. }
    apply negb_false_iff in Hc3. unfold utf8.continuation in Hc3.
    apply andb_true_iff in Hc3. destruct Hc3 as [Hc3a Hc3b].
    apply Z.leb_le in Hc3a, Hc3b. unfold utf8.locb, utf8.hicb in *.
    injection H as <- <-. right; right; right. split; [reflexivity|].
    exists b1, b2, b3, t3. split; [reflexivity|].
    rewrite land_mask4, !land_maskx by lia.
    rewrite rune4 by lia. split.
    + rewrite EncodeRune4 by lia.
      replace (0xF0 + (b2z b - 0xF0)) with (b2z b) by lia.
      replace (0x80 + (b2z b1 - 0x80)) with (b2z b1) by lia.
      replace (0x80 + (b2z b2 - 0x80)) with (b2z b2) by lia.
      replace (0x80 + (b2z b3 - 0x80)) with (b2z b3) by lia.
      now rewrite !z2b_b2z.
    + intros X. unfold utf8.DecodeRune. cbv zeta. rewrite Hf.
      cbn [length Nat.ltb Nat.leb].
      replace ((b2z b1 <? lo) || (hi <? b2z b1)) with false
        by (symmetry; apply orb_false_iff; split; apply Z.ltb_ge; lia).
      replace (negb (utf8.continuation (b2z b2))) with false.
      2:{ symmetry. apply negb_false_iff. unfold utf8.continuation, utf8.locb, utf8.hicb.
          apply andb_true_iff; split; apply Z.leb_le; lia. }
      replace (negb (utf8.continuation (b2z b3))) with false.
      2:{ symmetry. apply negb_false_iff. unfold utf8.continuation, utf8.locb, utf8.hicb.
          apply andb_true_iff; split; apply Z.leb_le; lia. }
      rewrite land_mask4, !land_maskx by lia. rewrite rune4 by lia. reflexivity.
Qed.

(** *** String literals *)

(** An ASCII byte and what the encoder writes for it. *)
Lemma unquote_escape_ascii (b : byte) (X : list byte) :
  b2z b < 0x80 -> unquote (escape_ascii b ++ X) = cons_ok [b] (unquote X).
Proof.
  destruct b; intros H; try (vm_compute in H; discriminate); reflexivity.
Qed.

Lemma eqb_high (b c : byte) : 0x80 <= b2z b -> b2z c < 0x80 -> Byte.eqb b c = false.
Proof.
  intros Hb Hc. destruct (Byte.eqb b c) eqn:E; [|reflexivity].
  apply Byte.byte_dec_bl in E. subst c. lia.
Qed.

Lemma unquote_high (b : byte) (t : list byte) :
  0x80 <= b2z b ->
  unquote (b :: t)
  = let '(rr, size) := utf8.DecodeRune (b :: t) in
    match size, t with
    | 1%nat, _ => cons_ok (utf8.EncodeRune rr) (unquote t)
    | 2%nat, _ :: t1 => cons_ok (utf8.EncodeRune rr) (unquote t1)
    | 3%nat, _ :: _ :: t2 => cons_ok (utf8.EncodeRune rr) (unquote t2)
    | 4%nat, _ :: _ :: _ :: t3 => cons_ok (utf8.EncodeRune rr) (unquote t3)
    | _, _ => None
    end.
Proof.
  intros Hb. cbn [unquote].
  rewrite (eqb_high b x22), (eqb_high b x5c) by (try exact Hb; reflexivity).
  replace (b2z b <? 32) with false by (symmetry; apply Z.ltb_ge; lia).
  replace (b2z b <? utf8.RuneSelf) with false
    by (symmetry; apply Z.ltb_ge; unfold utf8.RuneSelf; lia).
  reflexivity.
Qed.

Lemma unquote_escape_rune (c : Z) (raw X : list byte) :
  utf8.EncodeRune c = raw ->
  unquote (raw ++ X) = cons_ok raw (unquote X) ->
  unquote (escape_rune c raw ++ X) = cons_ok raw (unquote X).
Proof.
  intros Henc Hraw. unfold escape_rune.
  destruct ((c =? 0x2028) || (c =? 0x2029)) eqn:Hc; [|exact Hraw].
  apply orb_true_iff in Hc. rewrite <- Henc.
  destruct Hc as [Hc|Hc]; apply Z.eqb_eq in Hc; subst c; reflexivity.
Qed.

Lemma escape_low (b : byte) (t : list byte) :
  b2z b < 0x80 -> escape (b :: t) = escape_ascii b ++ escape t.
Proof.
  intros Hb. cbn [escape].
  replace (b2z b <? utf8.RuneSelf) with true
    by (symmetry; apply Z.ltb_lt; unfold utf8.RuneSelf; lia).
  reflexivity.
Qed.

Lemma escape_high (b : byte) (t : list byte) :
  0x80 <= b2z b ->
  escape (b :: t)
  = let '(c, size) := utf8.DecodeRune (b :: t) in
    match size, t with
    | 2%nat, b1 :: t1 => escape_rune c [b; b1] ++ escape t1
    | 3%nat, b1 :: b2 :: t2 => escape_rune c [b; b1; b2] ++ escape t2
    | 4%nat, b1 :: b2 :: b3 :: t3 => escape_rune c [b; b1; b2; b3] ++ escape t3
    | _, _ => bytes_of "\ufffd" ++ escape t
    end.
Proof.
  intros Hb. cbn [escape].
  replace (b2z b <? utf8.RuneSelf) with false
    by (symmetry; apply Z.ltb_ge; unfold utf8.RuneSelf; lia).
  reflexivity.
Qed.

Lemma DecodeRune_low (b : byte) (t : list byte) :
  b2z b < 0x80 -> utf8.DecodeRune (b :: t) = (b2z b, 1%nat).
Proof.
  intros Hb. unfold utf8.DecodeRune, utf8.first. cbv zeta.
  replace (b2z b <? 128) with true by (symmetry; apply Z.ltb_lt; lia).
  reflexivity.
Qed.

(** What the encoder writes for a valid UTF-8 text, followed by the closing
    quote, is read back as that text. *)
Lemma unquote_escape (n : nat) (p rest : list byte) :
  (length p <= n)%nat -> utf8.Valid_fuel n p = true ->
  unquote (escape p ++ x22 :: rest) = Some (p, rest).
Proof.
  revert p. induction n as [|n IH]; intros p Hlen Hv.
  { destruct p; [reflexivity | cbn in Hlen; lia]. }
  destruct p as [|b t]; [reflexivity|].
  cbn [length] in Hlen. cbn [utf8.Valid_fuel] in Hv.
  destruct (Z.lt_ge_cases (b2z b) 0x80) as [Hb|Hb].
  - rewrite DecodeRune_low in Hv by exact Hb.
    destruct (b2z b =? utf8.RuneError); [discriminate|].
    cbn [drop] in Hv.
    rewrite escape_low by exact Hb. rewrite <- app_assoc.
    rewrite unquote_escape_ascii by exact Hb.
    rewrite IH by (try exact Hv; lia). reflexivity.
  - rewrite escape_high by exact Hb.
    destruct (utf8.DecodeRune (b :: t)) as [c sz] eqn:Hd.
    destruct (DecodeRune_multibyte b t c sz Hb Hd)
      as [[-> ->] | [[-> (b1 & t1 & -> & Henc & HX)]
                    | [[-> (b1 & b2 & t2 & -> & Henc & HX)]
                      | [-> (b1 & b2 & b3 & t3 & -> & Henc & HX)]]]].
    + discriminate.
    + cbn [drop] in Hv. rewrite <- app_assoc.
      rewrite (unquote_escape_rune c [b; b1]); [| exact Henc |].
      * rewrite IH by (try exact Hv; cbn [length] in Hlen; lia). reflexivity.
      * cbn [app]. rewrite unquote_high by exact Hb. rewrite HX, Henc. reflexivity.
    + cbn [drop] in Hv. rewrite <- app_assoc.
      rewrite (unquote_escape_rune c [b; b1; b2]); [| exact Henc |].
      * rewrite IH by (try exact Hv; cbn [length] in Hlen; lia). reflexivity.
      * cbn [app]. rewrite unquote_high by exact Hb. rewrite HX, Henc. reflexivity.
    + cbn [drop] in Hv. rewrite <- app_assoc.
      rewrite (unquote_escape_rune c [b; b1; b2; b3]); [| exact Henc |].
      * rewrite IH by (try exact Hv; cbn [length] in Hlen; lia). reflexivity.
      * cbn [app]. rewrite unquote_high by exact Hb. rewrite HX, Henc. reflexivity.
Qed.

(** *** The text of a record *)

Lemma bytes_of_append (s1 s2 : string) :
  bytes_of (s1 +:+ s2) = bytes_of s1 ++ bytes_of s2.
Proof.
  unfold bytes_of, list_byte_of_string.
  induction s1 as [|c s1 IH]; [reflexivity|].
  change (List.map byte_of_ascii (list_ascii_of_string (String c s1 +:+ s2)))
    with (byte_of_ascii c :: List.map byte_of_ascii (list_ascii_of_string (s1 +:+ s2))).
  rewrite IH. reflexivity.
Qed.

Lemma scan_number_first (c : byte) (t lit r : list byte) :
  scan_number (c :: t) = Some (lit, r) -> isSpace c = false /\ start_of c = SOther.
Proof.
  unfold scan_number, opt_sign.
  destruct (Byte.eqb c x2d || Byte.eqb c x2d) eqn:E.
  - apply orb_true_iff in E. assert (c = x2d) by (destruct E as [E|E]; now apply Byte.byte_dec_bl in E).
    subst c. intros _. split; reflexivity.
  - destruct (negb (strconv.is_digit c)) eqn:Hd; [discriminate|].
    intros _. apply negb_false_iff in Hd.
    destruct c; try (vm_compute in Hd; discriminate); split; reflexivity.
Qed.

Lemma parse_number (f : nat) (depth : Z) (num rest : list byte) :
  scan_number (num ++ x7d :: rest) = Some (num, x7d :: rest) ->
  parse_value (S f) depth (num ++ x7d :: rest)
  = POk (JNumber (string_of num)) (x7d :: rest).
Proof.
  intros Hs. pose proof (scan_number_app _ _ _ Hs) as [_ Hne].
  destruct num as [|c num']; [congruence|].
  cbn [app] in *. pose proof (scan_number_first _ _ _ _ Hs) as [Hsp Hst].
  cbn [parse_value skip_ws]. rewrite Hsp, Hst, Hs. reflexivity.
Qed.

Lemma parse_string (f : nat) (depth : Z) (s : string) (rest : list byte) :
  utf8.Valid (bytes_of s) = true ->
  parse_value (S f) depth (appendString s ++ rest) = POk (JString s) rest.
Proof.
  intros Hv. unfold appendString. cbn [app parse_value skip_ws].
  change (isSpace x22) with false. cbv iota. change (start_of x22) with SString. cbv iota.
  rewrite <- app_assoc. cbn [app].
  rewrite (unquote_escape (length (bytes_of s))) by (try exact Hv; lia).
  now rewrite string_of_bytes_of.
Qed.

(** One step of the descent on an object that starts with a key. *)
Lemma parse_object_open (f : nat) (depth : Z) (t : list byte) :
  parse_value (S f) depth (x7b :: x22 :: t)
  = if maxNestingDepth <? depth + 1 then PErr else
    match parse_members f (depth + 1) (x22 :: t) with
    | POk kvs r => POk (JObject kvs) r
    | PErr => PErr
    | PFuel => PFuel
    end.
Proof. reflexivity. Qed.

Lemma parse_member_name (f : nat) (depth : Z) (t : list byte) :
  parse_members (S f) depth (x22 :: x6e :: x61 :: x6d :: x65 :: x22 :: x3a :: t)
  = after_member f depth "name" (parse_value f depth t).
Proof. reflexivity. Qed.

Lemma parse_member_main (f : nat) (depth : Z) (t : list byte) :
  parse_members (S f) depth (x22 :: x6d :: x61 :: x69 :: x6e :: x22 :: x3a :: t)
  = after_member f depth "main" (parse_value f depth t).
Proof. reflexivity. Qed.

Lemma parse_member_temp (f : nat) (depth : Z) (t : list byte) :
  parse_members (S f) depth (x22 :: x74 :: x65 :: x6d :: x70 :: x22 :: x3a :: t)
  = after_member f depth "temp" (parse_value f depth t).
Proof. reflexivity. Qed.

Lemma parse_main (f : nat) (depth : Z) (num rest : list byte) :
  depth + 1 <= maxNestingDepth ->
  scan_number (num ++ x7d :: rest) = Some (num, x7d :: rest) ->
  parse_value (S (S (S f))) depth (temp_key ++ num ++ x7d :: rest)
  = POk (JObject [("temp", JNumber (string_of num))]) rest.
Proof.
  intros Hd Hs.
  change temp_key with [x7b; x22; x74; x65; x6d; x70; x22; x3a].
  cbn [app]. rewrite parse_object_open.
  replace (maxNestingDepth <? depth + 1) with false by (symmetry; apply Z.ltb_ge; lia).
  rewrite parse_member_temp, parse_number by exact Hs.
  reflexivity.
Qed.

(** The text of a record is parsed into its two members. *)
Lemma parse_record (name : string) (num : list byte) :
  utf8.Valid (bytes_of name) = true ->
  (forall rest, scan_number (num ++ x7d :: rest) = Some (num, x7d :: rest)) ->
  json.parse (name_key ++ appendString name ++ main_key
              ++ (temp_key ++ num ++ [x7d]) ++ [x7d] ++ [x0a])
  = Some (JObject [("name", JString name);
                   ("main", JObject [("temp", JNumber (string_of num))])]).
Proof.
  intros Hv Hs. unfold json.parse.
  set (text := name_key ++ _).
  assert (Hfuel : exists k, S (2 * length text) = (6 + k)%nat).
  { exists (2 * length text - 5)%nat. subst text.
    change name_key with [x7b; x22; x6e; x61; x6d; x65; x22; x3a].
    cbn [app length]. lia. }
  destruct Hfuel as [k ->]. subst text.
  change name_key with [x7b; x22; x6e; x61; x6d; x65; x22; x3a].
  change main_key with [x2c; x22; x6d; x61; x69; x6e; x22; x3a].
  cbn [app Nat.add]. rewrite parse_object_open.
  change (maxNestingDepth <? 0 + 1) with false. cbv iota.
  rewrite parse_member_name.
  rewrite parse_string by exact Hv.
  cbn [after_member app skip_ws].
  change (isSpace x2c) with false. cbv iota.
  change (Byte.eqb x2c x2c) with true. cbv iota.
  rewrite parse_member_main.
  rewrite <- !app_assoc. cbn [app].
  rewrite parse_main by (try apply Hs; unfold maxNestingDepth; lia).
  reflexivity.
Qed.

Lemma decode_record (name : string) (num : list byte) (k : float64) :
  strconv.ParseFloat num = (k, None) ->
  decode (JObject [("name", JString name);
                   ("main", JObject [("temp", JNumber (string_of num))])])
         weatherData_zero
  = ({| Name := name; Main := {| Kelvin := k |} |}, None).
Proof.
  intros Hp.
  unfold decode, decode_weatherData, decode_struct.
  cbn [fold_left]. unfold store_member at 2. cbn [fst snd].
  rewrite lookup_field_2 by reflexivity.
  change (name_matches "name" "name") with true. cbv iota.
  unfold on_field at 1. cbn [decode decode_string Name Main first_error fst snd].
  unfold store_member. cbn [fst snd].
  rewrite lookup_field_2 by reflexivity.
  change (name_matches "name" "main") with false.
  change (name_matches "main" "main") with true. cbv iota.
  unfold on_field at 1. cbn [Name Main].
  unfold decode at 1, decode_mainData, decode_struct.
  cbn [fold_left]. unfold store_member. cbn [fst snd].
  rewrite lookup_field_1.
  change (name_matches "temp" "temp") with true. cbv iota.
  unfold on_field. cbn [Kelvin].
  unfold decode, decode_float64.
  rewrite bytes_of_string_of, Hp. reflexivity.
Qed.




Example round_trip_examples :
  Unmarshal (q "{'name':'Z\u00fcrich\n','main':{'temp':-0.0}}") weatherData_zero
  = ({| Name := string_of [x5a; xc3; xbc; x72; x69; x63; x68; x0a]; Main := temp "-0" |}, None)
  /\ EncodeLine {| Name := string_of [x5a; xc3; xbc; x72; x69; x63; x68; x0a];
                   Main := temp "-0" |}
     = inl (q "{'name':'Z" +:+ string_of [xc3; xbc] +:+ q "rich\n','main':{'temp':-0}}" +:+ nl).
Proof. vm_compute. split; reflexivity. Qed.

(** * Further properties of the code *)

(** ** [strings.SplitN]: how many parts, and what they add up to *)

Lemma substring_length (s : string) (n m : nat) :
  String.length (String.substring n m s) = Nat.min m (String.length s - n).
Proof.
  revert n m. induction s as [|c s IH]; intros n m.
  - destruct n, m; reflexivity.
  - destruct n as [|n].
    + destruct m as [|m]; [reflexivity|]. cbn [String.substring String.length].
      rewrite IH. cbn. rewrite Nat.sub_0_r. reflexivity.
    + cbn [String.substring String.length]. rewrite IH. reflexivity.
Qed.

Lemma substring_add (s : string) (n a b : nat) :
  String.substring n (a + b) s
  = String.substring n a s +:+ String.substring (n + a) b s.
Proof.
  revert n a. induction s as [|c s IH]; intros n a.
  - destruct n, a, b; reflexivity.
  - destruct n as [|n].
    + destruct a as [|a]; [reflexivity|].
      cbn [Nat.add String.substring String.append]. rewrite IH. reflexivity.
    + cbn [Nat.add String.substring]. apply IH.
Qed.

Lemma substring_of_prefix (s : string) (j l m : nat) :
  (j + l <= m)%nat ->
  String.substring j l (String.substring 0 m s) = String.substring j l s.
Proof.
  revert j l m. induction s as [|c s IH]; intros j l m H.
  - destruct m; reflexivity.
  - destruct m as [|m].
    + assert (j = 0%nat) by lia. assert (l = 0%nat) by lia. subst. reflexivity.
    + cbn [String.substring]. destruct j as [|j].
      * destruct l as [|l]; [reflexivity|]. cbn [String.substring].
        rewrite (IH 0%nat l m) by lia. reflexivity.
      * cbn [String.substring]. apply IH. lia.
Qed.

Lemma Index_bound (s sep : string) (m : nat) :
  sep <> "" -> Strings.Index s sep = Some m ->
  (m + String.length sep <= String.length s)%nat.
Proof.
  intros Hsep H. unfold Strings.Index in H. apply index_correct1 in H.
  pose proof (substring_length s m (String.length sep)) as Hl.
  rewrite H in Hl. destruct sep as [|c sep]; [congruence|].
  cbn [String.length] in *. lia.
Qed.

Lemma slice_from_length (s : string) (i : nat) :
  String.length (Strings.slice_from s i) = (String.length s - i)%nat.
Proof. unfold Strings.slice_from. rewrite substring_length. lia. Qed.

(** A text is what precedes the separator, the separator and what follows it. *)
Lemma Index_cut (s sep : string) (m : nat) :
  sep <> "" -> Strings.Index s sep = Some m ->
  s = Strings.slice_to s m +:+ sep +:+ Strings.slice_from s (m + String.length sep).
Proof.
  intros Hsep H. pose proof (Index_bound s sep m Hsep H) as Hb.
  unfold Strings.Index in H. apply index_correct1 in H.
  unfold Strings.slice_to, Strings.slice_from.
  set (r := (String.length s - (m + String.length sep))%nat).
  assert (E : String.substring m (String.length sep + r) s
              = sep +:+ String.substring (m + String.length sep) r s).
  { rewrite substring_add, H. reflexivity. }
  rewrite <- E. change m with (0 + m)%nat at 2. rewrite <- substring_add.
  replace (m + (String.length sep + r))%nat with (String.length s) by lia.
  symmetry. apply substring_whole.
Qed.

(** The separator does not occur before its first occurrence. *)
Lemma Index_first (s sep : string) (m : nat) :
  sep <> "" -> Strings.Index s sep = Some m ->
  Strings.Index (Strings.slice_to s m) sep = None.
Proof.
  intros Hsep H. destruct (Strings.Index (Strings.slice_to s m) sep) as [j|] eqn:Hj;
    [|reflexivity].
  exfalso. pose proof (Index_bound _ _ _ Hsep Hj) as Hb.
  unfold Strings.slice_to in Hb. rewrite substring_length in Hb.
  unfold Strings.Index in *. apply index_correct1 in Hj.
  unfold Strings.slice_to in Hj. rewrite substring_of_prefix in Hj by lia.
  assert (Hlen : (0 < String.length sep)%nat).
  { destruct sep; [congruence | cbn; lia]. }
  apply (index_correct2 _ _ _ _ H j); [lia | lia | exact Hj].
Qed.

Lemma Index_empty (sep : string) : sep <> "" -> Strings.Index "" sep = None.
Proof. destruct sep; [congruence | reflexivity]. Qed.

Lemma count_loop_nonneg (fuel : nat) (s sep : string) :
  0 <= Strings.count_loop fuel s sep.
Proof.
  revert s. induction fuel as [|f IH]; intros s; cbn [Strings.count_loop]; [lia|].
  destruct (Strings.Index s sep); [specialize (IH (Strings.slice_from s (n + String.length sep)))|]; lia.
Qed.

(** [Count] has fuel to spare: every occurrence takes at least one byte. *)
Lemma count_loop_enough (sep : string) (f g : nat) (s : string) :
  sep <> "" -> (String.length s <= f)%nat -> (String.length s <= g)%nat ->
  Strings.count_loop f s sep = Strings.count_loop g s sep.
Proof.
  intros Hsep. revert g s. induction f as [|f IH]; intros g s Hf Hg.
  - destruct s; [|cbn in Hf; lia].
    destruct g; [reflexivity|]. cbn [Strings.count_loop].
    rewrite Index_empty by exact Hsep. reflexivity.
  - destruct g as [|g].
    + destruct s; [|cbn in Hg; lia]. cbn [Strings.count_loop].
      rewrite Index_empty by exact Hsep. reflexivity.
    + cbn [Strings.count_loop]. destruct (Strings.Index s sep) as [m|] eqn:Hi; [|reflexivity].
      pose proof (Index_bound _ _ _ Hsep Hi) as Hb.
      assert (Hlen : (0 < String.length sep)%nat).
      { destruct sep; [congruence | cbn; lia]. }
      f_equal. apply IH; rewrite slice_from_length; lia.
Qed.

Lemma Count_None (s sep : string) :
  Strings.Index s sep = None -> Strings.Count s sep = 0.
Proof.
  intros H. unfold Strings.Count. destruct (String.length s); [reflexivity|].
  cbn [Strings.count_loop]. rewrite H. reflexivity.
Qed.

Lemma Count_Some (s sep : string) (m : nat) :
  sep <> "" -> Strings.Index s sep = Some m ->
  Strings.Count s sep
  = 1 + Strings.Count (Strings.slice_from s (m + String.length sep)) sep.
Proof.
  intros Hsep H. pose proof (Index_bound _ _ _ Hsep H) as Hb.
  assert (Hlen : (0 < String.length sep)%nat).
  { destruct sep; [congruence | cbn; lia]. }
  unfold Strings.Count. destruct (String.length s) as [|n] eqn:Hn; [lia|].
  cbn [Strings.count_loop]. rewrite H. f_equal.
  apply count_loop_enough; [exact Hsep | | lia].
  rewrite slice_from_length. lia.
Qed.

Lemma Count_nonneg (s sep : string) : 0 <= Strings.Count s sep.
Proof. apply count_loop_nonneg. Qed.

Lemma Count_bound (s sep : string) :
  sep <> "" -> Strings.Count s sep <= Z.of_nat (String.length s).
Proof.
  intros Hsep. remember (String.length s) as n eqn:Hn. revert s Hn.
  induction n as [n IH] using lt_wf_ind. intros s ->.
  destruct (Strings.Index s sep) as [m|] eqn:Hi.
  - rewrite (Count_Some _ _ _ Hsep Hi).
    pose proof (Index_bound _ _ _ Hsep Hi) as Hb.
    assert (Hlen : (0 < String.length sep)%nat).
    { destruct sep; [congruence | cbn; lia]. }
    pose proof (slice_from_length s (m + String.length sep)) as Hs.
    specialize (IH (String.length (Strings.slice_from s (m + String.length sep)))
                   ltac:(lia) _ eq_refl).
    lia.
  - rewrite Count_None by exact Hi. lia.
Qed.

Lemma split_loop_length (sep : string) (k : nat) (s : string) :
  sep <> "" ->
  Z.of_nat (length (Strings.split_loop k s sep))
  = Z.min (Z.of_nat k + 1) (Strings.Count s sep + 1).
Proof.
  intros Hsep. revert s. induction k as [|k IH]; intros s; cbn [Strings.split_loop].
  - pose proof (Count_nonneg s sep). cbn [length]. lia.
  - destruct (Strings.Index s sep) as [m|] eqn:Hi.
    + cbn [length]. rewrite (Count_Some _ _ _ Hsep Hi).
      specialize (IH (Strings.slice_from s (m + String.length sep))). lia.
    + rewrite Count_None by exact Hi. cbn [length]. lia.
Qed.

Lemma split_loop_nonempty (k : nat) (s sep : string) :
  Strings.split_loop k s sep <> [].
Proof.
  destruct k; cbn [Strings.split_loop]; [discriminate|].
  destruct (Strings.Index s sep); discriminate.
Qed.

Lemma Join_cons (a : string) (l : list string) (sep : string) :
  l <> [] -> Join (a :: l) sep = a +:+ sep +:+ Join l sep.
Proof. destruct l; [congruence | reflexivity]. Qed.

Lemma split_loop_Join (sep : string) (k : nat) (s : string) :
  sep <> "" -> Join (Strings.split_loop k s sep) sep = s.
Proof.
  intros Hsep. revert s. induction k as [|k IH]; intros s; cbn [Strings.split_loop].
  - reflexivity.
  - destruct (Strings.Index s sep) as [m|] eqn:Hi; [|reflexivity].
    rewrite Join_cons by apply split_loop_nonempty.
    rewrite IH. symmetry. apply Index_cut; assumption.
Qed.

(** [SplitN] with a separator is the loop with [k] cuts, where the limit
    on [k] never binds beyond the number of occurrences. *)
Lemma SplitN_split_loop (s sep : string) (n : Z) :
  sep <> "" -> n <> 0 ->
  exists k : nat,
    Strings.SplitN s sep n = Strings.split_loop k s sep
    /\ Z.min (Z.of_nat k + 1) (Strings.Count s sep + 1)
       = if n <? 0 then Strings.Count s sep + 1
         else Z.min n (Strings.Count s sep + 1).
Proof.
  intros Hsep Hn. unfold Strings.SplitN.
  replace (n =? 0) with false by (symmetry; apply Z.eqb_neq; exact Hn).
  replace (String.eqb sep "") with false
    by (symmetry; apply String.eqb_neq; exact Hsep).
  cbv zeta. pose proof (Count_nonneg s sep) as H0.
  pose proof (Count_bound s sep Hsep) as H1.
  eexists. split; [reflexivity|].
  destruct (n <? 0) eqn:Hneg; [apply Z.ltb_lt in Hneg | apply Z.ltb_ge in Hneg];
    match goal with |- context [if ?c then _ else _] => destruct c eqn:Hc end;
    try apply Z.ltb_lt in Hc; try apply Z.ltb_ge in Hc; lia.
Qed.

(** X9.  For a separator that is not empty and a limit [n] other than 0,
    [SplitN] returns one part more than the separator occurs in the text,
    but no more than [n] parts when [n] is positive; in particular never an
    empty list. *)
Theorem SplitN_length (s sep : string) (n : Z) :
  sep <> "" -> n <> 0 ->
  Z.of_nat (length (Strings.SplitN s sep n))
  = if n <? 0 then Strings.Count s sep + 1 else Z.min n (Strings.Count s sep + 1).
Proof.
  intros Hsep Hn. destruct (SplitN_split_loop s sep n Hsep Hn) as [k [-> <-]].
  apply split_loop_length. exact Hsep.
Qed.

Lemma SplitN_length_witness :
  Z.of_nat (length (Strings.SplitN "/weather/a/b" "/" 3))
  = if 3 <? 0 then Strings.Count "/weather/a/b" "/" + 1
    else Z.min 3 (Strings.Count "/weather/a/b" "/" + 1).
Proof.
  apply (SplitN_length "/weather/a/b" "/" 3); [discriminate | lia].
Defined.

(** X10.  For a separator that is not empty and a limit other than 0, the
    parts that [SplitN] returns, joined again with the separator, are the
    text it was given: nothing is lost or reordered, whatever the limit. *)
Theorem SplitN_Join (s sep : string) (n : Z) :
  sep <> "" -> n <> 0 -> Join (Strings.SplitN s sep n) sep = s.
Proof.
  intros Hsep Hn. destruct (SplitN_split_loop s sep n Hsep Hn) as [k [-> _]].
  apply split_loop_Join. exact Hsep.
Qed.

Lemma SplitN_Join_witness :
  Join (Strings.SplitN "/weather/a/b" "/" 3) "/" = "/weather/a/b".
Proof.
  apply (SplitN_Join "/weather/a/b" "/" 3); [discriminate | lia].
Defined.

(** ** The guard of the handler *)

Lemma slash_not_empty : "/" <> "".
Proof. discriminate. Qed.

Lemma SplitN_few_slashes (path : string) :
  Strings.Count path "/" < 2 -> (length (Strings.SplitN path "/" 3) < 3)%nat.
Proof.
  intros H.
  pose proof (SplitN_split_loop path "/" 3 slash_not_empty ltac:(lia)) as [k [-> Hk]].
  pose proof (split_loop_length "/" k path slash_not_empty) as Hl.
  rewrite Hk in Hl. cbn in Hl. lia.
Qed.

Lemma SplitN_two_slashes (path : string) :
  2 <= Strings.Count path "/" ->
  exists a b city,
    Strings.SplitN path "/" 3 = [a; b; city]
    /\ path = a +:+ "/" +:+ b +:+ "/" +:+ city
    /\ Strings.Index a "/" = None /\ Strings.Index b "/" = None.
Proof.
  intros H. pose proof (Count_bound path "/" slash_not_empty) as Hb.
  unfold Strings.SplitN. cbn [Z.eqb String.eqb Ascii.eqb Bool.eqb Z.ltb Z.compare].
  cbv zeta.
  replace (Z.of_nat (String.length path) + 1 <? 3) with false
    by (symmetry; apply Z.ltb_ge; lia).
  change (Z.to_nat (3 - 1)) with 2%nat. cbn [Strings.split_loop].
  destruct (Strings.Index path "/") as [m1|] eqn:H1.
  2:{ rewrite Count_None in H by exact H1. lia. }
  rewrite (Count_Some _ _ _ slash_not_empty H1) in H.
  set (s1 := Strings.slice_from path (m1 + String.length "/")) in *.
  destruct (Strings.Index s1 "/") as [m2|] eqn:H2.
  2:{ rewrite Count_None in H by exact H2. lia. }
  eexists _, _, _. split; [reflexivity|].
  split; [|split].
  - rewrite <- (Index_cut s1 "/" m2 slash_not_empty H2).
    apply (Index_cut path "/" m1 slash_not_empty H1).
  - apply (Index_first _ _ _ slash_not_empty H1).
  - apply (Index_first _ _ _ slash_not_empty H2).
Qed.

(** X7.  The guard of the handler looks at the number of slashes of the
    path and at nothing else.  With fewer than two slashes the handler
    answers 400 with the plain text [City not specified] and touches neither
    the file system nor the network.  With two or more the path is
    [a/b/city] where [a] and [b] hold no slash, and the handler goes on with
    [city], everything after the second slash. *)
Theorem weatherHandler_guard (W : World) (path : string) :
  if Strings.Count path "/" <? 2
  then
    serve (weatherHandler W) path
    = ({| header := {[ "Content-Type" := ["text/plain; charset=utf-8"];
                       "X-Content-Type-Options" := ["nosniff"] ]};
          status := Some StatusBadRequest;
          body := "City not specified" +:+ nl |}, [])
  else
    exists a b city,
      path = a +:+ "/" +:+ b +:+ "/" +:+ city
      /\ Strings.Index a "/" = None /\ Strings.Index b "/" = None
      /\ weatherHandler W newResponse {| Path := path |} = serveCity W newResponse city.
Proof.
  destruct (Strings.Count path "/" <? 2) eqn:H.
  - apply Z.ltb_lt, SplitN_few_slashes in H. unfold serve, weatherHandler. cbn [Path].
    apply Nat.ltb_lt in H. rewrite H. vm_compute. reflexivity.
  - apply Z.ltb_ge in H.
    destruct (SplitN_two_slashes path H) as (a & b & city & Hs & Hp & Ha & Hb).
    exists a, b, city. split; [exact Hp|]. split; [exact Ha|]. split; [exact Hb|].
    unfold weatherHandler. cbn [Path]. rewrite Hs. reflexivity.
Qed.

Example weatherHandler_guard_examples :
  Strings.Count "/weather" "/" = 1 /\ Strings.Count "weather" "/" = 0
  /\ Strings.Count "" "/" = 0 /\ Strings.Count "/weather/" "/" = 2
  /\ Strings.Count "/a/b/c/d" "/" = 4.
Proof. vm_compute. repeat split. Qed.

(** ** [loadApiConfig]: the files it accepts *)

(** X1.  [loadApiConfig] reads the file it is given, once, and does nothing
    else.  It returns without error exactly when the file can be read and
    holds JSON that the [apiConfigData] shape accepts: [null], or an object
    whose members named [OpenWeatherMapApiKey], letter case aside, hold a
    string or [null].  An array, a number, or a key with a number for a
    value is an error like a syntax error is; and with every error comes the
    zero configuration. *)
Theorem loadApiConfig_ok_iff (W : World) (filename : string) :
  snd (run (loadApiConfig W filename)) = [EvReadFile filename]
  /\ (snd (fst (run (loadApiConfig W filename))) = None
      <-> exists data v,
            ReadFile W filename = Ok data
            /\ json.parse (bytes_of data) = Some v
            /\ accepts_apiConfigData v = true)
  /\ (forall e, snd (fst (run (loadApiConfig W filename))) = Some e ->
                fst (fst (run (loadApiConfig W filename))) = apiConfigData_zero).
Proof.
  unfold run. rewrite loadApiConfig_eq. cbn [fst snd app].
  split; [reflexivity|]. unfold loadApiConfig_result.
  destruct (ReadFile W filename) as [data|err].
  - unfold Unmarshal. destruct (json.parse (bytes_of data)) as [v|] eqn:Hp.
    + pose proof (decode_apiConfigData_ok v apiConfigData_zero) as Hok.
      destruct (decode v apiConfigData_zero) as [c [e|]]; cbn [fst snd] in *.
      * split; [|reflexivity]. split; [discriminate|].
        intros (data' & v' & [= <-] & Hv & Hacc). rewrite Hp in Hv.
        injection Hv as <-. apply Hok in Hacc. discriminate.
      * split; [|discriminate]. split; [|reflexivity].
        intros _. exists data, v. split; [reflexivity|]. split; [exact Hp|].
        apply Hok. reflexivity.
    + cbn [fst snd]. split; [|reflexivity]. split; [discriminate|].
      intros (data' & v' & [= <-] & Hv & _). congruence.
  - cbn [fst snd]. split; [|reflexivity]. split; [discriminate|].
    intros (data' & v' & Hr & _). discriminate.
Qed.

Lemma decode_apiConfigData_untouched (ms : list (string * value)) (c : apiConfigData) :
  no_member key_field ms -> decode (JObject ms) c = (c, None).
Proof.
  intros Hno. change (decode (JObject ms) c)
    with (fold_left
            (store_member
               [(key_field,
                 on_field OpenWeatherMapApiKey (fun k _ => {| OpenWeatherMapApiKey := k |}))])
            ms (c, None)).
  induction ms as [|[k v] ms IH]; [reflexivity|].
  cbn [fold_left]. unfold store_member at 2. cbn [fst snd].
  rewrite lookup_field_1. rewrite (Hno k v) by (left; reflexivity).
  apply IH. intros k' v' Hin. apply (Hno k' v'). right. exact Hin.
Qed.

(** X2.  A configuration file that is a JSON object without the key is not
    an error: [loadApiConfig] returns the zero configuration with a nil
    error, and [query] sends its request with an empty [appid]. *)
Theorem query_keyless_config (W : World) (data city : string)
        (ms : list (string * value)) :
  ReadFile W ".apiConfig" = Ok data ->
  json.parse (bytes_of data) = Some (JObject ms) ->
  no_member key_field ms ->
  fst (run (loadApiConfig W ".apiConfig")) = (apiConfigData_zero, None)
  /\ requests (snd (run (query W city)))
     = ["https://api.openweathermap.org/data/2.5/weather?q=" +:+ city
        +:+ "&appid=&units=metric"].
Proof.
  intros Hr Hp Hno.
  assert (Hl : loadApiConfig_result W ".apiConfig" = (apiConfigData_zero, None)).
  { unfold loadApiConfig_result, Unmarshal. rewrite Hr, Hp.
    rewrite decode_apiConfigData_untouched by exact Hno. reflexivity. }
  unfold run. rewrite loadApiConfig_eq, query_eq, Hl. cbn [fst]. split; [reflexivity|].
  cbv zeta. cbn [OpenWeatherMapApiKey apiConfigData_zero].
  destruct (Get W _) as [resp|err]; [destruct (Body resp) as [body|err]|]; reflexivity.
Qed.

Lemma query_keyless_config_witness :
  fst (run (loadApiConfig (world "{}" 200 "{}") ".apiConfig")) = (apiConfigData_zero, None)
  /\ requests (snd (run (query (world "{}" 200 "{}") "Oslo")))
     = ["https://api.openweathermap.org/data/2.5/weather?q=" +:+ "Oslo"
        +:+ "&appid=&units=metric"].
Proof.
  apply (query_keyless_config (world "{}" 200 "{}") "{}" "Oslo" []).
  - reflexivity.
  - vm_compute. reflexivity.
  - intros k v [].
Defined.

(** ** [query]: its effects and its result *)

(** X4.  [query] sends at most one request.  When [http.Get] hands back a
    response, its body is read once and closed exactly once, as the last
    effect of the call, also when reading or decoding fails; when there is
    no response, nothing is read or closed. *)
Theorem query_closes_body (W : World) (city : string) :
  match requests (snd (run (query W city))) with
  | [] =>
    occurrences EvReadBody (snd (run (query W city))) = 0%nat
    /\ occurrences EvCloseBody (snd (run (query W city))) = 0%nat
  | [url] =>
    match Get W url with
    | Ok _ =>
      occurrences EvReadBody (snd (run (query W city))) = 1%nat
      /\ occurrences EvCloseBody (snd (run (query W city))) = 1%nat
      /\ last (snd (run (query W city))) = Some EvCloseBody
    | Err _ =>
      occurrences EvReadBody (snd (run (query W city))) = 0%nat
      /\ occurrences EvCloseBody (snd (run (query W city))) = 0%nat
    end
  | _ => False
  end.
Proof.
  unfold run. rewrite query_eq.
  destruct (loadApiConfig_result W ".apiConfig") as [cfg [err|]].
  { cbn. split; reflexivity. }
  cbv zeta. destruct (Get W _) as [resp|err] eqn:Hg.
  - destruct (Body resp) as [body|err]; cbn [snd app requests omap requesting];
      cbn; rewrite Hg; repeat split; reflexivity.
  - cbn. rewrite Hg. split; reflexivity.
Qed.

(** X5.  Whatever the world answers, [query] returns either an error with
    the zero record, or a record whose temperature is a finite number: a
    number that does not fit [float64] is refused by the decoder and never
    stored as an infinity or a NaN.  So the encoder of line 131, whose
    error the handler drops, always has a value that it can encode. *)
Theorem query_result_encodable (W : World) (w : ResponseWriter) (city : string) :
  (forall e, snd (fst (run (query W city))) = Some e ->
             fst (fst (run (query W city))) = weatherData_zero)
  /\ finite (Kelvin (Main (fst (fst (run (query W city))))))
  /\ snd (Encode w (fst (fst (run (query W city))))) = None.
Proof.
  split; [intros e; apply query_error_zero|].
  pose proof (query_finite W city []) as Hf. split; [exact Hf|].
  destruct (EncodeLine_finite _ Hf) as [line Hl].
  unfold Encode. unfold run. rewrite Hl. reflexivity.
Qed.

(** X3.  Once the configuration is loaded, [query] prints the line
    [Requesting URL:] with the whole URL, the API key included, on standard
    output, and does so before the one request it sends. *)
Theorem query_logs_key (W : World) (city : string) (cfg : apiConfigData) :
  fst (run (loadApiConfig W ".apiConfig")) = (cfg, None) ->
  exists rest,
    snd (run (query W city))
    = EvReadFile ".apiConfig"
      :: EvStdout ("Requesting URL: "
                   +:+ ("https://api.openweathermap.org/data/2.5/weather?q="
                        +:+ city +:+ "&appid=" +:+ OpenWeatherMapApiKey cfg
                        +:+ "&units=metric")
                   +:+ nl)
      :: EvGet ("https://api.openweathermap.org/data/2.5/weather?q="
                +:+ city +:+ "&appid=" +:+ OpenWeatherMapApiKey cfg +:+ "&units=metric")
      :: rest
    /\ forall url, ~ In (EvGet url) rest.
Proof.
  unfold run. rewrite loadApiConfig_eq, query_eq. cbn [fst]. intros ->. cbv zeta.
  destruct (Get W _) as [resp|err]; [destruct (Body resp) as [body|err]|];
    cbn [snd app]; eexists; (split; [reflexivity|]); intros url; cbn; intuition discriminate.
Qed.

Lemma query_logs_key_witness :
  exists rest,
    snd (run (query (world config_ok 200 "{}") "Oslo"))
    = EvReadFile ".apiConfig"
      :: EvStdout ("Requesting URL: "
                   +:+ ("https://api.openweathermap.org/data/2.5/weather?q="
                        +:+ "Oslo" +:+ "&appid=" +:+ "k3y" +:+ "&units=metric")
                   +:+ nl)
      :: EvGet ("https://api.openweathermap.org/data/2.5/weather?q="
                +:+ "Oslo" +:+ "&appid=" +:+ "k3y" +:+ "&units=metric")
      :: rest
    /\ forall url, ~ In (EvGet url) rest.
Proof.
  apply (query_logs_key (world config_ok 200 "{}") "Oslo" {| OpenWeatherMapApiKey := "k3y" |}).
  vm_compute. reflexivity.
Defined.

(** ** The routes of [main] *)

Lemma copy_element_length (s el rest : list byte) :
  path.copy_element s = (el, rest) -> (length rest <= length s)%nat.
Proof.
  revert el rest. induction s as [|c t IH]; intros el rest; cbn [path.copy_element].
  - intros [= <- <-]. reflexivity.
  - destruct (bool_decide (c = x2f)); [intros [= <- <-]; reflexivity|].
    destruct (path.copy_element t) as [el' rest'] eqn:E.
    intros [= <- <-]. specialize (IH _ _ eq_refl). cbn [length]. lia.
Qed.

Lemma copy_element_progress (c : byte) (t el rest : list byte) :
  c <> x2f -> path.copy_element (c :: t) = (el, rest) ->
  (length rest <= length t)%nat.
Proof.
  intros Hc. cbn [path.copy_element]. rewrite bool_decide_eq_false_2 by exact Hc.
  destruct (path.copy_element t) as [el' rest'] eqn:E. intros [= <- <-].
  exact (copy_element_length _ _ _ E).
Qed.

(** The loop of [Clean] is through when its fuel is the length of what is
    left to read: more fuel changes nothing. *)
Lemma clean_loop_fuel (fuel : nat) :
  forall fuel' rooted s out dotdot,
    (length s <= fuel)%nat -> (length s <= fuel')%nat ->
    path.clean_loop fuel rooted s out dotdot = path.clean_loop fuel' rooted s out dotdot.
Proof.
  induction fuel as [|fuel IH]; intros fuel' rooted s out dotdot H H'.
  - destruct s; [|cbn [length] in H; lia]. destruct fuel'; reflexivity.
  - destruct fuel' as [|fuel'].
    { destruct s; [reflexivity|cbn [length] in H'; lia]. }
    destruct s as [|c s1]; [reflexivity|]. cbn [length] in H, H'.
    cbn [path.clean_loop].
    destruct (bool_decide (c = x2f)) eqn:Hc; [apply IH; lia|].
    destruct (bool_decide (c = x2e) && path.at_end s1); [apply IH; lia|].
    assert (Ht : (length (tail s1) <= length s1)%nat) by (destruct s1; cbn; lia).
    destruct (bool_decide (c = x2e) && bool_decide (head s1 = Some x2e)
              && path.at_end (tail s1)).
    { destruct (dotdot <? length out)%nat; [apply IH; lia|].
      destruct (negb rooted); apply IH; lia. }
    apply bool_decide_eq_false in Hc.
    destruct (path.copy_element (c :: s1)) as [el rest] eqn:E.
    pose proof (copy_element_progress _ _ _ _ Hc E).
    apply IH; lia.
Qed.

Example Clean_examples :
  map path.Clean ["abc//def//ghi"; "/abc/def/../.."; "abc/def/../../.."; "/./abc/def/";
                  "abc/../../././../def"; ""; "/weather/a/../b"; "/weather//Oslo"]
  = ["abc/def/ghi"; "/"; ".."; "/abc/def"; "../../def"; "."; "/weather/b"; "/weather/Oslo"].
Proof. reflexivity. Qed.

(** A request that reaches a handler has a clean path, and the handler is
    the one of the first pattern that matches it. *)
Lemma ServeMux_Handler_dispatch (routes : list (string * Handler)) (p : string)
      (h : Handler) :
  ServeMux_Handler routes p = Dispatch h <->
  shouldRedirect routes p = false /\ cleanPath p = p /\ route routes p = Some h.
Proof.
  unfold ServeMux_Handler. split.
  - destruct (shouldRedirect routes (cleanPath p)) eqn:Hr; [discriminate|].
    destruct (String.eqb (cleanPath p) p) eqn:He; [|discriminate].
    apply String.eqb_eq in He. rewrite He in Hr. cbn [negb].
    destruct (route routes p); [|discriminate]. intros [= ->]. auto.
  - intros (Hr & Hc & Hh). rewrite Hc, Hr, String.eqb_refl, Hh. reflexivity.
Qed.

Lemma weather_not_redirected (W : World) (city : string) :
  shouldRedirect (main W) ("/weather/" +:+ city) = false.
Proof.
  unfold shouldRedirect, registered, main. cbn [existsb fst].
  destruct city as [|c city]; [reflexivity|].
  cbn. destruct (city +:+ "/"); rewrite ?andb_false_r; reflexivity.
Qed.



(** The other way round: [/hello], and every clean path under [/weather/],
    reaches its handler. *)
Lemma main_dispatches (W : World) (city : string) :
  ServeMux_Handler (main W) "/hello" = Dispatch hello
  /\ (cleanPath ("/weather/" +:+ city) = "/weather/" +:+ city ->
      ServeMux_Handler (main W) ("/weather/" +:+ city) = Dispatch (weatherHandler W)).
Proof.
  split; [reflexivity|]. intros Hc. apply ServeMux_Handler_dispatch.
  split; [apply weather_not_redirected|]. split; [exact Hc|].
  unfold route, main. cbn [List.find fst snd].
  change (pattern_matches "/hello" ("/weather/" +:+ city)) with false.
  change (pattern_matches "/weather/" ("/weather/" +:+ city))
    with (String.prefix "" city).
  destruct city; reflexivity.
Qed.

(** What the mux answers by itself: a path that is not clean, and
    [/weather] without its slash, are redirected; other paths have no
    handler. *)
Example mux_answers (W : World) :
  ServeMux_Handler (main W) "/weather//Oslo" = MovedPermanently "/weather/Oslo"
  /\ ServeMux_Handler (main W) "/weather/a/../b" = MovedPermanently "/weather/b"
  /\ ServeMux_Handler (main W) "/weather/./Oslo" = MovedPermanently "/weather/Oslo"
  /\ ServeMux_Handler (main W) "/weather" = MovedPermanently "/weather/"
  /\ ServeMux_Handler (main W) "/hello/" = NotFound
  /\ ServeMux_Handler (main W) "/" = NotFound
  /\ ServeMux_Handler (main W) "/weather/a/b/c" = Dispatch (weatherHandler W).
Proof. repeat split. Qed.

(** ** UTF-8: encoding a rune and decoding it again *)

Lemma b2z_z2b (z : Z) : 0 <= z < 256 -> b2z (z2b z) = z.
Proof.
  intros H. unfold b2z, z2b. rewrite Z.mod_small by lia.
  destruct (Byte.of_N (Z.to_N z)) as [b|] eqn:E.
  - apply Byte.to_of_N in E. rewrite E. lia.
  - apply Byte.of_N_None_iff in E. lia.
Qed.

Ltac first_cases :=
  unfold utf8.first, utf8.locb, utf8.hicb;
  repeat match goal with
         | |- context [if ?c then _ else _] => destruct c eqn:?
         end; try reflexivity; try lia.

Lemma first_2 (p0 : Z) :
  0xC2 <= p0 <= 0xDF -> utf8.first p0 = utf8.Seq 2 0x80 0xBF.
Proof. intros H. first_cases. Qed.

Lemma first_3 (p0 : Z) :
  0xE0 <= p0 <= 0xEF ->
  utf8.first p0
  = utf8.Seq 3 (if p0 =? 0xE0 then 0xA0 else 0x80) (if p0 =? 0xED then 0x9F else 0xBF).
Proof. intros H. first_cases. Qed.

Lemma first_4 (p0 : Z) :
  0xF0 <= p0 <= 0xF4 ->
  utf8.first p0
  = utf8.Seq 4 (if p0 =? 0xF0 then 0x90 else 0x80) (if p0 =? 0xF4 then 0x8F else 0xBF).
Proof. intros H. first_cases. Qed.

Lemma continuation_true (b : Z) : 0x80 <= b <= 0xBF -> utf8.continuation b = true.
Proof.
  intros H. unfold utf8.continuation, utf8.locb, utf8.hicb.
  apply andb_true_iff; split; apply Z.leb_le; lia.
Qed.

Lemma DecodeRune2 (x0 x1 : Z) (X : list byte) :
  2 <= x0 < 32 -> 0 <= x1 < 64 ->
  utf8.DecodeRune (z2b (0xC0 + x0) :: z2b (0x80 + x1) :: X) = (x0 * 64 + x1, 2%nat).
Proof.
  intros H0 H1. unfold utf8.DecodeRune. cbv zeta.
  rewrite !b2z_z2b by lia. rewrite first_2 by lia.
  cbn [length Nat.ltb Nat.leb].
  replace ((0x80 + x1 <? 0x80) || (0xBF <? 0x80 + x1)) with false
    by (symmetry; apply orb_false_iff; split; apply Z.ltb_ge; lia).
  rewrite land_mask2, land_maskx by lia. rewrite rune2 by lia.
  f_equal. lia.
Qed.

Lemma DecodeRune3 (x0 x1 x2 : Z) (X : list byte) :
  0 <= x0 < 16 -> 0 <= x1 < 64 -> 0 <= x2 < 64 ->
  0x800 <= x0 * 4096 + x1 * 64 + x2 ->
  ~ (0xD800 <= x0 * 4096 + x1 * 64 + x2 <= 0xDFFF) ->
  utf8.DecodeRune (z2b (0xE0 + x0) :: z2b (0x80 + x1) :: z2b (0x80 + x2) :: X)
  = (x0 * 4096 + x1 * 64 + x2, 3%nat).
Proof.
  intros H0 H1 H2 Hlo Hsur. unfold utf8.DecodeRune. cbv zeta.
  rewrite !b2z_z2b by lia. rewrite first_3 by lia.
  cbn [length Nat.ltb Nat.leb].
  replace ((0x80 + x1 <? (if 0xE0 + x0 =? 0xE0 then 0xA0 else 0x80))
           || ((if 0xE0 + x0 =? 0xED then 0x9F else 0xBF) <? 0x80 + x1)) with false.
  2:{ symmetry. apply orb_false_iff; split; apply Z.ltb_ge.
      - destruct (0xE0 + x0 =? 0xE0) eqn:E; lia.
      - destruct (0xE0 + x0 =? 0xED) eqn:E; lia. }
  rewrite continuation_true by lia. cbn [negb].
  rewrite land_mask3, !land_maskx by lia. rewrite rune3 by lia.
  f_equal. lia.
Qed.

Lemma DecodeRune4 (x0 x1 x2 x3 : Z) (X : list byte) :
  0 <= x0 < 8 -> 0 <= x1 < 64 -> 0 <= x2 < 64 -> 0 <= x3 < 64 ->
  0x10000 <= x0 * 262144 + x1 * 4096 + x2 * 64 + x3 <= 0x10FFFF ->
  utf8.DecodeRune (z2b (0xF0 + x0) :: z2b (0x80 + x1) :: z2b (0x80 + x2)
                   :: z2b (0x80 + x3) :: X)
  = (x0 * 262144 + x1 * 4096 + x2 * 64 + x3, 4%nat).
Proof.
  intros H0 H1 H2 H3 Hr. unfold utf8.DecodeRune. cbv zeta.
  rewrite !b2z_z2b by lia. rewrite first_4 by lia.
  cbn [length Nat.ltb Nat.leb].
  replace ((0x80 + x1 <? (if 0xF0 + x0 =? 0xF0 then 0x90 else 0x80))
           || ((if 0xF0 + x0 =? 0xF4 then 0x8F else 0xBF) <? 0x80 + x1)) with false.
  2:{ symmetry. apply orb_false_iff; split; apply Z.ltb_ge.
      - destruct (0xF0 + x0 =? 0xF0) eqn:E; lia.
      - destruct (0xF0 + x0 =? 0xF4) eqn:E; lia. }
  rewrite !continuation_true by lia. cbn [negb].
  rewrite land_mask4, !land_maskx by lia. rewrite rune4 by lia.
  f_equal. lia.
Qed.

Lemma EncodeRune1 (r : Z) : 0 <= r < 0x80 -> utf8.EncodeRune r = [z2b r].
Proof.
  intros H. unfold utf8.EncodeRune.
  replace ((0 <=? r) && (r <=? 0x7F)) with true
    by (symmetry; apply andb_true_iff; split; apply Z.leb_le; lia).
  reflexivity.
Qed.

Lemma EncodeRune_invalid (r : Z) :
  r < 0 \/ utf8.MaxRune < r \/ utf8.surrogateMin <= r <= utf8.surrogateMax ->
  utf8.EncodeRune r = [xef; xbf; xbd].
Proof.
  unfold utf8.MaxRune, utf8.surrogateMin, utf8.surrogateMax. intros H.
  unfold utf8.EncodeRune.
  replace ((0 <=? r) && (r <=? 0x7F)) with false
    by (symmetry; apply andb_false_iff; destruct (Z.lt_ge_cases r 0);
        [left; apply Z.leb_gt | right; apply Z.leb_gt]; lia).
  replace ((0 <=? r) && (r <=? 0x7FF)) with false
    by (symmetry; apply andb_false_iff; destruct (Z.lt_ge_cases r 0);
        [left; apply Z.leb_gt | right; apply Z.leb_gt]; lia).
  replace ((r <? 0) || (utf8.MaxRune <? r)
           || ((utf8.surrogateMin <=? r) && (r <=? utf8.surrogateMax))) with true.
  - reflexivity.
  - symmetry. unfold utf8.MaxRune, utf8.surrogateMin, utf8.surrogateMax.
    destruct H as [H|[H|H]].
    + apply orb_true_iff; left. apply orb_true_iff; left. apply Z.ltb_lt; lia.
    + apply orb_true_iff; left. apply orb_true_iff; right. apply Z.ltb_lt; lia.
    + apply orb_true_iff; right. apply andb_true_iff; split; apply Z.leb_le; lia.
Qed.

Lemma split2 (r : Z) :
  0x80 <= r < 0x800 ->
  exists x0 x1, r = x0 * 64 + x1 /\ 2 <= x0 < 32 /\ 0 <= x1 < 64.
Proof.
  intros H. exists (r / 64), (r mod 64). Z.div_mod_to_equations. lia.
Qed.

Lemma split3 (r : Z) :
  0x800 <= r < 0x10000 ->
  exists x0 x1 x2,
    r = x0 * 4096 + x1 * 64 + x2 /\ 0 <= x0 < 16 /\ 0 <= x1 < 64 /\ 0 <= x2 < 64.
Proof.
  intros H. exists (r / 4096), ((r / 64) mod 64), (r mod 64).
  Z.div_mod_to_equations. lia.
Qed.

Lemma split4 (r : Z) :
  0x10000 <= r <= 0x10FFFF ->
  exists x0 x1 x2 x3,
    r = x0 * 262144 + x1 * 4096 + x2 * 64 + x3
    /\ 0 <= x0 < 8 /\ 0 <= x1 < 64 /\ 0 <= x2 < 64 /\ 0 <= x3 < 64.
Proof.
  intros H. exists (r / 262144), ((r / 4096) mod 64), ((r / 64) mod 64), (r mod 64).
  Z.div_mod_to_equations. lia.
Qed.

(** The encoding of a rune, with the rune that it stands for. *)
Lemma EncodeRune_decoded (r : Z) :
  exists c sz,
    (1 <= sz <= 4)%nat /\ length (utf8.EncodeRune r) = sz
    /\ (sz = 1%nat -> c <> utf8.RuneError)
    /\ (0 <= r <= utf8.MaxRune -> ~ (utf8.surrogateMin <= r <= utf8.surrogateMax) -> c = r)
    /\ forall X, utf8.DecodeRune (utf8.EncodeRune r ++ X) = (c, sz).
Proof.
  unfold utf8.MaxRune, utf8.surrogateMin, utf8.surrogateMax, utf8.RuneError.
  assert (Hbad : forall r', utf8.EncodeRune r' = [xef; xbf; xbd] ->
            exists c sz,
              (1 <= sz <= 4)%nat /\ length (utf8.EncodeRune r') = sz
              /\ (sz = 1%nat -> c <> 65533)
              /\ (0 <= r' <= 1114111 -> ~ (55296 <= r' <= 57343) -> c = r')
              /\ forall X, utf8.DecodeRune (utf8.EncodeRune r' ++ X) = (c, sz)).
  { intros r' E. destruct (Z.eq_dec r' 0xFFFD) as [->|Hne].
    - exists 0xFFFD, 3%nat. rewrite E. repeat split; try lia; try reflexivity.
    - exists 0xFFFD, 3%nat. rewrite E. split; [lia|]. split; [reflexivity|].
      split; [discriminate|]. split; [|reflexivity].
      intros Hr Hs. exfalso.
      destruct (Z.lt_ge_cases r' 0x80) as [H1|H1].
      { rewrite EncodeRune1 in E by lia. discriminate. }
      destruct (Z.lt_ge_cases r' 0x800) as [H2|H2].
      { destruct (split2 r' ltac:(lia)) as (x0 & x1 & -> & ? & ?).
        rewrite EncodeRune2 in E by lia. discriminate. }
      destruct (Z.lt_ge_cases r' 0x10000) as [H3|H3].
      { destruct (split3 r' ltac:(lia)) as (x0 & x1 & x2 & -> & ? & ? & ?).
        rewrite EncodeRune3 in E by lia.
        injection E as E0 E1 E2.
        apply (f_equal b2z) in E0, E1, E2. rewrite b2z_z2b in E0, E1, E2 by lia.
        change (b2z xef) with 239 in E0. change (b2z xbf) with 191 in E1.
        change (b2z xbd) with 189 in E2. lia. }
      destruct (split4 r' ltac:(lia)) as (x0 & x1 & x2 & x3 & -> & ? & ? & ? & ?).
      rewrite EncodeRune4 in E by lia. discriminate. }
  destruct (Z.lt_ge_cases r 0) as [Hneg|Hpos].
  { apply Hbad. apply EncodeRune_invalid. left. exact Hneg. }
  destruct (Z.lt_ge_cases r 0x80) as [H1|H1].
  { exists r, 1%nat. rewrite EncodeRune1 by lia.
    split; [lia|]. split; [reflexivity|]. split; [lia|]. split; [reflexivity|].
    intros X. cbn [app]. rewrite DecodeRune_low by (rewrite b2z_z2b; lia).
    rewrite b2z_z2b by lia. reflexivity. }
  destruct (Z.lt_ge_cases r 0x800) as [H2|H2].
  { destruct (split2 r ltac:(lia)) as (x0 & x1 & -> & ? & ?).
    exists (x0 * 64 + x1), 2%nat. rewrite EncodeRune2 by lia.
    split; [lia|]. split; [reflexivity|]. split; [discriminate|]. split; [reflexivity|].
    intros X. cbn [app]. apply DecodeRune2; lia. }
  destruct (Z.lt_ge_cases r 0x10000) as [H3|H3].
  { destruct (Z.lt_ge_cases r 0xD800) as [Hs|Hs];
      [|destruct (Z.lt_ge_cases 0xDFFF r) as [Hs'|Hs']].
    3:{ apply Hbad. apply EncodeRune_invalid. right; right.
        unfold utf8.surrogateMin, utf8.surrogateMax. lia. }
    all: destruct (split3 r ltac:(lia)) as (x0 & x1 & x2 & -> & ? & ? & ?);
      exists (x0 * 4096 + x1 * 64 + x2), 3%nat; rewrite EncodeRune3 by lia;
      (split; [lia|]); (split; [reflexivity|]); (split; [discriminate|]);
      (split; [reflexivity|]);
      intros X; cbn [app]; apply DecodeRune3; lia. }
  destruct (Z.lt_ge_cases 0x10FFFF r) as [H4|H4].
  { apply Hbad. apply EncodeRune_invalid. right; left. unfold utf8.MaxRune. lia. }
  destruct (split4 r ltac:(lia)) as (x0 & x1 & x2 & x3 & -> & ? & ? & ? & ?).
  exists (x0 * 262144 + x1 * 4096 + x2 * 64 + x3), 4%nat. rewrite EncodeRune4 by lia.
  split; [lia|]. split; [reflexivity|]. split; [discriminate|]. split; [reflexivity|].
  intros X. cbn [app]. apply DecodeRune4; lia.
Qed.

(** X12.  For every rune that is a Unicode scalar value (at most U+10FFFF
    and no surrogate half), [DecodeRune] reads the bytes that [EncodeRune]
    writes back as that rune, with the width that was written, between one
    and four bytes, whatever follows them. *)
Theorem utf8_round_trip (r : Z) (rest : list byte) :
  0 <= r <= utf8.MaxRune -> ~ (utf8.surrogateMin <= r <= utf8.surrogateMax) ->
  utf8.DecodeRune (utf8.EncodeRune r ++ rest) = (r, length (utf8.EncodeRune r))
  /\ (1 <= length (utf8.EncodeRune r) <= utf8.UTFMax)%nat.
Proof.
  intros Hr Hs. destruct (EncodeRune_decoded r) as (c & sz & Hsz & Hl & _ & Hc & Hd).
  rewrite Hd, Hl, (Hc Hr Hs). split; [reflexivity|]. unfold utf8.UTFMax. lia.
Qed.

Lemma utf8_round_trip_witness :
  utf8.DecodeRune (utf8.EncodeRune 0x20AC ++ [x21])
  = (0x20AC, length (utf8.EncodeRune 0x20AC))
  /\ (1 <= length (utf8.EncodeRune 0x20AC) <= utf8.UTFMax)%nat.
Proof.
  apply (utf8_round_trip 0x20AC [x21]).
  - unfold utf8.MaxRune. lia.
  - unfold utf8.surrogateMin, utf8.surrogateMax. lia.
Defined.

(** ** The strings that the decoder stores are valid UTF-8 *)

Lemma DecodeRune_size (p : list byte) (c : Z) (sz : nat) :
  p <> [] -> utf8.DecodeRune p = (c, sz) -> (1 <= sz <= length p)%nat.
Proof.
  destruct p as [|b t]; [congruence|]. intros _ H.
  destruct (Z.lt_ge_cases (b2z b) 0x80) as [Hb|Hb].
  - rewrite DecodeRune_low in H by exact Hb. injection H as _ <-. cbn [length]. lia.
  - destruct (DecodeRune_multibyte b t c sz Hb H)
      as [[-> _] | [[-> (b1 & t1 & -> & _)]
                   | [[-> (b1 & b2 & t2 & -> & _)]
                     | [-> (b1 & b2 & b3 & t3 & -> & _)]]]];
      cbn [length]; lia.
Qed.

Lemma Valid_fuel_nil (n : nat) : utf8.Valid_fuel n [] = true.
Proof. destruct n; reflexivity. Qed.

Lemma Valid_fuel_enough (n m : nat) (p : list byte) :
  (length p <= n)%nat -> (length p <= m)%nat ->
  utf8.Valid_fuel n p = utf8.Valid_fuel m p.
Proof.
  revert m p. induction n as [|n IH]; intros m p Hn Hm.
  - destruct p; [|cbn in Hn; lia]. rewrite !Valid_fuel_nil. reflexivity.
  - destruct p as [|b t]; [rewrite !Valid_fuel_nil; reflexivity|].
    destruct m as [|m]; [cbn in Hm; lia|].
    cbn [utf8.Valid_fuel].
    destruct (utf8.DecodeRune (b :: t)) as [c sz] eqn:Hd.
    pose proof (DecodeRune_size (b :: t) c sz ltac:(discriminate) Hd) as Hsz.
    assert (Hlen : (length (drop sz (b :: t)) <= n)%nat /\ (length (drop sz (b :: t)) <= m)%nat).
    { rewrite length_drop. cbn [length] in *. lia. }
    destruct sz as [|[|sz]]; [lia | |].
    + destruct (c =? utf8.RuneError); [reflexivity|]. apply IH; apply Hlen.
    + apply IH; apply Hlen.
Qed.

(** One step of [utf8.Valid]. *)
Lemma Valid_step (l X : list byte) (c : Z) (sz : nat) :
  utf8.DecodeRune (l ++ X) = (c, sz) -> length l = sz -> (1 <= sz)%nat ->
  (sz = 1%nat -> c <> utf8.RuneError) ->
  utf8.Valid (l ++ X) = utf8.Valid X.
Proof.
  intros Hd Hl Hsz Hc. unfold utf8.Valid.
  destruct (l ++ X) as [|b t] eqn:E.
  { destruct l; [cbn in Hl; lia | discriminate]. }
  cbn [length utf8.Valid_fuel]. rewrite Hd.
  assert (Hdrop : drop sz (b :: t) = X).
  { rewrite <- E, <- Hl. apply drop_app_length. }
  assert (Hlen : (length X <= length t)%nat).
  { apply (f_equal (@length byte)) in E. rewrite length_app in E. cbn [length] in E. lia. }
  destruct sz as [|[|sz]]; [lia | |].
  - destruct (c =? utf8.RuneError) eqn:Ec.
    + apply Z.eqb_eq in Ec. exfalso. now apply Hc.
    + rewrite Hdrop. apply Valid_fuel_enough; lia.
  - rewrite Hdrop. apply Valid_fuel_enough; lia.
Qed.

Lemma Valid_cons_low (b : byte) (X : list byte) :
  b2z b < 0x80 -> utf8.Valid (b :: X) = utf8.Valid X.
Proof.
  intros Hb. apply (Valid_step [b] X (b2z b) 1%nat).
  - apply DecodeRune_low. exact Hb.
  - reflexivity.
  - lia.
  - intros _. unfold utf8.RuneError. lia.
Qed.

Lemma Valid_EncodeRune_app (r : Z) (X : list byte) :
  utf8.Valid (utf8.EncodeRune r ++ X) = utf8.Valid X.
Proof.
  destruct (EncodeRune_decoded r) as (c & sz & Hsz & Hl & Hc & _ & Hd).
  apply (Valid_step _ X c sz); [apply Hd | exact Hl | lia | exact Hc].
Qed.

Lemma escape_kind_low (e b : byte) :
  escape_kind_of e = EscByte b -> b2z b < 0x80.
Proof.
  destruct e; cbn [escape_kind_of]; try discriminate; intros [= <-]; reflexivity.
Qed.

(** Whatever the literal holds, the text [unquote] makes of it is valid
    UTF-8. *)
Lemma unquote_valid (s out rest : list byte) :
  unquote s = Some (out, rest) -> utf8.Valid out = true.
Proof.
  remember (length s) as n eqn:Hn. revert s out rest Hn.
  induction n as [n IH] using lt_wf_ind. intros s out rest -> H.
  assert (IH' : forall t out' rest', (length t < length s)%nat ->
                  unquote t = Some (out', rest') -> utf8.Valid out' = true).
  { intros t out' rest' Hlt Ht. eapply (IH (length t)); eauto. }
  clear IH. destruct s as [|c t]; [discriminate|]. cbn [unquote] in H.
  destruct (Byte.eqb c x22).
  { injection H as <- _. reflexivity. }
  destruct (Byte.eqb c x5c).
  { destruct t as [|e t']; [discriminate|].
    destruct (escape_kind_of e) eqn:Hk.
    - apply cons_ok_Some in H. destruct H as [out' [H ->]].
      cbn [app]. rewrite Valid_cons_low by (eapply escape_kind_low; eauto).
      apply IH' in H; [exact H | cbn [length]; lia].
    - destruct t' as [|h1 [|h2 [|h3 [|h4 t'']]]]; try discriminate.
      destruct (hex4 h1 h2 h3 h4) as [rr|]; [|discriminate].
      destruct (IsSurrogate rr).
      + destruct (negb _).
        * destruct t'' as [|a1 [|a2 [|a3 [|a4 [|a5 [|a6 t3]]]]]]; try discriminate.
          apply cons_ok_Some in H. destruct H as [out' [H ->]].
          rewrite Valid_EncodeRune_app.
          apply IH' in H; [exact H | cbn [length]; lia].
        * apply cons_ok_Some in H. destruct H as [out' [H ->]].
          rewrite Valid_EncodeRune_app.
          apply IH' in H; [exact H | cbn [length]; lia].
      + apply cons_ok_Some in H. destruct H as [out' [H ->]].
        rewrite Valid_EncodeRune_app.
        apply IH' in H; [exact H | cbn [length]; lia].
    - discriminate. }
  destruct (b2z c <? 32); [discriminate|].
  destruct (b2z c <? utf8.RuneSelf) eqn:Hc.
  { apply cons_ok_Some in H. destruct H as [out' [H ->]].
    cbn [app]. rewrite Valid_cons_low by (apply Z.ltb_lt in Hc; exact Hc).
    apply IH' in H; [exact H | cbn [length]; lia]. }
  destruct (utf8.DecodeRune (c :: t)) as [rr size].
  destruct size as [|[|[|[|[|size]]]]]; try discriminate.
  - apply cons_ok_Some in H. destruct H as [out' [H ->]].
    rewrite Valid_EncodeRune_app.
    apply IH' in H; [exact H | cbn [length]; lia].
  - destruct t as [|b1 t1]; [discriminate|].
    apply cons_ok_Some in H. destruct H as [out' [H ->]].
    rewrite Valid_EncodeRune_app.
    apply IH' in H; [exact H | cbn [length]; lia].
  - destruct t as [|b1 [|b2 t2]]; try discriminate.
    apply cons_ok_Some in H. destruct H as [out' [H ->]].
    rewrite Valid_EncodeRune_app.
    apply IH' in H; [exact H | cbn [length]; lia].
  - destruct t as [|b1 [|b2 [|b3 t3]]]; try discriminate.
    apply cons_ok_Some in H. destruct H as [out' [H ->]].
    rewrite Valid_EncodeRune_app.
    apply IH' in H; [exact H | cbn [length]; lia].
Qed.

Lemma literal_valid (name : string) (v v' : value) (t r : list byte) :
  valid_string v -> valid_members v ->
  literal name v t = POk v' r -> valid_string v' /\ valid_members v'.
Proof.
  intros H1 H2. unfold literal. destruct (strip_prefix _ t); [|discriminate].
  intros [= <- _]. split; assumption.
Qed.

(** Every string of a parsed text, member values included, is valid
    UTF-8. *)
Lemma parse_strings_valid (fuel : nat) :
  (forall depth s v r, parse_value fuel depth s = POk v r ->
                       valid_string v /\ valid_members v)
  /\ (forall depth s kvs r, parse_members fuel depth s = POk kvs r ->
                            Forall (fun kv => valid_string (snd kv)) kvs).
Proof.
  induction fuel as [|fuel [IHv IHm]]; [split; intros; discriminate|].
  split.
  - intros depth s v r. cbn [parse_value].
    destruct (skip_ws s) as [|c t]; [discriminate|].
    destruct (start_of c).
    + destruct (maxNestingDepth <? depth + 1); [discriminate|].
      destruct (strip_prefix [x7d] (skip_ws t)).
      { intros [= <- _]. split; [exact I | constructor]. }
      destruct (parse_members fuel (depth + 1) t) as [kvs r'| |] eqn:Hm; try discriminate.
      intros [= <- _]. split; [exact I|]. apply (IHm _ _ _ _ Hm).
    + destruct (maxNestingDepth <? depth + 1); [discriminate|].
      destruct (strip_prefix [x5d] (skip_ws t)).
      { intros [= <- _]. split; exact I. }
      destruct (parse_elements fuel (depth + 1) t); try discriminate.
      intros [= <- _]. split; exact I.
    + destruct (unquote t) as [[str r']|] eqn:Hu; [|discriminate].
      intros [= <- _]. split; [|exact I]. cbn [valid_string].
      rewrite bytes_of_string_of. apply (unquote_valid _ _ _ Hu).
    + apply literal_valid; exact I.
    + apply literal_valid; exact I.
    + apply literal_valid; exact I.
    + destruct (scan_number (c :: t)) as [[lit r']|]; [|discriminate].
      intros [= <- _]. split; exact I.
  - intros depth s kvs r. cbn [parse_members].
    destruct (strip_prefix [x22] (skip_ws s)) as [t|]; [|discriminate].
    destruct (unquote t) as [[k r0]|]; [|discriminate].
    destruct (strip_prefix [x3a] (skip_ws r0)) as [r1|]; [|discriminate].
    destruct (parse_value fuel depth r1) as [v r2| |] eqn:Hv; try discriminate.
    destruct (IHv _ _ _ _ Hv) as [Hs _].
    destruct (skip_ws r2) as [|c r3]; [discriminate|].
    destruct (Byte.eqb c x2c).
    + destruct (parse_members fuel depth r3) as [kvs' r4| |] eqn:Hm; try discriminate.
      intros [= <- _]. constructor; [exact Hs | apply (IHm _ _ _ _ Hm)].
    + destruct (Byte.eqb c x7d); [|discriminate].
      intros [= <- _]. constructor; [exact Hs | constructor].
Qed.

Lemma parse_valid (data : list byte) (v : value) :
  json.parse data = Some v -> valid_string v /\ valid_members v.
Proof.
  unfold json.parse.
  destruct (parse_value _ 0 data) as [v' rest| |] eqn:H; try discriminate.
  destruct (skip_ws rest); [|discriminate]. intros [= <-].
  destruct (parse_strings_valid (S (2 * length data))) as [Hv _].
  apply (Hv _ _ _ _ H).
Qed.

Lemma lookup_field_In {F : Type} (fields : list (string * F)) (key : string) (f : F) :
  lookup_field fields key = Some f -> exists n, In (n, f) fields.
Proof.
  unfold lookup_field.
  destruct (List.find _ fields) as [[n f']|] eqn:H1.
  - intros [= <-]. apply find_some in H1. exists n. apply H1.
  - destruct (List.find (fun nf => name_matches (fst nf) key) fields) as [[n f']|] eqn:H2;
      [|discriminate].
    intros [= <-]. apply find_some in H2. exists n. apply H2.
Qed.

(** Decoding into a [weatherData] keeps the name valid UTF-8. *)
Lemma decode_weatherData_name_valid (v : value) (d : weatherData) :
  valid_members v ->
  utf8.Valid (bytes_of (Name d)) = true ->
  utf8.Valid (bytes_of (Name (fst (decode v d)))) = true.
Proof.
  intros Hv Hd. change (decode v d)
    with (decode_struct "main.weatherData"
            [("name", on_field Name (fun n d => {| Name := n; Main := Main d |}));
             ("main", on_field Main (fun m d => {| Name := Name d; Main := m |}))] v d).
  destruct v; try exact Hd. cbn [decode_struct valid_members] in *.
  apply (fold_store_inv _ (fun d => utf8.Valid (bytes_of (Name d)) = true));
    [|exact Hd].
  intros k v f x Hin Hf Hx. apply lookup_field_In in Hf. destruct Hf as [n Hf].
  rewrite List.Forall_forall in Hv. specialize (Hv (k, v) Hin). cbn [snd] in Hv.
  destruct Hf as [[= <- <-]|[[= <- <-]|[]]]; unfold on_field.
  - destruct v; cbn; try exact Hx. exact Hv.
  - destruct (decode v (Main x)). cbn. exact Hx.
Qed.

(** X6.  The name of every record that [query] returns is valid UTF-8,
    whatever bytes the upstream sent: the decoder replaces what is not.  So
    the string literal that the encoder writes for this name is read back as
    the very same name. *)
Theorem query_name_valid (W : World) (city : string) (rest : list byte) :
  utf8.Valid (bytes_of (Name (fst (fst (run (query W city)))))) = true
  /\ unquote (escape (bytes_of (Name (fst (fst (run (query W city)))))) ++ x22 :: rest)
     = Some (bytes_of (Name (fst (fst (run (query W city))))), rest).
Proof.
  assert (H : utf8.Valid (bytes_of (Name (fst (fst (run (query W city)))))) = true).
  { unfold run. rewrite query_eq.
    destruct (loadApiConfig_result W ".apiConfig") as [cfg [err|]]; [reflexivity|].
    cbv zeta. destruct (Get W _) as [resp|err]; [|reflexivity].
    destruct (Body resp) as [body|err]; [|reflexivity].
    cbn [fst]. unfold decode_reply, Unmarshal.
    destruct (json.parse (bytes_of body)) as [v|] eqn:Hp; [|reflexivity].
    pose proof (decode_weatherData_name_valid v weatherData_zero
                  (proj2 (parse_valid _ _ Hp)) eq_refl) as Hd.
    destruct (decode v weatherData_zero) as [d [e|]]; [reflexivity | exact Hd]. }
  split; [exact H|].
  apply (unquote_escape (length (bytes_of (Name (fst (fst (run (query W city)))))))).
  - lia.
  - exact H.
Qed.

(** ** What the encoder writes for a string *)

Lemma escape_ascii_safe (b : byte) : forallb html_safe_byte (escape_ascii b) = true.
Proof. destruct b; reflexivity. Qed.

Lemma escape_ascii_low (b : byte) : forallb low_byte (escape_ascii b) = true.
Proof. destruct b; reflexivity. Qed.

Lemma high_safe (b : byte) : 0x80 <= b2z b -> html_safe_byte b = true.
Proof.
  intros H. unfold html_safe_byte.
  apply andb_true_iff; split; [apply Z.leb_le; lia|].
  apply negb_true_iff, orb_false_iff; split;
    [apply orb_false_iff; split|]; apply Z.eqb_neq; lia.
Qed.

(** The bytes of an encoding of more than one byte are all outside ASCII. *)
Lemma EncodeRune_high (r : Z) :
  (2 <= length (utf8.EncodeRune r))%nat ->
  Forall (fun b => 0x80 <= b2z b) (utf8.EncodeRune r).
Proof.
  assert (Hbad : Forall (fun b => 0x80 <= b2z b) [xef; xbf; xbd]).
  { repeat constructor; vm_compute; discriminate. }
  destruct (Z.lt_ge_cases r 0) as [Hneg|Hpos].
  { rewrite EncodeRune_invalid by (left; exact Hneg). intros _. exact Hbad. }
  destruct (Z.lt_ge_cases r 0x80) as [H1|H1].
  { rewrite EncodeRune1 by lia. cbn [length]. lia. }
  intros _.
  destruct (Z.lt_ge_cases r 0x800) as [H2|H2].
  { destruct (split2 r ltac:(lia)) as (x0 & x1 & -> & ? & ?).
    rewrite EncodeRune2 by lia. repeat constructor; rewrite b2z_z2b; lia. }
  destruct (Z.lt_ge_cases r 0x10000) as [H3|H3].
  { destruct (Z.lt_ge_cases r 0xD800) as [Hs|Hs];
      [|destruct (Z.lt_ge_cases 0xDFFF r) as [Hs'|Hs']].
    3:{ rewrite EncodeRune_invalid
          by (right; right; unfold utf8.surrogateMin, utf8.surrogateMax; lia).
        exact Hbad. }
    all: destruct (split3 r ltac:(lia)) as (x0 & x1 & x2 & -> & ? & ? & ?);
      rewrite EncodeRune3 by lia; repeat constructor; rewrite b2z_z2b; lia. }
  destruct (Z.lt_ge_cases 0x10FFFF r) as [H4|H4].
  { rewrite EncodeRune_invalid by (right; left; unfold utf8.MaxRune; lia). exact Hbad. }
  destruct (split4 r ltac:(lia)) as (x0 & x1 & x2 & x3 & -> & ? & ? & ? & ?).
  rewrite EncodeRune4 by lia. repeat constructor; rewrite b2z_z2b; lia.
Qed.

Lemma escape_rune_safe (c : Z) (raw : list byte) :
  utf8.EncodeRune c = raw -> (2 <= length raw)%nat ->
  forallb html_safe_byte (escape_rune c raw) = true.
Proof.
  intros E Hl. unfold escape_rune.
  destruct ((c =? 0x2028) || (c =? 0x2029)) eqn:Hc.
  - apply orb_true_iff in Hc.
    destruct Hc as [Hc|Hc]; apply Z.eqb_eq in Hc; subst c; reflexivity.
  - subst raw. apply forallb_forall. intros b Hb.
    pose proof (EncodeRune_high c Hl) as Hh. rewrite List.Forall_forall in Hh.
    apply high_safe, Hh, Hb.
Qed.

Lemma Valid_app_low (l X : list byte) :
  forallb low_byte l = true -> utf8.Valid (l ++ X) = utf8.Valid X.
Proof.
  induction l as [|b l IH]; [reflexivity|]. cbn [forallb app].
  intros H. apply andb_true_iff in H. destruct H as [Hb Hl].
  rewrite Valid_cons_low by (apply Z.ltb_lt in Hb; exact Hb). apply IH, Hl.
Qed.

Lemma escape_rune_valid (c : Z) (raw X : list byte) :
  (forall Y, utf8.DecodeRune (raw ++ Y) = (c, length raw)) -> (2 <= length raw)%nat ->
  utf8.Valid (escape_rune c raw ++ X) = utf8.Valid X.
Proof.
  intros Hd Hl. unfold escape_rune.
  destruct ((c =? 0x2028) || (c =? 0x2029)) eqn:Hc.
  - apply Valid_app_low. apply orb_true_iff in Hc.
    destruct Hc as [Hc|Hc]; apply Z.eqb_eq in Hc; subst c; reflexivity.
  - apply (Valid_step raw X c (length raw)); [apply Hd | reflexivity | lia | lia].
Qed.

Lemma unquote_replacement (Y : list byte) :
  unquote (bytes_of "\ufffd" ++ Y) = cons_ok [xef; xbf; xbd] (unquote Y).
Proof. reflexivity. Qed.

(** What the encoder writes for a text, whatever its bytes: safe to embed,
    valid UTF-8, and one string literal for the decoder. *)
Lemma escape_any (n : nat) (p : list byte) :
  (length p <= n)%nat ->
  forallb html_safe_byte (escape p) = true
  /\ (forall X, utf8.Valid (escape p ++ X) = utf8.Valid X)
  /\ (forall rest, exists out, unquote (escape p ++ x22 :: rest) = Some (out, rest)).
Proof.
  revert p. induction n as [|n IH]; intros p Hlen.
  { destruct p; [|cbn in Hlen; lia]. repeat split; eauto. }
  destruct p as [|b t]; [repeat split; eauto|]. cbn [length] in Hlen.
  destruct (Z.lt_ge_cases (b2z b) 0x80) as [Hb|Hb].
  - rewrite escape_low by exact Hb.
    destruct (IH t ltac:(lia)) as (Hs & Hv & Hu). split; [|split].
    + rewrite forallb_app, escape_ascii_safe, Hs. reflexivity.
    + intros X. rewrite <- app_assoc, Valid_app_low by apply escape_ascii_low. apply Hv.
    + intros rest. rewrite <- app_assoc, unquote_escape_ascii by exact Hb.
      destruct (Hu rest) as [out ->]. eexists. reflexivity.
  - rewrite escape_high by exact Hb.
    destruct (utf8.DecodeRune (b :: t)) as [c sz] eqn:Hd.
    destruct (DecodeRune_multibyte b t c sz Hb Hd)
      as [[-> ->] | [[-> (b1 & t1 & -> & Henc & HX)]
                    | [[-> (b1 & b2 & t2 & -> & Henc & HX)]
                      | [-> (b1 & b2 & b3 & t3 & -> & Henc & HX)]]]].
    + destruct (IH t ltac:(lia)) as (Hs & Hv & Hu). split; [|split].
      * rewrite forallb_app, Hs. reflexivity.
      * intros X. rewrite <- app_assoc, Valid_app_low by reflexivity. apply Hv.
      * intros rest. rewrite <- app_assoc, unquote_replacement.
        destruct (Hu rest) as [out ->]. eexists. reflexivity.
    + cbn [length] in Hlen. destruct (IH t1 ltac:(lia)) as (Hs & Hv & Hu).
      split; [|split].
      * rewrite forallb_app, Hs, (escape_rune_safe c [b; b1] Henc) by (cbn; lia).
        reflexivity.
      * intros X. rewrite <- app_assoc, escape_rune_valid; [apply Hv | apply HX | cbn; lia].
      * intros rest. rewrite <- app_assoc.
        rewrite (unquote_escape_rune c [b; b1]); [| exact Henc |].
        -- destruct (Hu rest) as [out ->]. eexists. reflexivity.
        -- cbn [app]. rewrite unquote_high by exact Hb. rewrite HX, Henc. reflexivity.
    + cbn [length] in Hlen. destruct (IH t2 ltac:(lia)) as (Hs & Hv & Hu).
      split; [|split].
      * rewrite forallb_app, Hs, (escape_rune_safe c [b; b1; b2] Henc) by (cbn; lia).
        reflexivity.
      * intros X. rewrite <- app_assoc, escape_rune_valid; [apply Hv | apply HX | cbn; lia].
      * intros rest. rewrite <- app_assoc.
        rewrite (unquote_escape_rune c [b; b1; b2]); [| exact Henc |].
        -- destruct (Hu rest) as [out ->]. eexists. reflexivity.
        -- cbn [app]. rewrite unquote_high by exact Hb. rewrite HX, Henc. reflexivity.
    + cbn [length] in Hlen. destruct (IH t3 ltac:(lia)) as (Hs & Hv & Hu).
      split; [|split].
      * rewrite forallb_app, Hs, (escape_rune_safe c [b; b1; b2; b3] Henc) by (cbn; lia).
        reflexivity.
      * intros X. rewrite <- app_assoc, escape_rune_valid; [apply Hv | apply HX | cbn; lia].
      * intros rest. rewrite <- app_assoc.
        rewrite (unquote_escape_rune c [b; b1; b2; b3]); [| exact Henc |].
        -- destruct (Hu rest) as [out ->]. eexists. reflexivity.
        -- cbn [app]. rewrite unquote_high by exact Hb. rewrite HX, Henc. reflexivity.
Qed.

(** X11.  Whatever bytes a string holds, the literal that the encoder
    writes for it has no control byte and none of [<], [>], [&]; it is valid
    UTF-8; and the decoder reads it as one string that ends at the closing
    quote, the string itself when it was valid UTF-8. *)
Theorem appendString_safe (s : string) (rest : list byte) :
  forallb html_safe_byte (appendString s) = true
  /\ utf8.Valid (appendString s) = true
  /\ exists out,
       unquote (escape (bytes_of s) ++ x22 :: rest) = Some (out, rest)
       /\ utf8.Valid out = true
       /\ (utf8.Valid (bytes_of s) = true -> out = bytes_of s).
Proof.
  destruct (escape_any (length (bytes_of s)) (bytes_of s) ltac:(lia)) as (Hs & Hv & Hu).
  unfold appendString. split; [|split].
  - cbn [forallb]. rewrite forallb_app, Hs. reflexivity.
  - rewrite Valid_cons_low by reflexivity. rewrite Hv. reflexivity.
  - destruct (Hu rest) as [out Hout]. exists out. split; [exact Hout|].
    split; [apply (unquote_valid _ _ _ Hout)|].
    intros Hvalid.
    pose proof (unquote_escape (length (bytes_of s)) (bytes_of s) rest ltac:(lia) Hvalid) as E.
    congruence.
Qed.

(** ** Number literals: from the scanner to [strconv.ParseFloat] *)

Lemma digits_spec (s ds r : list byte) :
  digits s = (ds, r) ->
  forallb strconv.is_digit ds = true /\ s = ds ++ r /\ no_digit_ahead r.
Proof.
  revert ds r. induction s as [|c t IH]; intros ds r; cbn [digits].
  - intros [= <- <-]. repeat split.
  - destruct (strconv.is_digit c) eqn:Hc.
    + destruct (digits t) as [ds' r'] eqn:Hd. intros [= <- <-].
      destruct (IH _ _ eq_refl) as (H1 & H2 & H3).
      cbn [forallb app]. rewrite Hc, H1. subst t. repeat split. exact H3.
    + intros [= <- <-]. repeat split. exact Hc.
Qed.

Lemma read_digits_app (ds rest : list byte) (acc n : Z) :
  forallb strconv.is_digit ds = true -> no_digit_ahead rest ->
  exists acc',
    strconv.read_digits (ds ++ rest) acc n = (acc', n + Z.of_nat (length ds), rest).
Proof.
  revert acc n. induction ds as [|c ds IH]; intros acc n Hd Hr.
  - cbn [app length]. destruct rest as [|c rest]; cbn [strconv.read_digits].
    + exists acc. f_equal. f_equal. lia.
    + cbn in Hr. rewrite Hr. exists acc. f_equal. f_equal. lia.
  - cbn [forallb] in Hd. apply andb_true_iff in Hd. destruct Hd as [Hc Hd].
    cbn [app strconv.read_digits]. rewrite Hc.
    destruct (IH (10 * acc + (b2z c - 48)) (n + 1) Hd Hr) as [acc' ->].
    exists acc'. f_equal. f_equal. cbn [length]. lia.
Qed.

Lemma read_exponent_app (ds : list byte) (acc n : Z) :
  forallb strconv.is_digit ds = true ->
  exists acc', strconv.read_exponent ds acc n = (acc', n + Z.of_nat (length ds), []).
Proof.
  revert acc n. induction ds as [|c ds IH]; intros acc n Hd.
  - exists acc. cbn. f_equal. f_equal. lia.
  - cbn [forallb] in Hd. apply andb_true_iff in Hd. destruct Hd as [Hc Hd].
    cbn [strconv.read_exponent]. rewrite Hc.
    destruct (IH (if acc <? 10000 then 10 * acc + (b2z c - 48) else acc) (n + 1) Hd)
      as [acc' ->].
    exists acc'. f_equal. f_equal. cbn [length]. lia.
Qed.

Lemma digit_no_sign (c : byte) (t : list byte) :
  strconv.is_digit c = true ->
  match c :: t with
  | x2b :: u => (false, u)
  | x2d :: u => (true, u)
  | _ => (false, c :: t)
  end = (false, c :: t).
Proof. destruct c; try discriminate; reflexivity. Qed.

Lemma scan_fraction_spec (s fr r : list byte) :
  scan_fraction s = Some (fr, r) ->
  s = fr ++ r
  /\ ((fr = [] /\ match s with x2e :: _ => False | _ => True end)
      \/ (exists ds, fr = x2e :: ds /\ ds <> []
                     /\ forallb strconv.is_digit ds = true /\ no_digit_ahead r)).
Proof.
  unfold scan_fraction. destruct s as [|c u].
  { intros [= <- <-]. split; [reflexivity|]. left. split; [reflexivity | exact I]. }
  destruct (Byte.eqb c x2e) eqn:Hc.
  - apply Byte.byte_dec_bl in Hc. subst c.
    destruct (digits u) as [ds r'] eqn:Hd. destruct ds as [|d ds]; [discriminate|].
    intros [= <- <-]. destruct (digits_spec _ _ _ Hd) as (H1 & H2 & H3).
    split; [cbn [app]; now rewrite H2|]. right. exists (d :: ds).
    repeat split; [discriminate | exact H1 | exact H3].
  - intros [= <- <-]. split; [reflexivity|]. left. split; [reflexivity|].
    destruct c; try exact I. discriminate.
Qed.

Lemma scan_exponent_spec (s ex r : list byte) :
  scan_exponent s = Some (ex, r) ->
  s = ex ++ r
  /\ ((ex = [] /\ match s with x65 :: _ | x45 :: _ => False | _ => True end)
      \/ (exists e es ds,
            ex = e :: es ++ ds /\ (e = x65 \/ e = x45)
            /\ (es = [] \/ es = [x2b] \/ es = [x2d])
            /\ ds <> [] /\ forallb strconv.is_digit ds = true)).
Proof.
  unfold scan_exponent. destruct s as [|e u].
  { intros [= <- <-]. split; [reflexivity|]. left. split; [reflexivity | exact I]. }
  destruct (Byte.eqb e x65 || Byte.eqb e x45) eqn:He.
  - destruct (opt_sign x2b x2d u) as [es u1] eqn:Hs.
    destruct (digits u1) as [ds r'] eqn:Hd. destruct ds as [|d ds]; [discriminate|].
    intros [= <- <-]. destruct (digits_spec _ _ _ Hd) as (H1 & H2 & _).
    pose proof (opt_sign_app _ _ _ _ _ Hs) as Hu.
    split; [cbn [app]; rewrite <- app_assoc, <- H2, <- Hu; reflexivity|].
    right. exists e, es, (d :: ds). split; [reflexivity|].
    split.
    { apply orb_true_iff in He. destruct He as [He|He];
        apply Byte.byte_dec_bl in He; auto. }
    split.
    { unfold opt_sign in Hs. destruct u as [|c u']; [injection Hs as <- _; auto|].
      destruct (Byte.eqb c x2b || Byte.eqb c x2d) eqn:Hc.
      - injection Hs as <- _. apply orb_true_iff in Hc.
        destruct Hc as [Hc|Hc]; apply Byte.byte_dec_bl in Hc; subst c; auto.
      - injection Hs as <- _. auto. }
    split; [discriminate | exact H1].
  - intros [= <- <-]. split; [reflexivity|]. left. split; [reflexivity|].
    destruct e; try exact I; discriminate.
Qed.

(** The exponent part of a literal, as [readFloat] reads it. *)
Lemma readFloat_tail (neg : bool) (m nf : Z) (ex : list byte) :
  (ex = [] \/ exists e es ds,
      ex = e :: es ++ ds /\ (e = x65 \/ e = x45)
      /\ (es = [] \/ es = [x2b] \/ es = [x2d])
      /\ ds <> [] /\ forallb strconv.is_digit ds = true) ->
  exists e10,
    match ex with
    | [] => Some (neg, m, - nf)
    | c :: t =>
      match c with
      | x65 | x45 =>
        let '(eneg, s4) :=
          match t with
          | x2b :: u => (false, u)
          | x2d :: u => (true, u)
          | _ => (false, t)
          end in
        let '(e, ne, s5) := strconv.read_exponent s4 0 0 in
        if ne =? 0 then None else
        match s5 with
        | [] => Some (neg, m, (if eneg then - e else e) - nf)
        | _ => None
        end
      | _ => None
      end
    end = Some (neg, m, e10).
Proof.
  intros [->|(e & es & ds & -> & He & Hes & Hne & Hd)]; [eauto|].
  destruct (read_exponent_app ds 0 0 Hd) as [acc' Hr].
  assert (Hlen : (0 + Z.of_nat (length ds) =? 0) = false).
  { apply Z.eqb_neq. destruct ds; [congruence | cbn [length]; lia]. }
  destruct He as [-> | ->]; destruct Hes as [-> | [-> | ->]]; cbn [app].
  1,4: destruct ds as [|d ds]; [congruence|];
       cbn [forallb] in Hd; apply andb_true_iff in Hd; destruct Hd as [Hd0 Hd];
       pose proof (digit_no_sign d ds Hd0) as Hsg; cbv zeta; rewrite Hsg, Hr, Hlen; eauto.
  all: cbv zeta; rewrite Hr, Hlen; eauto.
Qed.

Lemma readFloat_unsigned (neg : bool) (int fr ex : list byte) :
  int <> [] -> forallb strconv.is_digit int = true ->
  (fr = [] \/ exists ds, fr = x2e :: ds /\ ds <> [] /\ forallb strconv.is_digit ds = true) ->
  (ex = [] \/ exists e es ds,
      ex = e :: es ++ ds /\ (e = x65 \/ e = x45)
      /\ (es = [] \/ es = [x2b] \/ es = [x2d])
      /\ ds <> [] /\ forallb strconv.is_digit ds = true) ->
  exists m e10,
    (let '(mi, ni, s2) := strconv.read_digits (int ++ fr ++ ex) 0 0 in
     let '(m, nf, s3) :=
       match s2 with
       | x2e :: t => strconv.read_digits t mi 0
       | _ => (mi, 0, s2)
       end in
     if ni + nf =? 0 then None else
     match s3 with
     | [] => Some (neg, m, - nf)
     | c :: t =>
       match c with
       | x65 | x45 =>
         let '(eneg, s4) :=
           match t with
           | x2b :: u => (false, u)
           | x2d :: u => (true, u)
           | _ => (false, t)
           end in
         let '(e, ne, s5) := strconv.read_exponent s4 0 0 in
         if ne =? 0 then None else
         match s5 with
         | [] => Some (neg, m, (if eneg then - e else e) - nf)
         | _ => None
         end
       | _ => None
       end
     end) = Some (neg, m, e10).
Proof.
  intros Hint Hdig Hfr Hex.
  assert (Hex_ahead : no_digit_ahead ex).
  { destruct Hex as [->|(e & es & ds & -> & [-> | ->] & _)]; [exact I | |]; reflexivity. }
  assert (Hni : 0 < Z.of_nat (length int)).
  { destruct int; [congruence | cbn [length]; lia]. }
  destruct Hfr as [->|(ds & -> & Hne & Hd)].
  - cbn [app].
    destruct (read_digits_app int ex 0 0 Hdig Hex_ahead) as [mi ->].
    assert (Hs2 : match ex with
                  | x2e :: t => strconv.read_digits t mi 0
                  | _ => (mi, 0, ex)
                  end = (mi, 0, ex)).
    { destruct Hex as [->|(e & es & ds & -> & [-> | ->] & _)]; reflexivity. }
    rewrite Hs2.
    replace (0 + Z.of_nat (length int) + 0 =? 0) with false
      by (symmetry; apply Z.eqb_neq; lia).
    destruct (readFloat_tail neg mi 0 ex Hex) as [e10 He]. eauto.
  - assert (Hahead : no_digit_ahead ((x2e :: ds) ++ ex)) by reflexivity.
    destruct (read_digits_app int ((x2e :: ds) ++ ex) 0 0 Hdig Hahead) as [mi ->].
    cbn [app]. destruct (read_digits_app ds ex mi 0 Hd Hex_ahead) as [m ->].
    replace (0 + Z.of_nat (length int) + (0 + Z.of_nat (length ds)) =? 0) with false
      by (symmetry; apply Z.eqb_neq; lia).
    destruct (readFloat_tail neg m (0 + Z.of_nat (length ds)) ex Hex) as [e10 He]. eauto.
Qed.

(** Every literal of the JSON number grammar is a decimal literal for
    [readFloat]. *)
Lemma scan_number_readFloat (s lit r : list byte) :
  scan_number s = Some (lit, r) -> exists neg m e, strconv.readFloat lit = Some (neg, m, e).
Proof.
  unfold scan_number.
  destruct (opt_sign x2d x2d s) as [sign s1] eqn:Hsign.
  destruct s1 as [|c t]; [discriminate|].
  destruct (strconv.is_digit c) eqn:Hc; [|discriminate]. cbn [negb].
  destruct (if Byte.eqb c x30 then ([c], t) else digits (c :: t)) as [int s2] eqn:Hint.
  destruct (scan_fraction s2) as [[fr s3]|] eqn:Hfr; [|discriminate].
  destruct (scan_exponent s3) as [[ex r']|] eqn:Hex; [|discriminate].
  intros [= <- <-].
  assert (Hi : exists d ds, int = d :: ds /\ forallb strconv.is_digit int = true).
  { destruct (Byte.eqb c x30).
    - injection Hint as <- _. exists c, []. cbn. now rewrite Hc.
    - cbn [digits] in Hint. rewrite Hc in Hint.
      destruct (digits t) as [ds r0] eqn:Hd. injection Hint as <- _.
      destruct (digits_spec _ _ _ Hd) as [Hds _].
      exists c, ds. cbn [forallb]. now rewrite Hc, Hds. }
  destruct Hi as (d & ds & -> & Hdig).
  assert (Hfr' : fr = [] \/ exists ds, fr = x2e :: ds /\ ds <> []
                                       /\ forallb strconv.is_digit ds = true).
  { destruct (scan_fraction_spec _ _ _ Hfr) as [_ [[-> _]|(fs & -> & ? & ? & _)]]; eauto. }
  assert (Hex' : ex = [] \/ exists e es ds,
             ex = e :: es ++ ds /\ (e = x65 \/ e = x45)
             /\ (es = [] \/ es = [x2b] \/ es = [x2d])
             /\ ds <> [] /\ forallb strconv.is_digit ds = true).
  { destruct (scan_exponent_spec _ _ _ Hex) as [_ [[-> _]|H]]; eauto. }
  assert (Hsg : sign = [] \/ sign = [x2d]).
  { unfold opt_sign in Hsign. destruct s as [|c0 s0]; [injection Hsign as <- _; auto|].
    destruct (Byte.eqb c0 x2d || Byte.eqb c0 x2d) eqn:E.
    - injection Hsign as <- _. apply orb_true_iff in E.
      destruct E as [E|E]; apply Byte.byte_dec_bl in E; subst c0; auto.
    - injection Hsign as <- _. auto. }
  assert (Hd0 : strconv.is_digit d = true).
  { cbn [forallb] in Hdig. apply andb_true_iff in Hdig. apply Hdig. }
  destruct Hsg as [-> | ->].
  - destruct (readFloat_unsigned false (d :: ds) fr ex ltac:(discriminate) Hdig Hfr' Hex')
      as (m & e10 & H).
    exists false, m, e10. unfold strconv.readFloat. cbn [app] in *.
    rewrite (digit_no_sign d _ Hd0). exact H.
  - destruct (readFloat_unsigned true (d :: ds) fr ex ltac:(discriminate) Hdig Hfr' Hex')
      as (m & e10 & H).
    exists true, m, e10. exact H.
Qed.

(** X13.  A number literal that the JSON scanner accepts is never a syntax
    error for [strconv.ParseFloat]: it is read as a finite [float64], or
    refused as out of range, and then its value is an infinity. *)
Theorem number_literal_parses (s lit r : list byte) :
  scan_number s = Some (lit, r) ->
  (snd (strconv.ParseFloat lit) = None /\ finite (fst (strconv.ParseFloat lit)))
  \/ (snd (strconv.ParseFloat lit) = Some strconv.ErrRange
      /\ IsInf (fst (strconv.ParseFloat lit)) = true).
Proof.
  intros H. destruct (scan_number_readFloat _ _ _ H) as (neg & m & e & Hr).
  unfold strconv.ParseFloat. rewrite Hr.
  pose proof (float64_of_decimal_not_nan neg m e) as Hnan.
  destruct (IsInf (strconv.float64_of_decimal neg m e)) eqn:Hi; cbn [fst snd].
  - right. split; [reflexivity | exact Hi].
  - left. split; [reflexivity|]. split; [exact Hi|].
    destruct (strconv.float64_of_decimal neg m e); try reflexivity. congruence.
Qed.

Lemma number_literal_parses_witness :
  (snd (strconv.ParseFloat (bytes_of "-12.5e3")) = None
   /\ finite (fst (strconv.ParseFloat (bytes_of "-12.5e3"))))
  \/ (snd (strconv.ParseFloat (bytes_of "-12.5e3")) = Some strconv.ErrRange
      /\ IsInf (fst (strconv.ParseFloat (bytes_of "-12.5e3"))) = true).
Proof.
  apply (number_literal_parses (bytes_of "-12.5e3,") (bytes_of "-12.5e3") [x2c]).
  reflexivity.
Defined.

(** ** The members that a record does not look at *)

Lemma store_member_skip {T : Type}
      (fields : list (string * (value -> T -> T * option error)))
      (acc : T * option error) (kv : string * value) :
  lookup_field fields (fst kv) = None -> store_member fields acc kv = acc.
Proof. intros H. unfold store_member. rewrite H. reflexivity. Qed.

(** Members that designate no field play no part in decoding a struct. *)
Lemma fold_store_filter {T : Type}
      (fields : list (string * (value -> T -> T * option error)))
      (keep : string * value -> bool) (ms : list (string * value))
      (acc : T * option error) :
  (forall kv, keep kv = false -> lookup_field fields (fst kv) = None) ->
  fold_left (store_member fields) ms acc
  = fold_left (store_member fields) (List.filter keep ms) acc.
Proof.
  intros Hk. revert acc. induction ms as [|kv ms IH]; intros acc; [reflexivity|].
  cbn [fold_left List.filter]. destruct (keep kv) eqn:E.
  - cbn [fold_left]. apply IH.
  - rewrite store_member_skip by (apply Hk; exact E). apply IH.
Qed.

Lemma decode_weatherData_filter (ms : list (string * value)) (d : weatherData) :
  decode (JObject ms) d = decode (JObject (List.filter weather_member ms)) d.
Proof.
  change (fold_left
            (store_member
               [("name", on_field Name (fun n d => {| Name := n; Main := Main d |}));
                ("main", on_field Main (fun m d => {| Name := Name d; Main := m |}))])
            ms (d, None)
          = fold_left
              (store_member
                 [("name", on_field Name (fun n d => {| Name := n; Main := Main d |}));
                  ("main", on_field Main (fun m d => {| Name := Name d; Main := m |}))])
              (List.filter weather_member ms) (d, None)).
  apply fold_store_filter. intros [k v]. unfold weather_member. cbn [fst].
  intros H. apply orb_false_iff in H. destruct H as [H1 H2].
  rewrite lookup_field_2 by reflexivity. rewrite H1, H2. reflexivity.
Qed.

(** X14.  What [query] makes of a reply depends only on the members named
    [name] and [main], letter case aside, and on their order: two replies
    that are JSON objects and agree on these members give the same record
    or the same error, whatever else they hold. *)
Theorem decode_reply_other_members (body body' : string)
        (ms ms' : list (string * value)) :
  json.parse (bytes_of body) = Some (JObject ms) ->
  json.parse (bytes_of body') = Some (JObject ms') ->
  List.filter weather_member ms = List.filter weather_member ms' ->
  decode_reply body = decode_reply body'.
Proof.
  intros Hp Hp' Hf. unfold decode_reply, Unmarshal. rewrite Hp, Hp'.
  rewrite (decode_weatherData_filter ms), (decode_weatherData_filter ms'), Hf.
  reflexivity.
Qed.

Lemma decode_reply_other_members_witness :
  decode_reply (q "{'name':'Oslo','cod':200,'main':{'temp':-3}}")
  = decode_reply (q "{'id':[1],'name':'Oslo','main':{'temp':-3},'wind':null}").
Proof.
  apply (decode_reply_other_members _ _
           [("name", JString "Oslo"); ("cod", JNumber "200");
            ("main", JObject [("temp", JNumber "-3")])]
           [("id", JArray [JNumber "1"]); ("name", JString "Oslo");
            ("main", JObject [("temp", JNumber "-3")]); ("wind", JNull)]);
    reflexivity.
Defined.

(** ** White space around a JSON text *)

Lemma skip_ws_app_cons (s X : list byte) (c : byte) (t : list byte) :
  skip_ws s = c :: t -> skip_ws (s ++ X) = c :: t ++ X.
Proof.
  induction s as [|a s IH]; [discriminate|]. cbn [skip_ws app].
  destruct (isSpace a); [exact IH|]. intros [= <- <-]. reflexivity.
Qed.

Lemma skip_ws_space (X : list byte) : forallb isSpace X = true -> skip_ws X = [].
Proof.
  induction X as [|a X IH]; [reflexivity|]. cbn [forallb skip_ws].
  intros H. apply andb_true_iff in H. destruct H as [-> H]. apply IH, H.
Qed.

Lemma skip_ws_lead (ws s : list byte) :
  forallb isSpace ws = true -> skip_ws (ws ++ s) = skip_ws s.
Proof.
  induction ws as [|a ws IH]; [reflexivity|]. cbn [forallb skip_ws app].
  intros H. apply andb_true_iff in H. destruct H as [-> H]. apply IH, H.
Qed.

Lemma skip_ws_app_nil (s X : list byte) :
  skip_ws s = [] -> skip_ws (s ++ X) = skip_ws X.
Proof.
  induction s as [|a s IH]; [reflexivity|]. cbn [skip_ws app].
  destruct (isSpace a); [exact IH | discriminate].
Qed.

Lemma strip_prefix_ext (p s r X : list byte) :
  strip_prefix p s = Some r -> strip_prefix p (s ++ X) = Some (r ++ X).
Proof.
  revert s. induction p as [|a p IH]; intros s; cbn [strip_prefix].
  - intros [= <-]. reflexivity.
  - destruct s as [|b s]; [discriminate|]. cbn [app].
    destruct (Byte.eqb a b); [apply IH | discriminate].
Qed.

Lemma ws_ahead_space (X : list byte) : forallb isSpace X = true -> ws_ahead X.
Proof.
  destruct X as [|c X]; [intros _; exact I|]. cbn [forallb ws_ahead].
  intros H. apply andb_true_iff in H. apply H.
Qed.

Lemma space_no_digit (c : byte) : isSpace c = true -> strconv.is_digit c = false.
Proof. destruct c; try discriminate; reflexivity. Qed.

Lemma ws_no_digit_ahead (X : list byte) : ws_ahead X -> no_digit_ahead X.
Proof. destruct X as [|c X]; [intros _; exact I|]. apply space_no_digit. Qed.

(** *** Number literals *)

Lemma digits_ext (s ds r X : list byte) :
  digits s = (ds, r) -> no_digit_ahead X -> digits (s ++ X) = (ds, r ++ X).
Proof.
  intros H HX. revert ds r H. induction s as [|c t IH]; intros ds r; cbn [digits app].
  - intros [= <- <-]. destruct X as [|c X]; [reflexivity|].
    cbn in HX. cbn [digits app]. rewrite HX. reflexivity.
  - destruct (strconv.is_digit c).
    + destruct (digits t) as [ds' r'] eqn:Hd. intros [= <- <-].
      rewrite (IH _ _ eq_refl). reflexivity.
    + intros [= <- <-]. reflexivity.
Qed.

Lemma scan_fraction_ext (s fr r X : list byte) :
  scan_fraction s = Some (fr, r) -> ws_ahead X ->
  scan_fraction (s ++ X) = Some (fr, r ++ X).
Proof.
  intros H HX. unfold scan_fraction in *. destruct s as [|c u]; cbn [app].
  - injection H as <- <-. destruct X as [|c X]; [reflexivity|].
    cbn in HX. replace (Byte.eqb c x2e) with false
      by (destruct c; try discriminate; reflexivity).
    reflexivity.
  - destruct (Byte.eqb c x2e).
    + destruct (digits u) as [ds r'] eqn:Hd.
      rewrite (digits_ext _ _ _ X Hd (ws_no_digit_ahead X HX)).
      destruct ds; [discriminate|]. injection H as <- <-. reflexivity.
    + injection H as <- <-. reflexivity.
Qed.

Lemma opt_sign_ext (a b : byte) (s sg r X : list byte) :
  opt_sign a b s = (sg, r) -> s <> [] -> opt_sign a b (s ++ X) = (sg, r ++ X).
Proof.
  unfold opt_sign. destruct s as [|c t]; [congruence|]. cbn [app].
  destruct (Byte.eqb c a || Byte.eqb c b); intros [= <- <-] _; reflexivity.
Qed.

Lemma scan_exponent_ext (s ex r X : list byte) :
  scan_exponent s = Some (ex, r) -> ws_ahead X ->
  scan_exponent (s ++ X) = Some (ex, r ++ X).
Proof.
  intros H HX. unfold scan_exponent in *. destruct s as [|e u]; cbn [app].
  - injection H as <- <-. destruct X as [|c X]; [reflexivity|].
    cbn in HX. replace (Byte.eqb c x65 || Byte.eqb c x45) with false
      by (destruct c; try discriminate; reflexivity).
    reflexivity.
  - destruct (Byte.eqb e x65 || Byte.eqb e x45).
    + destruct (opt_sign x2b x2d u) as [es u1] eqn:Hs.
      destruct (digits u1) as [ds r'] eqn:Hd.
      destruct ds as [|d ds]; [discriminate|]. injection H as <- <-.
      assert (Hu : u <> []).
      { intros ->. cbn in Hs. injection Hs as <- <-. discriminate. }
      rewrite (opt_sign_ext _ _ _ _ _ X Hs Hu).
      rewrite (digits_ext _ _ _ X Hd (ws_no_digit_ahead X HX)). reflexivity.
    + injection H as <- <-. reflexivity.
Qed.

Lemma scan_number_ext (s lit r X : list byte) :
  scan_number s = Some (lit, r) -> ws_ahead X ->
  scan_number (s ++ X) = Some (lit, r ++ X).
Proof.
  intros H HX. unfold scan_number in *.
  destruct (opt_sign x2d x2d s) as [sign s1] eqn:Hs.
  destruct s1 as [|c t]; [discriminate|].
  assert (Hne : s <> []).
  { intros ->. cbn in Hs. discriminate. }
  rewrite (opt_sign_ext _ _ _ _ _ X Hs Hne). cbn [app].
  destruct (strconv.is_digit c) eqn:Hc; [|discriminate]. cbn [negb] in *.
  destruct (if Byte.eqb c x30 then ([c], t) else digits (c :: t)) as [int s2] eqn:Hint.
  assert (Hint' : (if Byte.eqb c x30 then ([c], t ++ X) else digits (c :: t ++ X))
                  = (int, s2 ++ X)).
  { destruct (Byte.eqb c x30).
    - injection Hint as <- <-. reflexivity.
    - apply (digits_ext (c :: t) _ _ X Hint (ws_no_digit_ahead X HX)). }
  rewrite Hint'.
  destruct (scan_fraction s2) as [[fr s3]|] eqn:Hfr; [|discriminate].
  rewrite (scan_fraction_ext _ _ _ X Hfr HX).
  destruct (scan_exponent s3) as [[ex r']|] eqn:Hex; [|discriminate].
  rewrite (scan_exponent_ext _ _ _ X Hex HX).
  injection H as <- <-. reflexivity.
Qed.

(** *** String literals *)

(** A literal that [unquote] accepts holds its closing quote. *)
Lemma unquote_has_quote (s out rest : list byte) :
  unquote s = Some (out, rest) -> In x22 s.
Proof.
  remember (length s) as n eqn:Hn. revert s out rest Hn.
  induction n as [n IH] using lt_wf_ind. intros s out rest -> H.
  assert (IH' : forall t out' rest', (length t < length s)%nat ->
                  unquote t = Some (out', rest') -> In x22 t).
  { intros t out' rest' Hlt Ht. eapply (IH (length t)); eauto. }
  clear IH. destruct s as [|c t]; [discriminate|]. cbn [unquote] in H.
  destruct (Byte.eqb c x22) eqn:Hq.
  { apply Byte.byte_dec_bl in Hq. subst c. left. reflexivity. }
  right.
  destruct (Byte.eqb c x5c).
  { destruct t as [|e t']; [discriminate|].
    destruct (escape_kind_of e).
    - apply cons_ok_Some in H. destruct H as [? [H _]].
      apply IH' in H; [right; exact H | cbn [length]; lia].
    - destruct t' as [|h1 [|h2 [|h3 [|h4 t'']]]]; try discriminate.
      destruct (hex4 h1 h2 h3 h4) as [rr|]; [|discriminate].
      destruct (IsSurrogate rr).
      + destruct (negb _).
        * destruct t'' as [|a1 [|a2 [|a3 [|a4 [|a5 [|a6 t3]]]]]]; try discriminate.
          apply cons_ok_Some in H. destruct H as [? [H _]].
          apply IH' in H; [do 11 right; exact H | cbn [length]; lia].
        * apply cons_ok_Some in H. destruct H as [? [H _]].
          apply IH' in H; [do 5 right; exact H | cbn [length]; lia].
      + apply cons_ok_Some in H. destruct H as [? [H _]].
        apply IH' in H; [do 5 right; exact H | cbn [length]; lia].
    - discriminate. }
  destruct (b2z c <? 32); [discriminate|].
  destruct (b2z c <? utf8.RuneSelf).
  { apply cons_ok_Some in H. destruct H as [? [H _]].
    apply IH' in H; [exact H | cbn [length]; lia]. }
  destruct (utf8.DecodeRune (c :: t)) as [rr size].
  destruct size as [|[|[|[|[|size]]]]]; try discriminate.
  - apply cons_ok_Some in H. destruct H as [? [H _]].
    apply IH' in H; [exact H | cbn [length]; lia].
  - destruct t as [|b1 t1]; [discriminate|].
    apply cons_ok_Some in H. destruct H as [? [H _]].
    apply IH' in H; [right; exact H | cbn [length]; lia].
  - destruct t as [|b1 [|b2 t2]]; try discriminate.
    apply cons_ok_Some in H. destruct H as [? [H _]].
    apply IH' in H; [do 2 right; exact H | cbn [length]; lia].
  - destruct t as [|b1 [|b2 [|b3 t3]]]; try discriminate.
    apply cons_ok_Some in H. destruct H as [? [H _]].
    apply IH' in H; [do 3 right; exact H | cbn [length]; lia].
Qed.

Lemma quote_not_continuation (lo hi : Z) :
  0x80 <= lo -> (b2z x22 <? lo) || (hi <? b2z x22) = true.
Proof.
  intros H. apply orb_true_iff. left. apply Z.ltb_lt. change (b2z x22) with 34. lia.
Qed.

(** An invalid sequence stays invalid when text is added behind a quote. *)
Lemma DecodeRune_invalid_ext (c : byte) (t X : list byte) :
  In x22 t -> utf8.DecodeRune (c :: t) = (utf8.RuneError, 1%nat) ->
  utf8.DecodeRune (c :: t ++ X) = (utf8.RuneError, 1%nat).
Proof.
  intros Hq H. unfold utf8.DecodeRune in *. cbv zeta in *.
  destruct (utf8.first (b2z c)) as [| |sz lo hi] eqn:Hf; [exact H | reflexivity |].
  assert (Hlo : 0x80 <= lo /\ (sz = 2 \/ sz = 3 \/ sz = 4)%nat).
  { apply first_Seq in Hf.
    destruct Hf as [(-> & -> & _) | [(-> & _ & Hl & _) | (-> & _ & Hl & _)]]; lia. }
  destruct Hlo as [Hlo Hsz].
  assert (Hc22 : utf8.continuation (b2z x22) = false) by reflexivity.
  destruct t as [|b1 t1]; [destruct Hq|]. cbn [app].
  destruct (((length (c :: b1 :: t1 ++ X)) <? sz)%nat); [reflexivity|].
  destruct ((b2z b1 <? lo) || (hi <? b2z b1)) eqn:H1; [reflexivity|].
  assert (Hb1 : b1 <> x22).
  { intros ->. rewrite quote_not_continuation in H1 by exact Hlo. discriminate. }
  destruct Hq as [Hq|Hq]; [congruence|].
  destruct Hsz as [-> | [-> | ->]].
  - cbn [length Nat.ltb Nat.leb] in H. exact H.
  - destruct t1 as [|b2 t2]; [destruct Hq|]. cbn [length Nat.ltb Nat.leb app] in *.
    exact H.
  - destruct t1 as [|b2 t2]; [destruct Hq|]. cbn [app Nat.leb].
    destruct (negb (utf8.continuation (b2z b2))) eqn:H2; [reflexivity|].
    assert (Hb2 : b2 <> x22).
    { intros ->. rewrite Hc22 in H2. discriminate. }
    destruct Hq as [Hq|Hq]; [congruence|].
    destruct t2 as [|b3 t3]; [destruct Hq|]. cbn [length Nat.ltb Nat.leb app] in *.
    exact H.
Qed.

Lemma unquote_short_escape (t : list byte) :
  (length t < 6)%nat ->
  match t with
  | b0 :: b1 :: _ => Byte.eqb b0 x5c && Byte.eqb b1 x75 = true
  | [b0] => Byte.eqb b0 x5c = true
  | [] => True
  end ->
  unquote t = None.
Proof.
  intros Hl H. destruct t as [|b0 [|b1 t]]; [reflexivity | |].
  - apply Byte.byte_dec_bl in H. subst b0. reflexivity.
  - apply andb_true_iff in H. destruct H as [H0 H1].
    apply Byte.byte_dec_bl in H0, H1. subst b0 b1.
    destruct t as [|h1 [|h2 [|h3 [|h4 t]]]]; try reflexivity.
    cbn [length] in Hl. lia.
Qed.

(** The escape that may follow a surrogate escape is looked for in the
    literal, not behind it. *)
Lemma getu4_ext (t X : list byte) (out rest : list byte) :
  unquote t = Some (out, rest) -> getu4 (t ++ X) = getu4 t.
Proof.
  intros H.
  destruct (Nat.lt_ge_cases (length t) 6) as [Hl|Hl].
  - assert (Hg : getu4 t = -1).
    { destruct t as [|a0 [|a1 [|a2 [|a3 [|a4 [|a5 t]]]]]]; try reflexivity.
      cbn [length] in Hl. lia. }
    rewrite Hg. unfold getu4.
    destruct (t ++ X) as [|b0 [|b1 [|a [|b [|c [|d u]]]]]] eqn:E; try reflexivity.
    destruct (Byte.eqb b0 x5c && Byte.eqb b1 x75) eqn:Hb; [|reflexivity].
    exfalso. rewrite unquote_short_escape in H; [discriminate | exact Hl |].
    destruct t as [|t0 [|t1 t]].
    + exact I.
    + injection E as -> _. apply andb_true_iff in Hb. apply Hb.
    + injection E as -> -> _. exact Hb.
  - destruct t as [|a0 [|a1 [|a2 [|a3 [|a4 [|a5 t]]]]]]; cbn [length] in Hl; try lia.
    reflexivity.
Qed.

(** What follows a literal plays no part in reading it. *)
Lemma unquote_ext (X : list byte) (s out rest : list byte) :
  unquote s = Some (out, rest) -> unquote (s ++ X) = Some (out, rest ++ X).
Proof.
  remember (length s) as n eqn:Hn. revert s out rest Hn.
  induction n as [n IH] using lt_wf_ind. intros s out rest -> H.
  assert (IH' : forall t out' rest', (length t < length s)%nat ->
                  unquote t = Some (out', rest') ->
                  unquote (t ++ X) = Some (out', rest' ++ X)).
  { intros t out' rest' Hlt Ht. eapply (IH (length t)); eauto. }
  clear IH. destruct s as [|c t]; [discriminate|].
  cbn [app]. cbn [unquote] in H |- *.
  destruct (Byte.eqb c x22).
  { injection H as <- <-. reflexivity. }
  destruct (Byte.eqb c x5c).
  { destruct t as [|e t']; [discriminate|]. cbn [app].
    destruct (escape_kind_of e).
    - apply cons_ok_Some in H. destruct H as [out' [H ->]].
      apply IH' in H; [|cbn [length]; lia]. rewrite H. reflexivity.
    - destruct t' as [|h1 [|h2 [|h3 [|h4 t'']]]]; try discriminate. cbn [app].
      destruct (hex4 h1 h2 h3 h4) as [rr|]; [|discriminate].
      destruct (IsSurrogate rr).
      + destruct (negb (utf16_DecodeRune rr (getu4 t'') =? ReplacementChar)) eqn:Hd.
        * destruct t'' as [|a1 [|a2 [|a3 [|a4 [|a5 [|a6 t3]]]]]]; try discriminate.
          cbn [app]. change (getu4 (a1 :: a2 :: a3 :: a4 :: a5 :: a6 :: t3 ++ X))
            with (getu4 (a1 :: a2 :: a3 :: a4 :: a5 :: a6 :: t3)).
          rewrite Hd. apply cons_ok_Some in H. destruct H as [out' [H ->]].
          apply IH' in H; [|cbn [length]; lia]. rewrite H. reflexivity.
        * apply cons_ok_Some in H. destruct H as [out' [H ->]].
          rewrite (getu4_ext _ X _ _ H), Hd.
          apply IH' in H; [|cbn [length]; lia]. rewrite H. reflexivity.
      + apply cons_ok_Some in H. destruct H as [out' [H ->]].
        apply IH' in H; [|cbn [length]; lia]. rewrite H. reflexivity.
    - discriminate. }
  destruct (b2z c <? 32); [discriminate|].
  destruct (b2z c <? utf8.RuneSelf) eqn:Hc.
  { apply cons_ok_Some in H. destruct H as [out' [H ->]].
    apply IH' in H; [|cbn [length]; lia]. rewrite H. reflexivity. }
  apply Z.ltb_ge in Hc. unfold utf8.RuneSelf in Hc.
  destruct (utf8.DecodeRune (c :: t)) as [rr size] eqn:Hd.
  destruct (DecodeRune_multibyte c t rr size Hc Hd)
    as [[-> ->] | [[-> (b1 & t1 & -> & _ & HX)]
                  | [[-> (b1 & b2 & t2 & -> & _ & HX)]
                    | [-> (b1 & b2 & b3 & t3 & -> & _ & HX)]]]].
  - apply cons_ok_Some in H. destruct H as [out' [H ->]].
    rewrite (DecodeRune_invalid_ext c t X (unquote_has_quote _ _ _ H) Hd).
    apply IH' in H; [|cbn [length]; lia]. rewrite H. reflexivity.
  - cbn [app]. rewrite HX.
    apply cons_ok_Some in H. destruct H as [out' [H ->]].
    apply IH' in H; [|cbn [length]; lia]. rewrite H. reflexivity.
  - cbn [app]. rewrite HX.
    apply cons_ok_Some in H. destruct H as [out' [H ->]].
    apply IH' in H; [|cbn [length]; lia]. rewrite H. reflexivity.
  - cbn [app]. rewrite HX.
    apply cons_ok_Some in H. destruct H as [out' [H ->]].
    apply IH' in H; [|cbn [length]; lia]. rewrite H. reflexivity.
Qed.

(** *** Values *)

Lemma strip1_skip_ext (b : byte) (t t' X : list byte) :
  strip_prefix [b] (skip_ws t) = Some t' ->
  strip_prefix [b] (skip_ws (t ++ X)) = Some (t' ++ X).
Proof.
  destruct (skip_ws t) as [|c u] eqn:Hs; [discriminate|].
  rewrite (skip_ws_app_cons _ X _ _ Hs). apply (strip_prefix_ext [b] (c :: u)).
Qed.

Lemma strip1_skip_none (b : byte) (t X : list byte) :
  skip_ws t <> [] -> strip_prefix [b] (skip_ws t) = None ->
  strip_prefix [b] (skip_ws (t ++ X)) = None.
Proof.
  destruct (skip_ws t) as [|c u] eqn:Hs; [congruence|]. intros _.
  rewrite (skip_ws_app_cons _ X _ _ Hs). cbn [strip_prefix].
  destruct (Byte.eqb b c); [discriminate | reflexivity].
Qed.

Lemma parse_value_nonblank (fuel : nat) (depth : Z) (s : list byte)
      (v : value) (r : list byte) :
  parse_value fuel depth s = POk v r -> skip_ws s <> [].
Proof.
  destruct fuel; [discriminate|]. cbn [parse_value].
  destruct (skip_ws s); [discriminate | discriminate].
Qed.

Lemma parse_members_nonblank (fuel : nat) (depth : Z) (s : list byte)
      (kvs : list (string * value)) (r : list byte) :
  parse_members fuel depth s = POk kvs r -> skip_ws s <> [].
Proof.
  destruct fuel; [discriminate|]. cbn [parse_members].
  destruct (skip_ws s); [discriminate | discriminate].
Qed.

Lemma parse_elements_nonblank (fuel : nat) (depth : Z) (s : list byte)
      (vs : list value) (r : list byte) :
  parse_elements fuel depth s = POk vs r -> skip_ws s <> [].
Proof.
  destruct fuel; [discriminate|]. cbn [parse_elements].
  destruct (parse_value fuel depth s) as [v r0| |] eqn:H; try discriminate.
  intros _. apply (parse_value_nonblank _ _ _ _ _ H).
Qed.

Lemma literal_ext (name : string) (v v' : value) (t r X : list byte) :
  literal name v t = POk v' r -> literal name v (t ++ X) = POk v' (r ++ X).
Proof.
  unfold literal. destruct (strip_prefix (bytes_of name) t) as [r0|] eqn:H; [|discriminate].
  intros [= <- <-]. rewrite (strip_prefix_ext _ _ _ X H). reflexivity.
Qed.

Section Padding.

Variable X : list byte.
Hypothesis X_space : forallb isSpace X = true.

Lemma parse_value_ext (fuel : nat) :
  extends X parse_members fuel -> extends X parse_elements fuel ->
  extends X parse_value (S fuel).
Proof.
  intros IHm IHe depth s v r. cbn [parse_value].
  destruct (skip_ws s) as [|c t] eqn:Hs; [discriminate|].
  rewrite (skip_ws_app_cons _ X _ _ Hs).
  destruct (start_of c).
  - destruct (maxNestingDepth <? depth + 1); [discriminate|].
    destruct (strip_prefix [x7d] (skip_ws t)) as [t'|] eqn:Hp.
    + intros [= <- <-]. rewrite (strip1_skip_ext _ _ _ X Hp). reflexivity.
    + destruct (parse_members fuel (depth + 1) t) as [kvs r'| |] eqn:Hm; try discriminate.
      intros [= <- <-].
      rewrite (strip1_skip_none _ _ X (parse_members_nonblank _ _ _ _ _ Hm) Hp).
      rewrite (IHm _ _ _ _ Hm). reflexivity.
  - destruct (maxNestingDepth <? depth + 1); [discriminate|].
    destruct (strip_prefix [x5d] (skip_ws t)) as [t'|] eqn:Hp.
    + intros [= <- <-]. rewrite (strip1_skip_ext _ _ _ X Hp). reflexivity.
    + destruct (parse_elements fuel (depth + 1) t) as [vs r'| |] eqn:He; try discriminate.
      intros [= <- <-].
      rewrite (strip1_skip_none _ _ X (parse_elements_nonblank _ _ _ _ _ He) Hp).
      rewrite (IHe _ _ _ _ He). reflexivity.
  - destruct (unquote t) as [[str r']|] eqn:Hu; [|discriminate].
    intros [= <- <-]. rewrite (unquote_ext X _ _ _ Hu). reflexivity.
  - apply literal_ext.
  - apply literal_ext.
  - apply literal_ext.
  - destruct (scan_number (c :: t)) as [[lit r']|] eqn:Hn; [|discriminate].
    intros [= <- <-].
    pose proof (scan_number_ext (c :: t) _ _ X Hn (ws_ahead_space X X_space)) as Hn'.
    cbn [app] in Hn'. rewrite Hn'. reflexivity.
Qed.

Lemma parse_members_ext (fuel : nat) :
  extends X parse_value fuel -> extends X parse_members fuel ->
  extends X parse_members (S fuel).
Proof.
  intros IHv IHm depth s kvs r. cbn [parse_members].
  destruct (strip_prefix [x22] (skip_ws s)) as [t|] eqn:Hq; [|discriminate].
  rewrite (strip1_skip_ext _ _ _ X Hq).
  destruct (unquote t) as [[k r0]|] eqn:Hu; [|discriminate].
  rewrite (unquote_ext X _ _ _ Hu).
  destruct (strip_prefix [x3a] (skip_ws r0)) as [r1|] eqn:Hc; [|discriminate].
  rewrite (strip1_skip_ext _ _ _ X Hc).
  destruct (parse_value fuel depth r1) as [v r2| |] eqn:Hv; try discriminate.
  rewrite (IHv _ _ _ _ Hv).
  destruct (skip_ws r2) as [|c r3] eqn:Hs; [discriminate|].
  rewrite (skip_ws_app_cons _ X _ _ Hs).
  destruct (Byte.eqb c x2c).
  - destruct (parse_members fuel depth r3) as [kvs' r4| |] eqn:Hm; try discriminate.
    intros [= <- <-]. rewrite (IHm _ _ _ _ Hm). reflexivity.
  - destruct (Byte.eqb c x7d); [|discriminate].
    intros [= <- <-]. reflexivity.
Qed.

Lemma parse_elements_ext (fuel : nat) :
  extends X parse_value fuel -> extends X parse_elements fuel ->
  extends X parse_elements (S fuel).
Proof.
  intros IHv IHe depth s vs r. cbn [parse_elements].
  destruct (parse_value fuel depth s) as [v r0| |] eqn:Hv; try discriminate.
  rewrite (IHv _ _ _ _ Hv).
  destruct (skip_ws r0) as [|c r1] eqn:Hs; [discriminate|].
  rewrite (skip_ws_app_cons _ X _ _ Hs).
  destruct (Byte.eqb c x2c).
  - destruct (parse_elements fuel depth r1) as [vs' r2| |] eqn:He; try discriminate.
    intros [= <- <-]. rewrite (IHe _ _ _ _ He). reflexivity.
  - destruct (Byte.eqb c x5d); [|discriminate].
    intros [= <- <-]. reflexivity.
Qed.

Lemma parse_ext (fuel : nat) :
  extends X parse_value fuel /\ extends X parse_members fuel
  /\ extends X parse_elements fuel.
Proof.
  induction fuel as [|fuel (IHv & IHm & IHe)].
  - repeat split; intros depth s a r; discriminate.
  - split; [|split].
    + now apply parse_value_ext.
    + now apply parse_members_ext.
    + now apply parse_elements_ext.
Qed.

End Padding.

Lemma parse_mono (fuel : nat) :
  monotone parse_value fuel /\ monotone parse_members fuel
  /\ monotone parse_elements fuel.
Proof.
  induction fuel as [|fuel (IHv & IHm & IHe)].
  { repeat split; intros fuel' depth s a r _; discriminate. }
  split; [|split].
  - intros [|fuel'] depth s v r Hle; [lia|]. cbn [parse_value].
    destruct (skip_ws s) as [|c t]; [discriminate|].
    destruct (start_of c); try (intros H; exact H).
    + destruct (maxNestingDepth <? depth + 1); [discriminate|].
      destruct (strip_prefix [x7d] (skip_ws t)); [intros H; exact H|].
      destruct (parse_members fuel (depth + 1) t) as [kvs r'| |] eqn:Hm; try discriminate.
      intros [= <- <-]. rewrite (IHm fuel' _ _ _ _ ltac:(lia) Hm). reflexivity.
    + destruct (maxNestingDepth <? depth + 1); [discriminate|].
      destruct (strip_prefix [x5d] (skip_ws t)); [intros H; exact H|].
      destruct (parse_elements fuel (depth + 1) t) as [vs r'| |] eqn:He; try discriminate.
      intros [= <- <-]. rewrite (IHe fuel' _ _ _ _ ltac:(lia) He). reflexivity.
  - intros [|fuel'] depth s kvs r Hle; [lia|]. cbn [parse_members].
    destruct (strip_prefix [x22] (skip_ws s)) as [t|]; [|discriminate].
    destruct (unquote t) as [[k r0]|]; [|discriminate].
    destruct (strip_prefix [x3a] (skip_ws r0)) as [r1|]; [|discriminate].
    destruct (parse_value fuel depth r1) as [v r2| |] eqn:Hv; try discriminate.
    rewrite (IHv fuel' _ _ _ _ ltac:(lia) Hv).
    destruct (skip_ws r2) as [|c r3]; [discriminate|].
    destruct (Byte.eqb c x2c); [|intros H; exact H].
    destruct (parse_members fuel depth r3) as [kvs' r4| |] eqn:Hm; try discriminate.
    intros [= <- <-]. rewrite (IHm fuel' _ _ _ _ ltac:(lia) Hm). reflexivity.
  - intros [|fuel'] depth s vs r Hle; [lia|]. cbn [parse_elements].
    destruct (parse_value fuel depth s) as [v r0| |] eqn:Hv; try discriminate.
    rewrite (IHv fuel' _ _ _ _ ltac:(lia) Hv).
    destruct (skip_ws r0) as [|c r1]; [discriminate|].
    destruct (Byte.eqb c x2c); [|intros H; exact H].
    destruct (parse_elements fuel depth r1) as [vs' r2| |] eqn:He; try discriminate.
    intros [= <- <-]. rewrite (IHe fuel' _ _ _ _ ltac:(lia) He). reflexivity.
Qed.

Lemma parse_value_lead (fuel : nat) (depth : Z) (ws s : list byte) :
  forallb isSpace ws = true ->
  parse_value fuel depth (ws ++ s) = parse_value fuel depth s.
Proof.
  intros H. destruct fuel; [reflexivity|]. cbn [parse_value].
  rewrite (skip_ws_lead _ _ H). reflexivity.
Qed.

(** White space before and after a JSON text does not change what it is
    read as. *)
Lemma parse_padded (ws1 data ws2 : list byte) (v : value) :
  forallb isSpace ws1 = true -> forallb isSpace ws2 = true ->
  json.parse data = Some v -> json.parse (ws1 ++ data ++ ws2) = Some v.
Proof.
  intros H1 H2. unfold json.parse.
  destruct (parse_value (S (2 * length data)) 0 data) as [v' rest| |] eqn:Hp;
    try discriminate.
  destruct (skip_ws rest) eqn:Hs; [|discriminate]. intros [= <-].
  destruct (parse_ext ws2 H2 (S (2 * length data))) as [Hext _].
  apply Hext in Hp. rewrite <- (parse_value_lead _ _ ws1 _ H1) in Hp.
  destruct (parse_mono (S (2 * length data))) as [Hmono _].
  rewrite (Hmono (S (2 * length (ws1 ++ data ++ ws2))) _ _ _ _ ltac:(rewrite !length_app; lia) Hp).
  rewrite (skip_ws_app_nil _ _ Hs), (skip_ws_space _ H2). reflexivity.
Qed.

(** X15.  White space before and after a valid JSON text makes no
    difference to the decoder: a configuration file with, say, a line feed
    at its end is loaded like the file without it, and a reply is decoded
    like the reply without its padding. *)
Theorem loadApiConfig_padded (W W' : World) (filename ws1 data ws2 : string) :
  forallb isSpace (bytes_of ws1) = true -> forallb isSpace (bytes_of ws2) = true ->
  json.Valid data = true ->
  ReadFile W filename = Ok data ->
  ReadFile W' filename = Ok (ws1 +:+ data +:+ ws2) ->
  fst (run (loadApiConfig W' filename)) = fst (run (loadApiConfig W filename))
  /\ decode_reply (ws1 +:+ data +:+ ws2) = decode_reply data.
Proof.
  intros H1 H2 Hv Hr Hr'. unfold json.Valid in Hv.
  destruct (json.parse (bytes_of data)) as [v|] eqn:Hp; [|discriminate].
  assert (Hp' : json.parse (bytes_of (ws1 +:+ data +:+ ws2)) = Some v).
  { rewrite !bytes_of_append. apply parse_padded; assumption. }
  split.
  - unfold run. rewrite !loadApiConfig_eq. cbn [fst].
    unfold loadApiConfig_result, Unmarshal. rewrite Hr, Hr', Hp, Hp'. reflexivity.
  - unfold decode_reply, Unmarshal. rewrite Hp, Hp'. reflexivity.
Qed.

Lemma loadApiConfig_padded_witness :
  fst (run (loadApiConfig (world (" " +:+ config_ok +:+ nl) 200 "") ".apiConfig"))
  = fst (run (loadApiConfig (world config_ok 200 "") ".apiConfig"))
  /\ decode_reply (" " +:+ config_ok +:+ nl) = decode_reply config_ok.
Proof.
  apply (loadApiConfig_padded (world config_ok 200 "") (world (" " +:+ config_ok +:+ nl) 200 "")
                          ".apiConfig" " " config_ok nl); reflexivity.
Defined.

(** ** What [utf8.Valid] accepts *)

Lemma scalar_dec (r : Z) : scalar r \/ utf8.EncodeRune r = [xef; xbf; xbd].
Proof.
  unfold scalar, utf8.MaxRune, utf8.surrogateMin, utf8.surrogateMax.
  destruct (Z.lt_ge_cases r 0); [right; apply EncodeRune_invalid; lia|].
  destruct (Z.lt_ge_cases 0x10FFFF r);
    [right; apply EncodeRune_invalid; unfold utf8.MaxRune; lia|].
  destruct (Z.lt_ge_cases r 0xD800); [left; lia|].
  destruct (Z.lt_ge_cases 0xDFFF r); [left; lia|].
  right; apply EncodeRune_invalid. unfold utf8.surrogateMin, utf8.surrogateMax. lia.
Qed.

(** A rune that [DecodeRune] reads from its own encoding is a scalar
    value. *)
Lemma decoded_scalar (c : Z) (sz : nat) :
  (forall X, utf8.DecodeRune (utf8.EncodeRune c ++ X) = (c, sz)) -> scalar c.
Proof.
  intros H. destruct (scalar_dec c) as [Hs|E]; [exact Hs|].
  specialize (H []). rewrite E in H.
  change (utf8.DecodeRune ([xef; xbf; xbd] ++ [])) with (0xFFFD, 3%nat) in H.
  injection H as <- _.
  unfold scalar, utf8.MaxRune, utf8.surrogateMin, utf8.surrogateMax. lia.
Qed.

Lemma Valid_encode_runes (rs : list Z) : utf8.Valid (encode_runes rs) = true.
Proof.
  induction rs as [|r rs IH]; [reflexivity|].
  unfold encode_runes. cbn [map concat]. rewrite Valid_EncodeRune_app. exact IH.
Qed.

Lemma Valid_decompose (n : nat) (p : list byte) :
  (length p <= n)%nat -> utf8.Valid p = true ->
  exists rs, Forall scalar rs /\ p = encode_runes rs.
Proof.
  revert p. induction n as [|n IH]; intros p Hlen Hv.
  { destruct p; [|cbn in Hlen; lia]. exists []. split; [constructor | reflexivity]. }
  destruct p as [|b t]; [exists []; split; [constructor | reflexivity]|].
  cbn [length] in Hlen.
  destruct (Z.lt_ge_cases (b2z b) 0x80) as [Hb|Hb].
  - rewrite Valid_cons_low in Hv by exact Hb.
    destruct (IH t ltac:(lia) Hv) as (rs & Hrs & ->).
    exists (b2z b :: rs). pose proof (b2z_range b). split.
    + constructor; [|exact Hrs].
      unfold scalar, utf8.MaxRune, utf8.surrogateMin, utf8.surrogateMax. lia.
    + unfold encode_runes. cbn [map concat]. rewrite EncodeRune1 by lia.
      rewrite z2b_b2z. reflexivity.
  - destruct (utf8.DecodeRune (b :: t)) as [c sz] eqn:Hd.
    destruct (DecodeRune_multibyte b t c sz Hb Hd)
      as [[-> ->] | [[-> (b1 & t1 & -> & Henc & HX)]
                    | [[-> (b1 & b2 & t2 & -> & Henc & HX)]
                      | [-> (b1 & b2 & b3 & t3 & -> & Henc & HX)]]]].
    + exfalso. unfold utf8.Valid in Hv. cbn [length utf8.Valid_fuel] in Hv.
      rewrite Hd in Hv. cbn in Hv. discriminate.
    + change (utf8.Valid ([b; b1] ++ t1) = true) in Hv.
      rewrite (Valid_step [b; b1] t1 c 2%nat (HX t1) eq_refl ltac:(lia) ltac:(lia)) in Hv.
      cbn [length] in Hlen. destruct (IH t1 ltac:(lia) Hv) as (rs & Hrs & ->).
      exists (c :: rs). split.
      * constructor; [|exact Hrs]. apply (decoded_scalar c 2%nat).
        intros X. rewrite Henc. apply HX.
      * unfold encode_runes. cbn [map concat]. rewrite Henc. reflexivity.
    + change (utf8.Valid ([b; b1; b2] ++ t2) = true) in Hv.
      rewrite (Valid_step [b; b1; b2] t2 c 3%nat (HX t2) eq_refl ltac:(lia) ltac:(lia)) in Hv.
      cbn [length] in Hlen. destruct (IH t2 ltac:(lia) Hv) as (rs & Hrs & ->).
      exists (c :: rs). split.
      * constructor; [|exact Hrs]. apply (decoded_scalar c 3%nat).
        intros X. rewrite Henc. apply HX.
      * unfold encode_runes. cbn [map concat]. rewrite Henc. reflexivity.
    + change (utf8.Valid ([b; b1; b2; b3] ++ t3) = true) in Hv.
      rewrite (Valid_step [b; b1; b2; b3] t3 c 4%nat (HX t3) eq_refl ltac:(lia) ltac:(lia)) in Hv.
      cbn [length] in Hlen. destruct (IH t3 ltac:(lia) Hv) as (rs & Hrs & ->).
      exists (c :: rs). split.
      * constructor; [|exact Hrs]. apply (decoded_scalar c 4%nat).
        intros X. rewrite Henc. apply HX.
      * unfold encode_runes. cbn [map concat]. rewrite Henc. reflexivity.
Qed.

(** X16.  [utf8.Valid] accepts exactly the byte strings that are the
    encodings, one after the other, of Unicode scalar values. *)
Theorem Valid_iff_encoding (p : list byte) :
  utf8.Valid p = true <-> exists rs, Forall scalar rs /\ p = encode_runes rs.
Proof.
  split.
  - apply (Valid_decompose (length p)). lia.
  - intros (rs & _ & ->). apply Valid_encode_runes.
Qed.
